(** * DeepTrack features: the update/resolve protocol of [features.py]

    A shallow embedding of [src/DeepTrack/features.py].  Feature objects
    live in a store and are named by their address, because the code
    mutates them in place ([has_updated_since_last_resolve], the current
    values of their properties) and [copy.deepcopy] creates new ones.
    Methods are computations in a small state-and-exception monad over
    that store; calls that go through other objects of the store
    ([update], [resolve], [deepcopy]) and the [while True] of the
    generator of a Load are bounded by a fuel argument. *)

From Stdlib Require Import ZArith QArith Lia.
From stdpp Require Import base list strings.

Open Scope string_scope.
Open Scope list_scope.

(** ** Values held by properties *)

Abbreviation addr := nat (only parsing).

(** The zero-argument callables that the file hands to [Property]. *)
Inductive sampler : Type :=
| np_random_rand                          (* np.random.rand *)
| sample_int (g : Q -> Z)                 (* a caller's sampler: an integer read off one uniform draw *)
| sample_float (g : Q -> Q)               (* a caller's sampler: a float read off one uniform draw *)
| duplicate_lambda (self feature : addr)  (* the lambda of FeatureDuplicate.__init__, closed over self and feature *)
| loaded_images (self : addr) (g : nat).  (* the generator object made by Load.__next__, closed over self *)

Inductive value : Type :=
| VNone
| VInt (z : Z)
| VFloat (q : Q)              (* a Python float: it is only compared, as the rational it is *)
| VArray (z : Z)              (* a raw ndarray; its cells are kept as one scalar *)
| VFeature (a : addr)         (* a reference to a Feature object *)
| VFeatures (l : list addr).  (* a Python list of Feature objects *)

(** Modelled from the spec: the argument of [Property(...)] as the tagged
    variant of spec section 9, a constant or a zero-argument sampler
    ([DeepTrack/properties.py] is not part of the sources). *)
Inductive rule : Type :=
| Constant (v : value)
| Sampled (s : sampler).

(** Modelled from the spec: [Property] of section 3, the sampling rule and
    the last resolved value ([DeepTrack/properties.py] is missing). *)
Record Property : Type := mkProperty {
  sampling_rule : rule;
  current_value : value
}.

(** Modelled from the spec: the [Property] constructor.  A constant is its
    own current value; a sampler is not run at construction (the lambda
    of FeatureDuplicate reads [self.properties], which does not exist
    yet at that point), so its slot starts out as None. *)
Definition Property_init (r : rule) : Property :=
  {| sampling_rule := r;
     current_value := match r with Constant v => v | Sampled _ => VNone end |}.

(** A Python dict with string keys, in insertion order. *)
Abbreviation dict A := (list (string * A)) (only parsing).

Fixpoint dict_get {A} (k : string) (d : dict A) : option A :=
  match d with
  | [] => None
  | (k', v) :: d' => if String.eqb k k' then Some v else dict_get k d'
  end.

Fixpoint dict_set {A} (k : string) (v : A) (d : dict A) : dict A :=
  match d with
  | [] => [(k, v)]
  | (k', v') :: d' =>
      if String.eqb k k' then (k, v) :: d' else (k', v') :: dict_set k v d'
  end.

Definition dict_keys {A} (d : dict A) : list string := map fst d.

(** The resolved-property snapshot: name to current value. *)
Abbreviation snapshot := (list (string * value)) (only parsing).

(** Modelled from the spec: [PropertyDict.current_value_dict], the
    [snapshotAll] of section 4.2. *)
Definition current_value_dict (properties : dict Property) : snapshot :=
  map (fun kp => (fst kp, current_value (snd kp))) properties.

(** A keyword argument read by a [get] signature; its default is None. *)
Definition kwarg (k : string) (properties : snapshot) : value :=
  match dict_get k properties with Some v => v | None => VNone end.

(** ** Images *)

(** Modelled from the spec: the artifact of section 3 ([DeepTrack/Image.py]
    is missing).  The array is kept as one scalar cell, as in the
    scenarios of section 8; [image_properties] is the provenance trail.
    Images are threaded linearly through the pipeline
    ([image = f.resolve(image)]), so they are passed as values. *)
Record Image : Type := mkImage {
  data : Z;
  image_properties : list snapshot
}.

(** Modelled from the spec: "append a metadata record". *)
Definition Image_append (image : Image) (properties : snapshot) : Image :=
  {| data := data image;
     image_properties := image_properties image ++ [properties] |}.

(** Modelled from the spec: "combine with another artifact", the [+] of
    [Load.get]; the trail of the left operand is kept. *)
Definition Image_add (image : Image) (z : Z) : Image :=
  {| data := data image + z; image_properties := image_properties image |}.

(** ** The outside of a Load

    What the generator of a Load reads: the file system through
    [os.path] and [os.listdir], [re.match], the arrays that [np.load]
    finds in the files, and what numpy's random source chooses for
    [np.random.choice] and [np.random.shuffle].  A path is a string; an
    array is the list of its items along the first axis, each kept as
    one scalar. *)
Record Outside : Type := mkOutside {
  isdir : string -> bool;                      (* os.path.isdir *)
  isfile : string -> bool;                     (* os.path.isfile *)
  listdir : string -> option (list string);    (* os.listdir; None: it raises OSError *)
  re_match : string -> string -> option bool;  (* whether re.match(pattern, name) finds a match; None: re.error *)
  np_load : string -> option (list Z);         (* np.load(file); None: it raises *)
  np_random_choice : nat -> nat;               (* the integer that call k of the random source draws for a choice *)
  np_random_shuffle : nat -> list Z -> list Z  (* the order in which call k of the random source leaves an array *)
}.

(** [os.path.join(a, b)], [os.path.dirname(p)] and [os.path.basename(p)]
    of [posixpath]. *)
Definition is_slash (c : Ascii.ascii) : bool :=
  String.eqb (String.String c String.EmptyString) "/".

Definition starts_with_slash (s : string) : bool :=
  match s with
  | String.String c _ => is_slash c
  | String.EmptyString => false
  end.

Definition ends_with_slash (s : string) : bool :=
  match rev (String.list_ascii_of_string s) with
  | c :: _ => is_slash c
  | [] => false
  end.

Definition os_path_join (a b : string) : string :=
  if starts_with_slash b then b
  else if String.eqb a "" || ends_with_slash a then String.append a b
  else String.append a (String.append "/" b).

(** The characters before the first slash, and the rest from that slash
    on; on a reversed path, the last component and the head. *)
Fixpoint before_slash (l : list Ascii.ascii) : list Ascii.ascii :=
  match l with
  | [] => []
  | c :: l' => if is_slash c then [] else c :: before_slash l'
  end.

Fixpoint from_slash (l : list Ascii.ascii) : list Ascii.ascii :=
  match l with
  | [] => []
  | c :: l' => if is_slash c then l else from_slash l'
  end.

Fixpoint strip_slashes (l : list Ascii.ascii) : list Ascii.ascii :=
  match l with
  | c :: l' => if is_slash c then strip_slashes l' else l
  | [] => []
  end.

Definition os_path_basename (p : string) : string :=
  String.string_of_list_ascii
    (rev (before_slash (rev (String.list_ascii_of_string p)))).

Definition os_path_dirname (p : string) : string :=
  let head := from_slash (rev (String.list_ascii_of_string p)) in
  match strip_slashes head with
  | [] => String.string_of_list_ascii (rev head)   (* empty, or slashes only *)
  | stripped => String.string_of_list_ascii (rev stripped)
  end.

(** ** Feature objects and the store *)

Inductive FeatureClass : Type :=
| UserFeature (get : Image -> snapshot -> option Image)
    (* a concrete subclass whose get is a function of the image and the snapshot *)
| FeatureBranch
| FeatureProbability
| FeatureDuplicate
| Load.

Record Feature : Type := mkFeature {
  class : FeatureClass;
  feature : option addr;         (* self.feature, set by FeatureDuplicate *)
  path : option string;          (* self.path, set by Load *)
  properties : dict Property;    (* self.properties *)
  has_updated_since_last_resolve : bool
}.

Record World : Type := mkWorld {
  heap : list Feature;        (* the Feature objects, by address *)
  np_random : nat -> Q;       (* what the random source returns, call by call *)
  np_random_calls : nat;      (* calls made so far *)
  dataset : Outside;          (* the files and what numpy makes of them *)
  generators : list nat;      (* per generator object, the items yielded so far *)
  buffers : list (list Z)     (* per generator object, the items of the array it is in that are still to be yielded *)
}.

Definition with_heap (w : World) (h : list Feature) : World :=
  {| heap := h; np_random := np_random w; np_random_calls := np_random_calls w;
     dataset := dataset w; generators := generators w; buffers := buffers w |}.

(** ** Computations *)

Inductive exn : Type :=
| TypeError
| AttributeError
| KeyError
| ValueError
| OSError
| ReError            (* re.error *)
| Exception (msg : string)
| GetFailed          (* a user get that has no result *)
| OutsideFeatures    (* an operator expression no Feature takes part in *)
| InvalidReference.  (* an address with no object: unreachable from Python *)

Inductive result (A : Type) : Type :=
| Ok (x : A)
| Raise (e : exn)
| OutOfFuel.
Arguments Ok {A} x.
Arguments Raise {A} e.
Arguments OutOfFuel {A}.

Definition M (A : Type) : Type := World -> result (A * World).

Definition ret {A} (x : A) : M A := fun w => Ok (x, w).

Definition bind {A B} (m : M A) (k : A -> M B) : M B :=
  fun w => match m w with
           | Ok (x, w') => k x w'
           | Raise e => Raise e
           | OutOfFuel => OutOfFuel
           end.

Definition raise {A} (e : exn) : M A := fun _ => Raise e.
Definition out_of_fuel {A} : M A := fun _ => OutOfFuel.

Notation "'let*' x ':=' m 'in' k" := (bind m (fun x => k))
  (at level 10, x pattern, m at level 100, k at level 200).
Notation "m ';;' k" := (bind m (fun _ => k))
  (at level 100, k at level 200, right associativity).

Fixpoint repeatM {A} (n : nat) (m : M A) : M (list A) :=
  match n with
  | O => ret []
  | S n' => let* x := m in let* l := repeatM n' m in ret (x :: l)
  end.

Fixpoint forM_ {A} (l : list A) (f : A -> M unit) : M unit :=
  match l with
  | [] => ret tt
  | x :: l' => f x ;; forM_ l' f
  end.

Fixpoint foldM {A B} (f : B -> A -> M B) (b : B) (l : list A) : M B :=
  match l with
  | [] => ret b
  | x :: l' => let* b' := f b x in foldM f b' l'
  end.

(** *** Store primitives *)

Definition get_feature (a : addr) : M Feature :=
  fun w => match heap w !! a with
           | Some o => Ok (o, w)
           | None => Raise InvalidReference
           end.

Definition set_feature (a : addr) (o : Feature) : M unit :=
  fun w => Ok (tt, with_heap w (<[a := o]> (heap w))).

(** A new object: its address is the next free one. *)
Definition new_object (o : Feature) : M addr :=
  fun w => Ok (length (heap w), with_heap w (heap w ++ [o])).

Definition with_flag (o : Feature) (b : bool) : Feature :=
  {| class := class o; feature := feature o; path := path o;
     properties := properties o; has_updated_since_last_resolve := b |}.

Definition with_properties (o : Feature) (p : dict Property) : Feature :=
  {| class := class o; feature := feature o; path := path o;
     properties := p;
     has_updated_since_last_resolve := has_updated_since_last_resolve o |}.

(** [self.has_updated_since_last_resolve = b] *)
Definition set_flag (a : addr) (b : bool) : M unit :=
  let* o := get_feature a in set_feature a (with_flag o b).

(** One call of the random source. *)
Definition rand : M Q :=
  fun w => Ok (np_random w (np_random_calls w),
               {| heap := heap w; np_random := np_random w;
                  np_random_calls := S (np_random_calls w);
                  dataset := dataset w; generators := generators w;
                  buffers := buffers w |}).

(** A new generator object: its body has not started, nothing is loaded
    and nothing yielded yet. *)
Definition new_generator : M nat :=
  fun w => Ok (length (generators w),
               {| heap := heap w; np_random := np_random w;
                  np_random_calls := np_random_calls w;
                  dataset := dataset w; generators := generators w ++ [O];
                  buffers := buffers w ++ [[]] |}).

(** ** Construction: [Feature.__init__] and the subclasses *)

(** [cls.__new__(cls)]: the object exists before [__init__] runs. *)
Definition blank (cls : FeatureClass) : Feature :=
  {| class := cls; feature := None; path := None; properties := [];
     has_updated_since_last_resolve := false |}.

(** A call [f(k1=v1, ..., **kwargs)]: a key given twice is a TypeError.
    [kwargs] is the dictionary that the constructor has bound to its own
    [**kwargs]: Python has refused before that a keyword argument named
    like one of the constructor's own parameters ([self], [F1],
    [feature], ...), so such a name is not among its keys. *)
Definition keywords {A} (named kwargs : dict A) : M (dict A) :=
  if forallb (fun k => negb (existsb (String.eqb k) (dict_keys named)))
             (dict_keys kwargs)
  then ret (named ++ kwargs)
  else raise TypeError.

(** [Feature.__init__(self, **kwargs)] *)
Definition Feature_init (self : addr) (kwargs : dict rule) : M unit :=
  let* o := get_feature self in
  let properties :=
    fold_left (fun d kv => dict_set (fst kv) (Property_init (snd kv)) d)
              kwargs (properties o) in
  set_feature self (with_flag (with_properties o properties) false).

(** [FeatureBranch(F1, F2, **kwargs)] *)
Definition FeatureBranch_init (F1 F2 : rule) (kwargs : dict rule) : M addr :=
  let* self := new_object (blank FeatureBranch) in
  let* kw := keywords [("feature_1", F1); ("feature_2", F2)] kwargs in
  Feature_init self kw ;;
  ret self.

(** [FeatureProbability(feature, probability, **kwargs)] *)
Definition FeatureProbability_init (feature probability : rule)
    (kwargs : dict rule) : M addr :=
  let* self := new_object (blank FeatureProbability) in
  let* kw := keywords [("feature", feature); ("probability", probability);
                       ("random_number", Sampled np_random_rand)] kwargs in
  Feature_init self kw ;;
  ret self.

(** [FeatureDuplicate(feature, num_duplicates, **kwargs)] *)
Definition FeatureDuplicate_init (feature_ : addr) (num_duplicates : rule)
    (kwargs : dict rule) : M addr :=
  let* self := new_object (blank FeatureDuplicate) in
  let* o := get_feature self in
  set_feature self
    {| class := class o; feature := Some feature_; path := path o;
       properties := properties o;
       has_updated_since_last_resolve := has_updated_since_last_resolve o |} ;;
  let* kw := keywords [("num_duplicates", num_duplicates);
                       ("features", Sampled (duplicate_lambda self feature_))]
                      kwargs in
  Feature_init self kw ;;
  ret self.

(** [Load.get_files(self)] on the path [p].  In the second branch the
    names are joined to [self.path] itself, as the code has it. *)
Fixpoint matching_files (fs : Outside) (p pattern : string)
    (files : list string) : exn + list string :=
  match files with
  | [] => inr []
  | file :: files' =>
      if isfile fs (os_path_join p file)
      then match re_match fs pattern file with
           | None => inl ReError
           | Some found =>
               match matching_files fs p pattern files' with
               | inl e => inl e
               | inr l => inr (if found then os_path_join p file :: l else l)
               end
           end
      else matching_files fs p pattern files'
  end.

Definition get_files (fs : Outside) (p : string) : exn + list string :=
  if isdir fs p
  then match listdir fs p with
       | None => inl OSError
       | Some names =>
           inr (map (os_path_join p)
                    (List.filter (fun file => isfile fs (os_path_join p file))
                                 names))
       end
  else match listdir fs (os_path_dirname p) with
       | None => inl OSError
       | Some files => matching_files fs p (os_path_basename p) files
       end.

Definition Load_get_files (self : addr) : M (list string) :=
  let* o := get_feature self in
  match path o with
  | None => raise AttributeError
  | Some p =>
      fun w => match get_files (dataset w) p with
               | inl e => Raise e
               | inr files => Ok (files, w)
               end
  end.

(** The body of [Load.__next__] from the top of its [while True] to the
    [for] loop: a file is chosen among those of [get_files] (of an empty
    list: ValueError), loaded and shuffled.  The choice and the shuffle
    are two calls of the random source. *)
Definition Load_next_file (self : addr) (g : nat) : M unit :=
  let* files := Load_get_files self in
  fun w =>
    let k := np_random_calls w in
    match files !! (np_random_choice (dataset w) k mod length files) with
    | None => Raise ValueError
    | Some file =>
        match np_load (dataset w) file with
        | None => Raise OSError
        | Some image =>
            Ok (tt,
                {| heap := heap w; np_random := np_random w;
                   np_random_calls := S (S k); dataset := dataset w;
                   generators := generators w;
                   buffers := <[g := np_random_shuffle (dataset w) (S k) image]>
                                (buffers w) |})
        end
    end.

(** [next(gen)] for the generator [g] that [self.__next__()] made: its
    body runs on to the next [yield].  Inside the [for] loop that is the
    next item of the array; at its end the [while True] takes another
    file, and again if that array is empty. *)
Fixpoint generator_next (fuel : nat) (self : addr) (g : nat) : M Z :=
  match fuel with
  | O => out_of_fuel
  | S fuel' =>
      fun w =>
        match buffers w !! g, generators w !! g with
        | Some (z :: rest), Some k =>
            Ok (z,
                {| heap := heap w; np_random := np_random w;
                   np_random_calls := np_random_calls w; dataset := dataset w;
                   generators := <[g := S k]> (generators w);
                   buffers := <[g := rest]> (buffers w) |})
        | Some [], Some _ =>
            (Load_next_file self g ;; generator_next fuel' self g) w
        | _, _ => Raise InvalidReference
        end
  end.

(** [Load.__next__(self)]: a generator function, so the call only makes
    the generator object; no file is looked at before the generator is
    asked for an item. *)
Definition Load_next (self : addr) : M rule :=
  let* g := new_generator in ret (Sampled (loaded_images self g)).

(** [Load(path)] *)
Definition Load_init (path_ : string) : M addr :=
  let* self := new_object (blank Load) in
  let* o := get_feature self in
  set_feature self
    {| class := class o; feature := feature o; path := Some path_;
       properties := properties o;
       has_updated_since_last_resolve := has_updated_since_last_resolve o |} ;;
  let* gen := Load_next self in
  Feature_init self [("loaded_image", gen)] ;;
  ret self.

(** [Load.setParent(self, F)] *)
Definition Load_setParent (self : addr) (F : rule) : M unit :=
  raise (Exception
    "The Load class cannot have a parent. For literal addition, use the Add class").

(** A concrete subclass with its own [get] and keyword arguments only. *)
Definition UserFeature_init (get : Image -> snapshot -> option Image)
    (kwargs : dict rule) : M addr :=
  let* self := new_object (blank (UserFeature get)) in
  Feature_init self kwargs ;;
  ret self.

(** [Feature.input_shape(self, shape)] *)
Definition Feature_input_shape {A} (self : addr) (shape : A) : A := shape.

(** *** Operators *)

Definition Feature_add (self : addr) (other : rule) : M addr :=
  FeatureBranch_init (Constant (VFeature self)) other [].

Definition Feature_mul (self : addr) (other : rule) : M addr :=
  FeatureProbability_init (Constant (VFeature self)) other [].

(** [__rmul__ = __mul__] *)
Definition Feature_rmul : addr -> rule -> M addr := Feature_mul.

Definition Feature_pow (self : addr) (other : rule) : M addr :=
  FeatureDuplicate_init self other [].

(** The expression [lhs * rhs].  Python asks the left operand first and
    falls back on the reflected method of the right one: int, float, None,
    functions and lists have no product with a Feature.  A numpy array on
    the left multiplies item by item and makes an array of products, not
    a node; that, and products that no Feature takes part in, are not
    part of this file. *)
Definition mul_expr (lhs rhs : rule) : M addr :=
  match lhs with
  | Constant (VFeature a) => Feature_mul a rhs
  | Constant VNone | Constant (VInt _) | Constant (VFloat _)
  | Constant (VFeatures _) | Sampled _ =>
      match rhs with
      | Constant (VFeature b) => Feature_rmul b lhs
      | _ => raise OutsideFeatures
      end
  | Constant (VArray _) => raise OutsideFeatures
  end.

(** ** [copy.deepcopy]

    Python's deep copy of an instance makes the new object, records it in
    the memo under the identity of the old one, and then copies the
    attributes of [__dict__] one by one.  Numbers and functions are kept
    as they are (a copied lambda is still closed over the objects it was
    made with); a generator cannot be copied. *)

Abbreviation memo := (list (nat * nat)) (only parsing).

Fixpoint memo_get (a : addr) (m : memo) : option addr :=
  match m with
  | [] => None
  | (x, y) :: m' => if Nat.eqb a x then Some y else memo_get a m'
  end.

Fixpoint deepcopy_list (rec : addr -> memo -> M (addr * memo))
    (l : list addr) (m : memo) : M (list addr * memo) :=
  match l with
  | [] => ret ([], m)
  | a :: l' =>
      let* r := rec a m in
      let* rs := deepcopy_list rec l' (snd r) in
      ret (fst r :: fst rs, snd rs)
  end.

Definition deepcopy_value (rec : addr -> memo -> M (addr * memo))
    (v : value) (m : memo) : M (value * memo) :=
  match v with
  | VFeature a => let* r := rec a m in ret (VFeature (fst r), snd r)
  | VFeatures l => let* r := deepcopy_list rec l m in ret (VFeatures (fst r), snd r)
  | _ => ret (v, m)
  end.

Definition deepcopy_rule (rec : addr -> memo -> M (addr * memo))
    (r : rule) (m : memo) : M (rule * memo) :=
  match r with
  | Constant v => let* c := deepcopy_value rec v m in ret (Constant (fst c), snd c)
  | Sampled (loaded_images _ _) => raise TypeError
  | Sampled s => ret (Sampled s, m)
  end.

Fixpoint deepcopy_properties (rec : addr -> memo -> M (addr * memo))
    (d : dict Property) (m : memo) : M (dict Property * memo) :=
  match d with
  | [] => ret ([], m)
  | (k, p) :: d' =>
      let* r := deepcopy_rule rec (sampling_rule p) m in
      let* c := deepcopy_value rec (current_value p) (snd r) in
      let* rest := deepcopy_properties rec d' (snd c) in
      ret ((k, {| sampling_rule := fst r; current_value := fst c |}) :: fst rest,
           snd rest)
  end.

Definition deepcopy_feature_body (rec : addr -> memo -> M (addr * memo))
    (a : addr) (m : memo) : M (addr * memo) :=
  match memo_get a m with
  | Some a' => ret (a', m)
  | None =>
      let* o := get_feature a in
      let* a' := new_object (blank (class o)) in
      let m := (a, a') :: m in
      let* f := match feature o with
                | Some t => let* r := rec t m in ret (Some (fst r), snd r)
                | None => ret (None, m)
                end in
      let* ps := deepcopy_properties rec (properties o) (snd f) in
      set_feature a'
        {| class := class o; feature := fst f; path := path o;
           properties := fst ps;
           has_updated_since_last_resolve := has_updated_since_last_resolve o |} ;;
      ret (a', snd ps)
  end.

Fixpoint deepcopy_feature (fuel : nat) (a : addr) (m : memo) : M (addr * memo) :=
  match fuel with
  | O => out_of_fuel
  | S fuel' => deepcopy_feature_body (deepcopy_feature fuel') a m
  end.

(** [copy.deepcopy(x)] for a Feature [x] *)
Definition copy_deepcopy (fuel : nat) (a : addr) : M addr :=
  let* r := deepcopy_feature fuel a [] in ret (fst r).

(** ** Resampling: [properties.update()] *)

(** The lambda of [FeatureDuplicate.__init__]:
    [[copy.deepcopy(feature).update() for _ in
      range(self.properties["num_duplicates"].current_value)]].
    [update] and [deepcopy] are the calls it makes. *)
Definition FeatureDuplicate_lambda (update : addr -> M addr)
    (deepcopy : addr -> M addr) (self feature_ : addr) : M value :=
  let* o := get_feature self in
  match dict_get "num_duplicates" (properties o) with
  | None => raise KeyError
  | Some p =>
      match current_value p with
      | VInt n =>
          let* l := repeatM (Z.to_nat n)
                      (let* c := deepcopy feature_ in update c) in
          ret (VFeatures l)
      | _ => raise TypeError
      end
  end.

(** Modelled from the spec: what [Property] does with its sampler when it
    resamples ([DeepTrack/properties.py] is missing).  A callable is
    called with no argument (section 4.1); the generator of a Load is
    asked for its next item (section 4.7). *)
Definition run_sampler (update : addr -> M addr) (deepcopy : addr -> M addr)
    (next : addr -> nat -> M Z) (s : sampler) : M value :=
  match s with
  | np_random_rand => let* q := rand in ret (VFloat q)
  | sample_int g => let* q := rand in ret (VInt (g q))
  | sample_float g => let* q := rand in ret (VFloat (g q))
  | duplicate_lambda self feature_ =>
      FeatureDuplicate_lambda update deepcopy self feature_
  | loaded_images self g => let* z := next self g in ret (VArray z)
  end.

(** Modelled from the spec: [Property.resample] of section 4.1, on the
    [i]-th entry of the bag of [owner].  A constant is left alone; a
    sampler is called and its result stored as the current value. *)
Definition Property_update (sample : sampler -> M value) (owner : addr)
    (i : nat) : M unit :=
  let* o := get_feature owner in
  match properties o !! i with
  | None => ret tt
  | Some kp =>
      match sampling_rule (snd kp) with
      | Constant _ => ret tt
      | Sampled s =>
          let* v := sample s in
          let* o' := get_feature owner in
          set_feature owner
            (with_properties o'
               (<[i := (fst kp, {| sampling_rule := Sampled s; current_value := v |})]>
                  (properties o')))
      end
  end.

(** Modelled from the spec: the propagation of section 4.3, "to every
    sub-node reachable through a property whose value is itself a node". *)
Definition Property_propagate (update : addr -> M addr) (owner : addr)
    (i : nat) : M unit :=
  let* o := get_feature owner in
  match properties o !! i with
  | None => ret tt
  | Some kp =>
      match current_value (snd kp) with
      | VFeature b => update b ;; ret tt
      | _ => ret tt
      end
  end.

(** Modelled from the spec: [PropertyDict.update], the [resampleAll] of
    section 4.2 (entries in insertion order) followed by the propagation
    of section 4.3; [Feature.update] makes no other call. *)
Definition PropertyDict_update (sample : sampler -> M value)
    (update : addr -> M addr) (owner : addr) : M unit :=
  let* o := get_feature owner in
  let n := length (properties o) in
  forM_ (seq 0 n) (Property_update sample owner) ;;
  forM_ (seq 0 n) (Property_propagate update owner).

(** [Feature.update(self)], with its calls to other objects left open. *)
Definition Feature_update_body (update : addr -> M addr)
    (deepcopy : addr -> M addr) (next : addr -> nat -> M Z) (self : addr)
    : M addr :=
  let* o := get_feature self in
  (if negb (has_updated_since_last_resolve o)
   then PropertyDict_update (run_sampler update deepcopy next) update self
   else ret tt) ;;
  set_flag self true ;;
  ret self.

Fixpoint Feature_update (fuel : nat) (self : addr) : M addr :=
  match fuel with
  | O => out_of_fuel
  | S fuel' =>
      Feature_update_body (Feature_update fuel') (copy_deepcopy fuel')
                          (generator_next fuel') self
  end.

(** [Feature.sample(self)] *)
Definition Feature_sample (fuel : nat) (self : addr) : M addr :=
  PropertyDict_update
    (run_sampler (Feature_update fuel) (copy_deepcopy fuel)
                 (generator_next fuel))
    (Feature_update fuel) self ;;
  ret self.

(** ** Applying: [get] and [resolve] *)

Definition Qltb (x y : Q) : bool := negb (Qle_bool y x).

Definition number (v : value) : option Q :=
  match v with
  | VInt z => Some (inject_Z z)
  | VFloat q => Some q
  | _ => None
  end.

(** [x < y] on numbers; anything else is a TypeError here. *)
Definition less_than (x y : value) : M bool :=
  match number x, number y with
  | Some a, Some b => ret (Qltb a b)
  | _, _ => raise TypeError
  end.

(** [v.resolve(image)] *)
Definition resolve_value (resolve : addr -> Image -> M Image) (v : value)
    (image : Image) : M Image :=
  match v with
  | VFeature a => resolve a image
  | _ => raise AttributeError
  end.

(** [FeatureBranch.get] *)
Definition FeatureBranch_get (resolve : addr -> Image -> M Image)
    (image : Image) (props : snapshot) : M Image :=
  let* image := resolve_value resolve (kwarg "feature_1" props) image in
  let* image := resolve_value resolve (kwarg "feature_2" props) image in
  ret image.

(** [FeatureProbability.get] *)
Definition FeatureProbability_get (resolve : addr -> Image -> M Image)
    (image : Image) (props : snapshot) : M Image :=
  let* below := less_than (kwarg "random_number" props)
                          (kwarg "probability" props) in
  if (below : bool)
  then resolve_value resolve (kwarg "feature" props) image
  else ret image.

(** [FeatureDuplicate.get] *)
Definition FeatureDuplicate_get (resolve : addr -> Image -> M Image)
    (image : Image) (props : snapshot) : M Image :=
  match kwarg "features" props with
  | VFeatures l => foldM (fun image f => resolve f image) image l
  | _ => raise TypeError
  end.

(** [Load.get].  The scalar cell of an image holds an integer here, so
    the loaded image is an array or an integer. *)
Definition Load_get (image : Image) (props : snapshot) : M Image :=
  match kwarg "loaded_image" props with
  | VArray z | VInt z => ret (Image_add image z)
  | _ => raise TypeError
  end.

(** [self.get(image, **properties)], by the class of [self].  The
    snapshot is handed over name by name, so a property named [image] or
    [self] would make the call itself a TypeError; such property names
    are left out of the model.  What a user [get] makes of its keyword
    arguments, a refusal included, is the function the class carries. *)
Definition Feature_get (resolve : addr -> Image -> M Image)
    (cls : FeatureClass) (image : Image) (props : snapshot) : M Image :=
  match cls with
  | UserFeature get =>
      match get image props with
      | Some image' => ret image'
      | None => raise GetFailed
      end
  | FeatureBranch => FeatureBranch_get resolve image props
  | FeatureProbability => FeatureProbability_get resolve image props
  | FeatureDuplicate => FeatureDuplicate_get resolve image props
  | Load => Load_get image props
  end.

(** [Feature.resolve(self, image)], with its calls to other objects left
    open. *)
Definition Feature_resolve_body (resolve : addr -> Image -> M Image)
    (self : addr) (image : Image) : M Image :=
  let* o := get_feature self in
  let props := current_value_dict (properties o) in
  let* image := Feature_get resolve (class o) image props in
  let image := Image_append image props in
  set_flag self false ;;
  ret image.

Fixpoint Feature_resolve (fuel : nat) (self : addr) (image : Image) : M Image :=
  match fuel with
  | O => out_of_fuel
  | S fuel' => Feature_resolve_body (Feature_resolve fuel') self image
  end.

(** One round: [F.update()] and then [F.resolve(image)]. *)
Definition round (fuel : nat) (self : addr) (image : Image) : M Image :=
  Feature_update fuel self ;; Feature_resolve fuel self image.

(** ** Plain bags

    A bag is plain when its rules are constants or samplers that only
    read the random source, and no value in it refers to another
    Feature.  A resample pass over such a bag is a function of the
    random source alone. *)

Definition plain_value (v : value) : bool :=
  match v with
  | VFeature _ | VFeatures _ => false
  | _ => true
  end.

Definition plain_sampler (s : sampler) : bool :=
  match s with
  | np_random_rand | sample_int _ | sample_float _ => true
  | duplicate_lambda _ _ | loaded_images _ _ => false
  end.

Definition plain_rule (r : rule) : bool :=
  match r with
  | Constant v => plain_value v
  | Sampled s => plain_sampler s
  end.

Definition plain_property (p : Property) : bool :=
  plain_rule (sampling_rule p) && plain_value (current_value p).

Definition plain_properties (d : dict Property) : bool :=
  forallb (fun kp => plain_property (snd kp)) d.

Definition plain_feature (o : Feature) : bool :=
  match feature o with
  | None => plain_properties (properties o)
  | Some _ => false
  end.

(** What a plain sampler makes of the draw [q]. *)
Definition sample_plain (s : sampler) (q : Q) : value :=
  match s with
  | np_random_rand => VFloat q
  | sample_int g => VInt (g q)
  | sample_float g => VFloat (g q)
  | _ => VNone
  end.

(** A resample of one plain property when [k] draws have been made. *)
Definition resample_property (rnd : nat -> Q) (k : nat) (p : Property)
    : Property * nat :=
  match sampling_rule p with
  | Constant _ => (p, k)
  | Sampled s =>
      ({| sampling_rule := Sampled s; current_value := sample_plain s (rnd k) |},
       S k)
  end.

Fixpoint resample_properties (rnd : nat -> Q) (k : nat) (d : dict Property)
    : dict Property * nat :=
  match d with
  | [] => ([], k)
  | kp :: d' =>
      let r := resample_property rnd k (snd kp) in
      let rs := resample_properties rnd (snd r) d' in
      ((fst kp, fst r) :: fst rs, snd rs)
  end.

(** [update()] on an object with a plain bag. *)
Definition update_plain (rnd : nat -> Q) (k : nat) (o : Feature)
    : Feature * nat :=
  if has_updated_since_last_resolve o then (o, k)
  else
    let rs := resample_properties rnd k (properties o) in
    (with_flag (with_properties o (fst rs)) true, snd rs).

(** [n] times [copy.deepcopy(o).update()] for a plain template [o]. *)
Fixpoint replicas_plain (rnd : nat -> Q) (k : nat) (o : Feature) (n : nat)
    : list Feature * nat :=
  match n with
  | O => ([], k)
  | S n' =>
      let r := update_plain rnd k o in
      let rs := replicas_plain rnd (snd r) o n' in
      (fst r :: fst rs, snd rs)
  end.

Definition with_calls (w : World) (k : nat) : World :=
  {| heap := heap w; np_random := np_random w; np_random_calls := k;
     dataset := dataset w; generators := generators w; buffers := buffers w |}.

(** The resolved snapshot of the object at [a], if there is one. *)
Definition snapshot_at (w : World) (a : addr) : option snapshot :=
  match heap w !! a with
  | Some o => Some (current_value_dict (properties o))
  | None => None
  end.

(** The arguments that make sense as a probability: a number or a sampler. *)
Definition is_probability (p : rule) : bool :=
  match p with
  | Constant (VInt _) | Constant (VFloat _) | Sampled _ => true
  | _ => false
  end.

(** What [FeatureProbability(feature, probability)] builds. *)
Definition probability_node (f p : rule) : Feature :=
  {| class := FeatureProbability; feature := None; path := None;
     properties := [("feature", Property_init f);
                    ("probability", Property_init p);
                    ("random_number", Property_init (Sampled np_random_rand))];
     has_updated_since_last_resolve := false |}.

(** What [FeatureDuplicate(feature, num_duplicates, **kwargs)] builds when
    the new object is at address [self]. *)
Definition duplicate_node (self t : addr) (c : rule) (kwargs : dict rule)
    : Feature :=
  {| class := FeatureDuplicate; feature := Some t; path := None;
     properties :=
       ("num_duplicates", Property_init c)
       :: ("features", Property_init (Sampled (duplicate_lambda self t)))
       :: map (fun kv => (fst kv, Property_init (snd kv))) kwargs;
     has_updated_since_last_resolve := false |}.

(** What [FeatureBranch(F1, F2)] builds. *)
Definition branch_node (F1 F2 : rule) : Feature :=
  {| class := FeatureBranch; feature := None; path := None;
     properties := [("feature_1", Property_init F1);
                    ("feature_2", Property_init F2)];
     has_updated_since_last_resolve := false |}.

(** What [Load(path)] builds when the new object is at address [self],
    [g] being its generator. *)
Definition load_node (self : addr) (path_ : string) (g : nat) : Feature :=
  {| class := Load; feature := None; path := Some path_;
     properties :=
       [("loaded_image", Property_init (Sampled (loaded_images self g)))];
     has_updated_since_last_resolve := false |}.

(** A Load at [self], between two rounds, whose generator [g] has yielded
    [k] items. *)
Definition is_Load (w : World) (self : addr) (g k : nat) : Prop :=
  exists o v,
    heap w !! self = Some o /\
    class o = Load /\
    properties o
      = [("loaded_image",
          {| sampling_rule := Sampled (loaded_images self g);
             current_value := v |})] /\
    has_updated_since_last_resolve o = false /\
    generators w !! g = Some k.

(** Two stores in which the generator of the Load at [self] is in the
    same state and sees the same outside. *)
Definition same_stream (self : addr) (w1 w2 : World) : Prop :=
  dataset w1 = dataset w2 /\
  np_random_calls w1 = np_random_calls w2 /\
  generators w1 = generators w2 /\
  buffers w1 = buffers w2 /\
  path <$> heap w1 !! self = path <$> heap w2 !! self.

(** A computation that neither makes nor loses objects. *)
Definition keeps_size {A} (m : M A) : Prop :=
  forall w x w', m w = Ok (x, w') -> length (heap w') = length (heap w).

(** ** What a computation leaves alone

    [hoare P m Q]: when [m] is run in a store where [P] holds and
    returns, [Q] holds of its result and of the store it leaves. *)
Definition hoare {A} (P : World -> Prop) (m : M A) (Q : A -> World -> Prop)
    : Prop :=
  forall w x w', P w -> m w = Ok (x, w') -> Q x w'.

(** A value that refers, if at all, to objects at or above [L]. *)
Definition new_value (L : nat) (v : value) : Prop :=
  match v with
  | VFeature a => L <= a
  | VFeatures l => Forall (fun a => L <= a) l
  | _ => True
  end.

Definition new_properties (L : nat) (d : dict Property) : Prop :=
  Forall (fun kp => new_value L (current_value (snd kp))) d.

Definition new_memo (L : nat) (m : memo) : Prop :=
  Forall (fun xy => L <= snd xy) m.

(** The objects below [L] are those of [h0], as they were; the objects at
    or above [L] hold references to objects at or above [L] only. *)
Definition only_new_above (L : nat) (h0 : list Feature) (w : World) : Prop :=
  L <= length (heap w) /\
  (forall a, a < L -> heap w !! a = h0 !! a) /\
  (forall a o, L <= a -> heap w !! a = Some o -> new_properties L (properties o)).

(** ** What [resolve] and [update] keep *)

(** [m] relates the store it is run in to the store it leaves. *)
Definition respects {A} (R : World -> World -> Prop) (m : M A) : Prop :=
  forall w x w', m w = Ok (x, w') -> R w w'.

(** [o'] is [o], but for a flag that may have been cleared. *)
Definition cleared (o o' : Feature) : Prop :=
  class o' = class o /\ feature o' = feature o /\ path o' = path o /\
  properties o' = properties o /\
  (has_updated_since_last_resolve o' = true ->
   has_updated_since_last_resolve o = true).

(** From [w] to [w'] nothing happened but flags being cleared. *)
Definition only_flags_cleared (w w' : World) : Prop :=
  np_random w' = np_random w /\
  np_random_calls w' = np_random_calls w /\
  dataset w' = dataset w /\
  generators w' = generators w /\
  buffers w' = buffers w /\
  length (heap w') = length (heap w) /\
  forall a o, heap w !! a = Some o ->
              exists o', heap w' !! a = Some o' /\ cleared o o'.

(** The names of a bag with their sampling rules, in order. *)
Definition rules (d : dict Property) : dict rule :=
  map (fun kp => (fst kp, sampling_rule (snd kp))) d.

(** [o'] has the class, the attributes and the bag shape of [o]. *)
Definition same_shape (o o' : Feature) : Prop :=
  class o' = class o /\ feature o' = feature o /\ path o' = path o /\
  rules (properties o') = rules (properties o).

(** [w] comes after [w0]: every object of [w0] is still there with its
    shape, the random source and the generators have only moved on. *)
Definition grows_from (w0 w : World) : Prop :=
  length (heap w0) <= length (heap w) /\
  (forall a o, heap w0 !! a = Some o ->
               exists o', heap w !! a = Some o' /\ same_shape o o') /\
  np_random_calls w0 <= np_random_calls w /\
  np_random w = np_random w0 /\
  dataset w = dataset w0 /\
  (forall g k, generators w0 !! g = Some k ->
               exists k', generators w !! g = Some k' /\ k <= k').

(** The properties of a bag that have a sampler. *)
Fixpoint sampled_count (d : dict Property) : nat :=
  match d with
  | [] => 0
  | kp :: d' =>
      match sampling_rule (snd kp) with
      | Sampled _ => 1
      | Constant _ => 0
      end + sampled_count d'
  end.

(** What [Feature.__init__] builds for a subclass that passes keyword
    arguments only. *)
Definition user_node (get : Image -> snapshot -> option Image)
    (kwargs : dict rule) : Feature :=
  {| class := UserFeature get; feature := None; path := None;
     properties := map (fun kv => (fst kv, Property_init (snd kv))) kwargs;
     has_updated_since_last_resolve := false |}.

(** ** Scenarios *)

(** A node that adds its property [value] to the image. *)
Definition Add_get (image : Image) (props : snapshot) : option Image :=
  match kwarg "value" props with
  | VInt z => Some (Image_add image z)
  | _ => None
  end.

Definition Add (z : rule) : M addr := UserFeature_init Add_get [("value", z)].

Definition empty_world (rnd : nat -> Q) (ds : Outside) : World :=
  {| heap := []; np_random := rnd; np_random_calls := 0; dataset := ds;
     generators := []; buffers := [] |}.

(** A random source and a data set to run the scenarios on: the
    directory data holds two arrays and a subdirectory; a choice takes
    the number of the call as its draw and a shuffle reverses. *)
Definition draws (n : nat) : Q := 1 # Pos.of_nat (n + 2).

Definition images : Outside :=
  {| isdir := fun p => String.eqb p "data" || String.eqb p "data/old";
     isfile := fun p => String.eqb p "data/a.npy" || String.eqb p "data/b.npy";
     listdir := fun p => if String.eqb p "data"
                         then Some ["a.npy"; "b.npy"; "old"]
                         else if String.eqb p "data/old" then Some []
                         else None;
     re_match := fun pattern name => Some (String.prefix pattern name);
     np_load := fun file => if String.eqb file "data/a.npy"
                            then Some [0; 1; 2]%Z
                            else if String.eqb file "data/b.npy"
                            then Some [10; 11]%Z
                            else None;
     np_random_choice := fun k => k;
     np_random_shuffle := fun _ l => rev l |}.

(** What is looked at in the outcome of a scenario: the result, and per
    object its flag and its resolved snapshot, the number of calls of the
    random source and the state of the generators. *)
Definition observe {A} (r : result (A * World))
    : option (A * list (bool * snapshot) * nat * list nat) :=
  match r with
  | Ok (x, w) =>
      Some (x,
            map (fun o => (has_updated_since_last_resolve o,
                           current_value_dict (properties o))) (heap w),
            np_random_calls w, generators w)
  | _ => None
  end.

(** Scenario 1 of section 8: [A + B] on the image 0. *)
Definition sequence_scenario : result (Image * World) :=
  (let* a := Add (Constant (VInt 1)) in
   let* b := Add (Constant (VInt 2)) in
   let* s := Feature_add a (Constant (VFeature b)) in
   round 3 s (mkImage 0 [])) (empty_world draws images).

(** Scenario 2 of section 8: [AddOne ** 0] on the image 5. *)
Definition duplicate_zero_scenario : result (Image * World) :=
  (let* a := Add (Constant (VInt 1)) in
   let* d := Feature_pow a (Constant (VInt 0)) in
   round 3 d (mkImage 5 [])) (empty_world draws images).

(** A template with a sampled property, duplicated three times. *)
Definition sampled_value : rule :=
  Sampled (sample_int (fun q => Z.pos (Qden q))).

Definition duplicate_scenario : result (addr * World) :=
  (let* a := Add sampled_value in
   let* d := Feature_pow a (Constant (VInt 3)) in
   Feature_update 3 d) (empty_world draws images).

(** The same, the template having been updated before. *)
Definition duplicate_updated_template_scenario : result (addr * World) :=
  (let* a := Add sampled_value in
   Feature_update 3 a ;;
   let* d := Feature_pow a (Constant (VInt 3)) in
   Feature_update 3 d) (empty_world draws images).

(** A FeatureDuplicate as the template of another: [D = A ** count] has
    a round of its own, then [E = D ** 1] is updated.  The update of [E]
    deep-copies [D] and updates the copy. *)
Definition nested_duplicate_scenario : result (addr * World) :=
  (let* a := Add (Constant (VInt 1)) in
   let* d := Feature_pow a sampled_value in
   round 3 d (mkImage 0 []) ;;
   let* e := Feature_pow d (Constant (VInt 1)) in
   Feature_update 4 e) (empty_world draws images).

(** The same with a count that is drawn as 1 and then as 0, and a round
    of [E] on the image 5. *)
Definition shrinking_count : rule :=
  Sampled (sample_int (fun q => (3 - Z.pos (Qden q))%Z)).

Definition copied_zero_scenario : result (Image * World) :=
  (let* a := Add (Constant (VInt 1)) in
   let* d := Feature_pow a shrinking_count in
   round 3 d (mkImage 0 []) ;;
   let* e := Feature_pow d (Constant (VInt 1)) in
   round 4 e (mkImage 5 [])) (empty_world draws images).

(** The sampling rules of the object at [a]. *)
Definition rules_at (w : World) (a : addr) : option (dict rule) :=
  match heap w !! a with
  | Some o => Some (rules (properties o))
  | None => None
  end.

(** A Load as the right operand of [+]. *)
Definition load_after_scenario : result (Image * World) :=
  (let* a := Add (Constant (VInt 1)) in
   let* l := Load_init "data" in
   let* s := Feature_add a (Constant (VFeature l)) in
   round 4 s (mkImage 0 [])) (empty_world draws images).

(** [A + A ** 3]: the template is also the left operand of the sequence. *)
Definition shared_template_scenario : result (addr * World) :=
  (let* a := Add sampled_value in
   let* d := Feature_pow a (Constant (VInt 3)) in
   let* s := Feature_add a (Constant (VFeature d)) in
   Feature_update 4 s) (empty_world draws images).

(** [A + A]: one node reached twice by the update of the sequence. *)
Definition shared_node_scenario : result (addr * World) :=
  (let* a := Add sampled_value in
   let* s := Feature_add a (Constant (VFeature a)) in
   Feature_update 3 s) (empty_world draws images).

(** A store to try single calls on: a node with a sampled value at 0, a
    FeatureDuplicate of it at 1 that holds a count and a list from an
    earlier round, a node that adds one at 2, a FeatureDuplicate with no
    duplicates at 3 and a Load at 4 whose generator has yielded four
    items of an array of six. *)
Definition template_example : Feature :=
  {| class := UserFeature Add_get; feature := None; path := None;
     properties := [("value", Property_init sampled_value)];
     has_updated_since_last_resolve := false |}.

Definition duplicate_example : Feature :=
  {| class := FeatureDuplicate; feature := Some 0; path := None;
     properties :=
       [("num_duplicates",
         {| sampling_rule := sampled_value; current_value := VInt 7 |});
        ("features",
         {| sampling_rule := Sampled (duplicate_lambda 1 0);
            current_value := VFeatures [] |})];
     has_updated_since_last_resolve := false |}.

Definition add_one_example : Feature :=
  {| class := UserFeature Add_get; feature := None; path := None;
     properties := [("value", Property_init (Constant (VInt 1)))];
     has_updated_since_last_resolve := true |}.

Definition example_world : World :=
  {| heap := [template_example; duplicate_example; add_one_example;
              duplicate_node 3 2 (Constant (VInt 0)) [];
              with_properties (load_node 4 "data" 0)
                [("loaded_image",
                  {| sampling_rule := Sampled (loaded_images 4 0);
                     current_value := VArray 3 |})]];
     np_random := draws; np_random_calls := 0; dataset := images;
     generators := [4]; buffers := [[4; 5]%Z] |}.

Definition example_snapshot : snapshot :=
  [("feature", VFeature 2); ("probability", VFloat (1 # 2));
   ("random_number", VFloat (1 # 4))].

(** A second store, for the operators: a node that adds one and has been
    updated at 0, a FeatureProbability over it at 1 that keeps the draw
    of an earlier round, a node with a sampled value at 2 and the sequence
    of that node with itself at 3, at 4 a node with a sampled value whose
    flag is set, and at 5 a new FeatureProbability over the node at 2.
    One draw has been made. *)
Definition probability_example : Feature :=
  {| class := FeatureProbability; feature := None; path := None;
     properties :=
       [("feature", Property_init (Constant (VFeature 0)));
        ("probability", Property_init (Constant (VFloat (1 # 2))));
        ("random_number",
         {| sampling_rule := Sampled np_random_rand;
            current_value := VFloat (3 # 4) |})];
     has_updated_since_last_resolve := false |}.

Definition operators_world : World :=
  {| heap := [add_one_example; probability_example; template_example;
              branch_node (Constant (VFeature 2)) (Constant (VFeature 2));
              with_flag template_example true;
              probability_node (Constant (VFeature 2))
                               (Constant (VFloat (1 # 2)))];
     np_random := draws; np_random_calls := 1; dataset := images;
     generators := []; buffers := [] |}.

(** Keyword arguments under names that the constructors pass themselves. *)
Definition reserved_kwargs : dict rule :=
  [("feature_2", Constant VNone); ("random_number", Constant VNone);
   ("features", Constant VNone)].


(** * Properties *)

(** ** Computations that return *)

Lemma bind_Ok {A B} (m : M A) (k : A -> M B) w x w' :
  m w = Ok (x, w') -> bind m k w = k x w'.
Proof. intros H. unfold bind. now rewrite H. Qed.

Lemma bind_inv {A B} (m : M A) (k : A -> M B) w r :
  bind m k w = Ok r -> exists x w', m w = Ok (x, w') /\ k x w' = Ok r.
Proof.
  unfold bind. destruct (m w) as [[x w']| |]; try discriminate.
  intros H. now exists x, w'.
Qed.

Lemma bind_assoc {A B C} (m : M A) (f : A -> M B) (g : B -> M C) w :
  bind (bind m f) g w = bind m (fun x => bind (f x) g) w.
Proof. unfold bind. now destruct (m w) as [[x w']| |]. Qed.

Lemma ret_inv {A} (x y : A) w w' : ret x w = Ok (y, w') -> y = x /\ w' = w.
Proof. unfold ret. intros H. now inversion H. Qed.

Lemma with_heap_id w : with_heap w (heap w) = w.
Proof. now destruct w. Qed.

Lemma with_heap_heap w h : heap (with_heap w h) = h.
Proof. reflexivity. Qed.

Lemma with_heap_twice w h h' : with_heap (with_heap w h) h' = with_heap w h'.
Proof. reflexivity. Qed.

Lemma with_flag_id o :
  with_flag o (has_updated_since_last_resolve o) = o.
Proof. now destruct o. Qed.

Lemma with_flag_twice o b b' : with_flag (with_flag o b) b' = with_flag o b'.
Proof. reflexivity. Qed.

Lemma with_properties_id o : with_properties o (properties o) = o.
Proof. now destruct o. Qed.

Lemma get_feature_Ok a w o : heap w !! a = Some o -> get_feature a w = Ok (o, w).
Proof. intros H. unfold get_feature. now rewrite H. Qed.

Lemma get_feature_inv a w o w' :
  get_feature a w = Ok (o, w') -> heap w !! a = Some o /\ w' = w.
Proof.
  unfold get_feature. destruct (heap w !! a); try discriminate.
  intros H. now inversion H.
Qed.

Lemma set_flag_Ok a b w o :
  heap w !! a = Some o ->
  set_flag a b w = Ok (tt, with_heap w (<[a := with_flag o b]> (heap w))).
Proof.
  intros H. unfold set_flag. now rewrite (bind_Ok _ _ _ _ _ (get_feature_Ok _ _ _ H)).
Qed.

Lemma set_flag_inv a b w u w' :
  set_flag a b w = Ok (u, w') ->
  exists o, heap w !! a = Some o /\
            w' = with_heap w (<[a := with_flag o b]> (heap w)).
Proof.
  intros H. apply bind_inv in H as (o & w1 & Hg & Hs).
  apply get_feature_inv in Hg as [Hg ->].
  exists o. split; [assumption|]. unfold set_feature in Hs. now inversion Hs.
Qed.

Lemma lookup_set_flag (h : list Feature) a o b :
  h !! a = Some o -> <[a := with_flag o b]> h !! a = Some (with_flag o b).
Proof.
  intros H. apply list_lookup_insert_eq. now apply lookup_lt_Some in H.
Qed.

(** ** The gate of [update] *)

(** An update that finds the flag set touches nothing. *)
Lemma Feature_update_clean fuel self w o :
  heap w !! self = Some o ->
  has_updated_since_last_resolve o = true ->
  Feature_update (S fuel) self w = Ok (self, w).
Proof.
  intros Ho Hf. cbn [Feature_update]. unfold Feature_update_body.
  rewrite (bind_Ok _ _ _ _ _ (get_feature_Ok _ _ _ Ho)). rewrite Hf. cbn [negb].
  unfold bind at 1. unfold ret at 1.
  rewrite (bind_Ok _ _ _ _ _ (set_flag_Ok _ true _ _ Ho)).
  unfold ret. rewrite <- Hf, with_flag_id, list_insert_id by assumption.
  now rewrite with_heap_id.
Qed.

(** After an update that returned, the flag is set. *)
Lemma Feature_update_sets_flag fuel self w r w' :
  Feature_update fuel self w = Ok (r, w') ->
  r = self /\
  exists o, heap w' !! self = Some o /\ has_updated_since_last_resolve o = true.
Proof.
  destruct fuel as [|fuel]; [discriminate|].
  cbn [Feature_update]. unfold Feature_update_body. intros H.
  apply bind_inv in H as (o & w1 & _ & H).
  apply bind_inv in H as (u & w2 & _ & H).
  apply bind_inv in H as (u' & w3 & Hs & H).
  apply ret_inv in H as [-> ->].
  apply set_flag_inv in Hs as (o2 & Ho2 & ->).
  split; [reflexivity|]. exists (with_flag o2 true).
  split; [|reflexivity]. rewrite with_heap_heap. now apply lookup_set_flag.
Qed.

(** C2. Calling update() a second time with no resolve() in between
    changes nothing: the second call returns, and leaves every object,
    the random source and the generators as the first call left them, so
    the resolved snapshot of the node is the one of a single update. *)
Theorem update_twice_is_update_once fuel fuel' self w r w' :
  Feature_update fuel self w = Ok (r, w') ->
  Feature_update (S fuel') self w' = Ok (r, w') /\
  (Feature_update fuel self ;; Feature_update (S fuel') self) w
    = Feature_update fuel self w.
Proof.
  intros H. pose proof (Feature_update_sets_flag _ _ _ _ _ H) as (-> & o & Ho & Hf).
  pose proof (Feature_update_clean fuel' _ _ _ Ho Hf) as H2.
  split; [assumption|]. rewrite (bind_Ok _ _ _ _ _ H). now rewrite H.
Qed.

(** In [A + A] the update of the sequence reaches A twice and resamples
    it once: one call of the random source. *)
Example shared_node_is_resampled_once :
  observe shared_node_scenario
  = Some (1,
          [(true, [("value", VInt 2)]);
           (true, [("feature_1", VFeature 0); ("feature_2", VFeature 0)])],
          1, []).
Proof. vm_compute. reflexivity. Qed.

(** ** [resolve] *)

Lemma keeps_size_ret {A} (x : A) : keeps_size (ret x).
Proof. intros w y w' H. now apply ret_inv in H as [_ ->]. Qed.

Lemma keeps_size_raise {A} e : keeps_size (@raise A e).
Proof. intros w y w' H. discriminate. Qed.

Lemma keeps_size_bind {A B} (m : M A) (k : A -> M B) :
  keeps_size m -> (forall x, keeps_size (k x)) -> keeps_size (bind m k).
Proof.
  intros Hm Hk w y w' H. apply bind_inv in H as (x & w1 & H1 & H2).
  rewrite (Hk _ _ _ _ H2). now apply (Hm _ _ _ H1).
Qed.

Lemma keeps_size_get_feature a : keeps_size (get_feature a).
Proof. intros w o w' H. now apply get_feature_inv in H as [_ ->]. Qed.

Lemma keeps_size_set_flag a b : keeps_size (set_flag a b).
Proof.
  intros w u w' H. apply set_flag_inv in H as (o & _ & ->).
  rewrite with_heap_heap. apply length_insert.
Qed.

Lemma keeps_size_foldM {A B} (f : B -> A -> M B) l :
  (forall b x, keeps_size (f b x)) -> forall b, keeps_size (foldM f b l).
Proof.
  intros Hf. induction l as [|x l IH]; intros b; cbn [foldM].
  - apply keeps_size_ret.
  - apply keeps_size_bind; [apply Hf | intros b'; apply IH].
Qed.

Lemma keeps_size_resolve_value resolve v image :
  (forall a i, keeps_size (resolve a i)) ->
  keeps_size (resolve_value resolve v image).
Proof.
  intros H. destruct v; cbn [resolve_value];
    first [apply H | apply keeps_size_raise].
Qed.

Lemma keeps_size_Feature_get resolve cls image props :
  (forall a i, keeps_size (resolve a i)) ->
  keeps_size (Feature_get resolve cls image props).
Proof.
  intros H. destruct cls as [g| | | |]; cbn [Feature_get].
  - destruct (g image props); [apply keeps_size_ret | apply keeps_size_raise].
  - unfold FeatureBranch_get.
    apply keeps_size_bind; [now apply keeps_size_resolve_value|]. intros i1.
    apply keeps_size_bind; [now apply keeps_size_resolve_value|]. intros i2.
    apply keeps_size_ret.
  - unfold FeatureProbability_get. apply keeps_size_bind.
    + unfold less_than.
      destruct (number _); [|apply keeps_size_raise].
      destruct (number _); [apply keeps_size_ret | apply keeps_size_raise].
    + intros [|]; [now apply keeps_size_resolve_value | apply keeps_size_ret].
  - unfold FeatureDuplicate_get.
    destruct (kwarg "features" props); try apply keeps_size_raise.
    apply keeps_size_foldM. intros b x. apply H.
  - unfold Load_get.
    destruct (kwarg "loaded_image" props);
      first [apply keeps_size_ret | apply keeps_size_raise].
Qed.

Lemma keeps_size_Feature_resolve fuel :
  forall a i, keeps_size (Feature_resolve fuel a i).
Proof.
  induction fuel as [|fuel IH]; intros a i.
  - intros w x w' H. discriminate.
  - cbn [Feature_resolve]. unfold Feature_resolve_body.
    apply keeps_size_bind; [apply keeps_size_get_feature|]. intros o.
    apply keeps_size_bind; [now apply keeps_size_Feature_get|]. intros i'.
    apply keeps_size_bind; [apply keeps_size_set_flag|]. intros u.
    apply keeps_size_ret.
Qed.

(** Whenever get returns, resolve returns: with the image of get and
    the snapshot appended, the flag of the node cleared. *)
Lemma Feature_resolve_Ok fuel self image w o image' w' :
  heap w !! self = Some o ->
  Feature_get (Feature_resolve fuel) (class o) image
    (current_value_dict (properties o)) w = Ok (image', w') ->
  exists o',
    heap w' !! self = Some o' /\
    Feature_resolve (S fuel) self image w
      = Ok (Image_append image' (current_value_dict (properties o)),
            with_heap w' (<[self := with_flag o' false]> (heap w'))).
Proof.
  intros Ho Hget.
  assert (Hlen : length (heap w') = length (heap w)).
  { eapply keeps_size_Feature_get; [|exact Hget].
    apply keeps_size_Feature_resolve. }
  destruct (heap w' !! self) as [o'|] eqn:Ho'.
  2:{ apply lookup_ge_None in Ho'. apply lookup_lt_Some in Ho. lia. }
  exists o'. split; [reflexivity|].
  cbn [Feature_resolve]. unfold Feature_resolve_body.
  rewrite (bind_Ok _ _ _ _ _ (get_feature_Ok _ _ _ Ho)).
  rewrite (bind_Ok _ _ _ _ _ Hget).
  now rewrite (bind_Ok _ _ _ _ _ (set_flag_Ok _ false _ _ Ho')).
Qed.

(** C3. resolve(image) reads the current values of the properties,
    whatever the flag says, hands them to get, appends that snapshot to
    the image get returned, clears the flag of the node and returns the
    image: whenever get returns, so does resolve, with this outcome. *)
Theorem resolve_applies_appends_and_clears fuel self image w o image' w' :
  heap w !! self = Some o ->
  Feature_get (Feature_resolve fuel) (class o) image
    (current_value_dict (properties o)) w = Ok (image', w') ->
  exists o',
    heap w' !! self = Some o' /\
    Feature_resolve (S fuel) self image w
      = Ok (Image_append image' (current_value_dict (properties o)),
            with_heap w' (<[self := with_flag o' false]> (heap w'))) /\
    snapshot_at w self = Some (current_value_dict (properties o)) /\
    last (image_properties
            (Image_append image' (current_value_dict (properties o))))
      = Some (current_value_dict (properties o)) /\
    snapshot_at (with_heap w' (<[self := with_flag o' false]> (heap w'))) self
      = snapshot_at w' self /\
    (forall o'', heap (with_heap w' (<[self := with_flag o' false]> (heap w')))
                   !! self = Some o'' ->
                 has_updated_since_last_resolve o'' = false).
Proof.
  intros Ho Hget.
  destruct (Feature_resolve_Ok fuel self image w o image' w' Ho Hget)
    as (o' & Ho' & Hr).
  assert (Hlook : heap (with_heap w' (<[self := with_flag o' false]> (heap w')))
                    !! self = Some (with_flag o' false)).
  { rewrite with_heap_heap. now apply lookup_set_flag. }
  exists o'. split; [exact Ho'|]. split; [exact Hr|]. split; [|split; [|split]].
  - unfold snapshot_at. now rewrite Ho.
  - cbn [Image_append image_properties]. apply last_snoc.
  - unfold snapshot_at. now rewrite Hlook, Ho'.
  - intros o'' Ho''. rewrite Hlook in Ho''. now inversion Ho''; subst.
Qed.

(** ** [FeatureProbability] *)

Lemma Qltb_lt a b : Qltb a b = true <-> (a < b)%Q.
Proof.
  unfold Qltb. rewrite negb_true_iff. split.
  - intros H. apply Qnot_le_lt. intros Hle.
    apply Qle_bool_iff in Hle. congruence.
  - intros H. destruct (Qle_bool b a) eqn:E; [|reflexivity].
    apply Qle_bool_iff in E. apply Qle_not_lt in E. contradiction.
Qed.

Lemma Qltb_ge a b : Qltb a b = false <-> ~ (a < b)%Q.
Proof.
  rewrite <- Qltb_lt. destruct (Qltb a b); split; intros H;
    try reflexivity; try discriminate; try (intros H'; discriminate).
  now elim H.
Qed.

Lemma FeatureProbability_get_test resolve image props f p rn w :
  kwarg "feature" props = VFeature f ->
  number (kwarg "probability" props) = Some p ->
  kwarg "random_number" props = VFloat rn ->
  FeatureProbability_get resolve image props w
    = if Qltb rn p then resolve f image w else Ok (image, w).
Proof.
  intros Hf Hp Hr. unfold FeatureProbability_get, less_than.
  rewrite Hr, Hp, Hf. cbn [number]. unfold bind, ret.
  now destruct (Qltb rn p).
Qed.

(** C5. FeatureProbability.get returns feature.resolve(image) when the
    drawn number is below the probability and the image itself when it
    is not; a draw of [0,1) is never below 0 and always below 1. *)
Theorem probability_get_threshold resolve image props f p rn :
  kwarg "feature" props = VFeature f ->
  number (kwarg "probability" props) = Some p ->
  kwarg "random_number" props = VFloat rn ->
  (0 <= rn)%Q -> (rn < 1)%Q ->
  ((rn < p)%Q ->
     forall w, Feature_get resolve FeatureProbability image props w
               = resolve f image w) /\
  (~ (rn < p)%Q ->
     forall w, Feature_get resolve FeatureProbability image props w
               = Ok (image, w)) /\
  (Qeq p 0 ->
     forall w, Feature_get resolve FeatureProbability image props w
               = Ok (image, w)) /\
  (Qeq p 1 ->
     forall w, Feature_get resolve FeatureProbability image props w
               = resolve f image w).
Proof.
  intros Hf Hp Hr H0 H1. cbn [Feature_get].
  assert (Hyes : (rn < p)%Q ->
     forall w, FeatureProbability_get resolve image props w = resolve f image w).
  { intros Hlt w. rewrite (FeatureProbability_get_test _ _ _ _ _ _ _ Hf Hp Hr).
    apply Qltb_lt in Hlt. now rewrite Hlt. }
  assert (Hno : ~ (rn < p)%Q ->
     forall w, FeatureProbability_get resolve image props w = Ok (image, w)).
  { intros Hge w. rewrite (FeatureProbability_get_test _ _ _ _ _ _ _ Hf Hp Hr).
    apply Qltb_ge in Hge. now rewrite Hge. }
  repeat split; try assumption.
  - intros Hz. apply Hno. rewrite Hz. now apply Qle_not_lt.
  - intros Hz. apply Hyes. now rewrite Hz.
Qed.

(** After a resample the draw of a FeatureProbability is the next output
    of the random source. *)
Lemma random_number_is_fresh update deepcopy next w :
  run_sampler update deepcopy next np_random_rand w
    = Ok (VFloat (np_random w (np_random_calls w)),
          with_calls w (S (np_random_calls w))).
Proof. reflexivity. Qed.

(** ** [FeatureDuplicate] with no duplicates *)

(** The two halves of the edge case, each on its own.  When the lambda
    reads a count of 0 in the node it is closed over, it returns the empty
    list without touching anything; and get on an empty list returns the
    image it was given. *)
Lemma duplicate_zero_is_identity update deepcopy next self t o p w :
  heap w !! self = Some o ->
  dict_get "num_duplicates" (properties o) = Some p ->
  current_value p = VInt 0 ->
  run_sampler update deepcopy next (duplicate_lambda self t) w
    = Ok (VFeatures [], w) /\
  forall resolve image props w',
    kwarg "features" props = VFeatures [] ->
    Feature_get resolve FeatureDuplicate image props w' = Ok (image, w').
Proof.
  intros Ho Hp Hv. split.
  - cbn [run_sampler]. unfold FeatureDuplicate_lambda.
    rewrite (bind_Ok _ _ _ _ _ (get_feature_Ok _ _ _ Ho)).
    now rewrite Hp, Hv.
  - intros resolve image props w' Hl.
    cbn [Feature_get]. unfold FeatureDuplicate_get. now rewrite Hl.
Qed.

(** Scenario 2 of section 8, run in full. *)
Example duplicate_zero_scenario_runs :
  observe duplicate_zero_scenario
  = Some ({| data := 5;
             image_properties :=
               [[("num_duplicates", VInt 0); ("features", VFeatures [])]] |},
          [(false, [("value", VInt 1)]);
           (false, [("num_duplicates", VInt 0); ("features", VFeatures [])])],
          0, []).
Proof. vm_compute. reflexivity. Qed.

(** ** Construction *)

Lemma lookup_fresh (h : list Feature) o : (h ++ [o]) !! length h = Some o.
Proof. now rewrite list_lookup_middle. Qed.

Lemma insert_fresh (h : list Feature) o o' :
  <[length h := o']> (h ++ [o]) = h ++ [o'].
Proof.
  rewrite insert_app_r_alt by lia. now rewrite Nat.sub_diag.
Qed.

Lemma new_object_Ok o w :
  new_object o w = Ok (length (heap w), with_heap w (heap w ++ [o])).
Proof. reflexivity. Qed.

Lemma Feature_init_fresh w o kwargs :
  Feature_init (length (heap w)) kwargs (with_heap w (heap w ++ [o]))
  = Ok (tt, with_heap w
              (heap w ++
               [with_flag
                  (with_properties o
                     (fold_left
                        (fun d kv => dict_set (fst kv) (Property_init (snd kv)) d)
                        kwargs (properties o)))
                  false])).
Proof.
  unfold Feature_init.
  rewrite (bind_Ok _ _ _ _ _
             (get_feature_Ok _ (with_heap w (heap w ++ [o])) _ (lookup_fresh _ _))).
  unfold set_feature. rewrite with_heap_heap, insert_fresh. reflexivity.
Qed.

Lemma FeatureProbability_init_Ok f p w :
  FeatureProbability_init f p [] w
  = Ok (length (heap w), with_heap w (heap w ++ [probability_node f p])).
Proof.
  unfold FeatureProbability_init.
  rewrite (bind_Ok _ _ _ _ _ (new_object_Ok _ _)).
  unfold keywords. cbn [dict_keys map forallb]. unfold bind at 1, ret at 1.
  rewrite (bind_Ok _ _ _ _ _ (Feature_init_fresh _ _ _)).
  reflexivity.
Qed.

(** C10. For a feature F and a probability p (a number or a sampler)
    the expressions F * p and p * F build the same node: a
    FeatureProbability whose bag holds F, p and a fresh-draw property. *)
Theorem mul_commutes F p :
  is_probability p = true ->
  forall w,
    mul_expr (Constant (VFeature F)) p w = mul_expr p (Constant (VFeature F)) w /\
    mul_expr p (Constant (VFeature F)) w
    = Ok (length (heap w),
          with_heap w (heap w ++ [probability_node (Constant (VFeature F)) p])).
Proof.
  intros Hp w.
  assert (H : mul_expr p (Constant (VFeature F)) w
              = FeatureProbability_init (Constant (VFeature F)) p [] w).
  { destruct p as [[]|]; try discriminate; reflexivity. }
  split.
  - now rewrite H.
  - rewrite H. apply FeatureProbability_init_Ok.
Qed.

(** ** Resampling a plain bag *)

Lemma with_calls_id w : with_calls w (np_random_calls w) = w.
Proof. now destruct w. Qed.

Lemma run_sampler_plain update deepcopy next s w :
  plain_sampler s = true ->
  run_sampler update deepcopy next s w
  = Ok (sample_plain s (np_random w (np_random_calls w)),
        with_calls w (S (np_random_calls w))).
Proof. destruct s; try discriminate; reflexivity. Qed.

Lemma plain_rule_of_property p :
  plain_property p = true -> plain_rule (sampling_rule p) = true.
Proof. unfold plain_property. now intros [H _]%andb_true_iff. Qed.

Lemma Property_update_plain update deepcopy next a i w o kp :
  heap w !! a = Some o ->
  properties o !! i = Some kp ->
  plain_rule (sampling_rule (snd kp)) = true ->
  let r := resample_property (np_random w) (np_random_calls w) (snd kp) in
  Property_update (run_sampler update deepcopy next) a i w
  = Ok (tt, with_calls
              (with_heap w
                 (<[a := with_properties o (<[i := (fst kp, fst r)]> (properties o))]>
                    (heap w)))
              (snd r)).
Proof.
  intros Ho Hi Hp r. subst r. unfold Property_update, resample_property.
  rewrite (bind_Ok _ _ _ _ _ (get_feature_Ok _ _ _ Ho)). rewrite Hi.
  destruct kp as [name p]. cbn [fst snd] in *.
  destruct (sampling_rule p) as [v|s] eqn:Hr; cbn [fst snd].
  - unfold ret. rewrite (list_insert_id _ _ _ Hi), with_properties_id.
    rewrite (list_insert_id _ _ _ Ho).
    now rewrite with_heap_id, with_calls_id.
  - cbn [plain_rule] in Hp.
    rewrite (bind_Ok _ _ _ _ _ (run_sampler_plain _ _ _ _ _ Hp)).
    rewrite (bind_Ok _ _ _ _ _
               (get_feature_Ok _ (with_calls w (S (np_random_calls w))) _ Ho)).
    reflexivity.
Qed.

Lemma resample_loop update deepcopy next a :
  forall post pre o w,
    heap w !! a = Some o ->
    properties o = pre ++ post ->
    plain_properties post = true ->
    let rs := resample_properties (np_random w) (np_random_calls w) post in
    forM_ (seq (length pre) (length post))
          (Property_update (run_sampler update deepcopy next) a) w
    = Ok (tt, with_calls
                (with_heap w
                   (<[a := with_properties o (pre ++ fst rs)]> (heap w)))
                (snd rs)).
Proof.
  induction post as [|[name p] post IH]; intros pre o w Ho Hprops Hplain rs;
    subst rs.
  - cbn. unfold ret. rewrite app_nil_r in *. subst pre.
    rewrite with_properties_id, list_insert_id by assumption.
    now rewrite with_heap_id, with_calls_id.
  - cbn [length seq forM_ resample_properties fst snd].
    cbn [plain_properties forallb snd] in Hplain.
    apply andb_true_iff in Hplain as [Hp Hplain].
    assert (Hi : properties o !! length pre = Some (name, p)).
    { rewrite Hprops. apply list_lookup_middle. reflexivity. }
    rewrite (bind_Ok _ _ _ _ _
               (Property_update_plain update deepcopy next _ _ _ _ _ Ho Hi
                  (plain_rule_of_property _ Hp))).
    cbn [fst snd].
    set (r := resample_property (np_random w) (np_random_calls w) p).
    assert (Hins : <[length pre := (name, fst r)]> (properties o)
                   = (pre ++ [(name, fst r)]) ++ post).
    { rewrite Hprops, insert_app_r_alt, Nat.sub_diag by lia.
      cbn. now rewrite <- app_assoc. }
    rewrite Hins.
    set (o1 := with_properties o ((pre ++ [(name, fst r)]) ++ post)).
    set (w1 := with_calls (with_heap w (<[a := o1]> (heap w))) (snd r)).
    assert (Ho1 : heap w1 !! a = Some o1).
    { subst w1. cbn. apply list_lookup_insert_eq. now apply lookup_lt_Some in Ho. }
    specialize (IH (pre ++ [(name, fst r)]) o1 w1 Ho1 eq_refl Hplain).
    rewrite length_app in IH. cbn [length] in IH. rewrite Nat.add_1_r in IH.
    cbn zeta in IH. rewrite IH. subst w1 o1. cbn.
    rewrite list_insert_insert_eq, <- !app_assoc. reflexivity.
Qed.

Lemma plain_value_not_feature v b : plain_value v = true -> v <> VFeature b.
Proof. intros H ->. discriminate. Qed.

Lemma sample_plain_is_plain s q :
  plain_sampler s = true -> plain_value (sample_plain s q) = true.
Proof. now destruct s. Qed.

Lemma resample_property_plain rnd k p :
  plain_property p = true ->
  plain_property (fst (resample_property rnd k p)) = true.
Proof.
  unfold plain_property, resample_property. intros [Hr Hv]%andb_true_iff.
  destruct (sampling_rule p) as [v|s] eqn:E; cbn [fst sampling_rule current_value].
  - now rewrite E, Hr, Hv.
  - cbn [plain_rule] in *. now rewrite Hr, sample_plain_is_plain.
Qed.

Lemma resample_properties_plain rnd d :
  forall k, plain_properties d = true ->
            plain_properties (fst (resample_properties rnd k d)) = true.
Proof.
  induction d as [|[name p] d IH]; intros k H; [reflexivity|].
  cbn [plain_properties forallb snd] in H.
  apply andb_true_iff in H as [Hp Hd].
  cbn [resample_properties fst snd plain_properties forallb].
  rewrite resample_property_plain by assumption. now apply IH.
Qed.

Lemma resample_properties_keys rnd d :
  forall k, dict_keys (fst (resample_properties rnd k d)) = dict_keys d.
Proof.
  induction d as [|[name p] d IH]; intros k; [reflexivity|].
  unfold dict_keys in *. cbn [resample_properties fst snd map]. now rewrite IH.
Qed.

Lemma plain_properties_lookup d i kp :
  plain_properties d = true -> d !! i = Some kp ->
  plain_property (snd kp) = true.
Proof.
  unfold plain_properties. rewrite forallb_forall. intros H Hi.
  apply H. apply list_elem_of_In. now apply list_elem_of_lookup_2 in Hi.
Qed.

(** Nothing is propagated from a bag none of whose values is a Feature. *)
Lemma propagate_nothing update a w o :
  heap w !! a = Some o ->
  (forall i kp b, properties o !! i = Some kp ->
                  current_value (snd kp) <> VFeature b) ->
  forall l, forM_ l (Property_propagate update a) w = Ok (tt, w).
Proof.
  intros Ho Hnone. induction l as [|i l IH]; [reflexivity|].
  cbn [forM_].
  assert (H : Property_propagate update a i w = Ok (tt, w)).
  { unfold Property_propagate.
    rewrite (bind_Ok _ _ _ _ _ (get_feature_Ok _ _ _ Ho)).
    destruct (properties o !! i) as [kp|] eqn:Hi; [|reflexivity].
    specialize (Hnone i kp).
    destruct (current_value (snd kp)); try reflexivity.
    now elim (Hnone a0). }
  now rewrite (bind_Ok _ _ _ _ _ H).
Qed.

(** [update()] on an object with a plain bag. *)
Lemma Feature_update_plain fuel c w o :
  heap w !! c = Some o ->
  plain_properties (properties o) = true ->
  let r := update_plain (np_random w) (np_random_calls w) o in
  Feature_update (S fuel) c w
  = Ok (c, with_calls (with_heap w (<[c := fst r]> (heap w))) (snd r)).
Proof.
  intros Ho Hplain r. subst r. unfold update_plain.
  destruct (has_updated_since_last_resolve o) eqn:Hflag; cbn [fst snd].
  - rewrite (Feature_update_clean _ _ _ _ Ho Hflag).
    rewrite (list_insert_id _ _ _ Ho). now rewrite with_heap_id, with_calls_id.
  - cbn [Feature_update]. unfold Feature_update_body.
    rewrite (bind_Ok _ _ _ _ _ (get_feature_Ok _ _ _ Ho)). rewrite Hflag.
    cbn [negb]. unfold PropertyDict_update.
    set (rs := resample_properties (np_random w) (np_random_calls w) (properties o)).
    set (o1 := with_properties o (fst rs)).
    set (w1 := with_calls (with_heap w (<[c := o1]> (heap w))) (snd rs)).
    assert (Ho1 : heap w1 !! c = Some o1).
    { subst w1. cbn. apply list_lookup_insert_eq. now apply lookup_lt_Some in Ho. }
    assert (Hloop :
      (let* o0 := get_feature c in
       forM_ (seq 0 (length (properties o0)))
             (Property_update
                (run_sampler (Feature_update fuel) (copy_deepcopy fuel)
                             (generator_next fuel)) c) ;;
       forM_ (seq 0 (length (properties o0)))
             (Property_propagate (Feature_update fuel) c)) w = Ok (tt, w1)).
    { rewrite (bind_Ok _ _ _ _ _ (get_feature_Ok _ _ _ Ho)).
      pose proof (resample_loop (Feature_update fuel) (copy_deepcopy fuel)
                    (generator_next fuel) c
                    (properties o) [] o w Ho eq_refl Hplain) as Hl.
      cbn [length app] in Hl. cbn zeta in Hl.
      rewrite (bind_Ok _ _ _ _ _ Hl).
      apply (propagate_nothing _ _ w1 o1 Ho1).
      intros i kp b Hi. apply plain_value_not_feature.
      assert (Hp : plain_property (snd kp) = true).
      { eapply plain_properties_lookup; [|exact Hi].
        subst o1. cbn [with_properties properties].
        now apply resample_properties_plain. }
      unfold plain_property in Hp. now apply andb_true_iff in Hp as [_ Hp]. }
    rewrite (bind_Ok _ _ _ _ _ Hloop).
    rewrite (bind_Ok _ _ _ _ _ (set_flag_Ok _ true _ _ Ho1)).
    subst w1. cbn. now rewrite list_insert_insert_eq.
Qed.

(** ** Deep copies of a plain object *)

Lemma deepcopy_value_plain rec v m w :
  plain_value v = true -> deepcopy_value rec v m w = Ok ((v, m), w).
Proof. destruct v; try discriminate; reflexivity. Qed.

Lemma deepcopy_rule_plain rec r m w :
  plain_rule r = true -> deepcopy_rule rec r m w = Ok ((r, m), w).
Proof.
  destruct r as [v|s]; cbn [plain_rule deepcopy_rule]; intros H.
  - now rewrite (bind_Ok _ _ _ _ _ (deepcopy_value_plain rec _ m w H)).
  - destruct s; try discriminate; reflexivity.
Qed.

Lemma deepcopy_properties_plain rec d :
  forall m w, plain_properties d = true ->
              deepcopy_properties rec d m w = Ok ((d, m), w).
Proof.
  induction d as [|[name p] d IH]; intros m w H; [reflexivity|].
  cbn [plain_properties forallb snd] in H.
  apply andb_true_iff in H as [Hp Hd].
  unfold plain_property in Hp. apply andb_true_iff in Hp as [Hr Hv].
  cbn [deepcopy_properties].
  rewrite (bind_Ok _ _ _ _ _ (deepcopy_rule_plain rec _ m w Hr)). cbn [fst snd].
  rewrite (bind_Ok _ _ _ _ _ (deepcopy_value_plain rec _ m w Hv)). cbn [fst snd].
  rewrite (bind_Ok _ _ _ _ _ (IH m w Hd)). cbn [fst snd].
  now destruct p.
Qed.

Lemma copy_deepcopy_plain fuel t w o :
  heap w !! t = Some o ->
  plain_feature o = true ->
  copy_deepcopy (S fuel) t w
  = Ok (length (heap w), with_heap w (heap w ++ [o])).
Proof.
  intros Ho Hplain. unfold plain_feature in Hplain.
  destruct (feature o) eqn:Hf; [discriminate|].
  assert (H : deepcopy_feature (S fuel) t [] w
              = Ok ((length (heap w), [(t, length (heap w))]),
                    with_heap w (heap w ++ [o]))).
  { cbn [deepcopy_feature]. unfold deepcopy_feature_body. cbn [memo_get].
    rewrite (bind_Ok _ _ _ _ _ (get_feature_Ok _ _ _ Ho)).
    rewrite (bind_Ok _ _ _ _ _ (new_object_Ok _ _)).
    rewrite Hf. unfold bind at 1. unfold ret at 1. cbn [fst snd].
    rewrite (bind_Ok _ _ _ _ _
               (deepcopy_properties_plain _ _ _ _ Hplain)). cbn [fst snd].
    unfold set_feature, bind, ret. cbn [fst snd heap with_heap].
    rewrite insert_fresh. destruct o. cbn in *. now subst. }
  unfold copy_deepcopy. now rewrite (bind_Ok _ _ _ _ _ H).
Qed.

(** One evaluation of [copy.deepcopy(feature).update()]. *)
Lemma one_replica fuel fuel' t w o :
  heap w !! t = Some o ->
  plain_feature o = true ->
  let r := update_plain (np_random w) (np_random_calls w) o in
  (let* c := copy_deepcopy (S fuel) t in Feature_update (S fuel') c) w
  = Ok (length (heap w),
        with_calls (with_heap w (heap w ++ [fst r])) (snd r)).
Proof.
  intros Ho Hplain r. subst r.
  rewrite (bind_Ok _ _ _ _ _ (copy_deepcopy_plain _ _ _ _ Ho Hplain)).
  assert (Hp : plain_properties (properties o) = true).
  { unfold plain_feature in Hplain. now destruct (feature o). }
  rewrite (Feature_update_plain fuel' (length (heap w))
             (with_heap w (heap w ++ [o])) o (lookup_fresh _ _) Hp).
  cbn. now rewrite insert_fresh.
Qed.

(** The list comprehension of FeatureDuplicate on a plain template: the
    replicas are new objects, one after the other. *)
Lemma replicas_loop fuel fuel' t o :
  plain_feature o = true ->
  forall n w,
    heap w !! t = Some o ->
    let rs := replicas_plain (np_random w) (np_random_calls w) o n in
    repeatM n (let* c := copy_deepcopy (S fuel) t in Feature_update (S fuel') c) w
    = Ok (seq (length (heap w)) n,
          with_calls (with_heap w (heap w ++ fst rs)) (snd rs)).
Proof.
  intros Hplain. induction n as [|n IH]; intros w Ho rs; subst rs.
  - cbn. unfold ret. now rewrite app_nil_r, with_heap_id, with_calls_id.
  - cbn [repeatM replicas_plain fst snd seq].
    rewrite (bind_Ok _ _ _ _ _ (one_replica fuel fuel' _ _ _ Ho Hplain)).
    set (r := update_plain (np_random w) (np_random_calls w) o).
    set (w1 := with_calls (with_heap w (heap w ++ [fst r])) (snd r)).
    assert (Ho1 : heap w1 !! t = Some o).
    { subst w1. cbn. rewrite lookup_app_l; [assumption|].
      now apply lookup_lt_Some in Ho. }
    specialize (IH w1 Ho1). cbn zeta in IH.
    rewrite (bind_Ok _ _ _ _ _ IH). unfold ret. subst w1. cbn.
    rewrite length_app. cbn [length]. rewrite Nat.add_1_r, <- app_assoc.
    reflexivity.
Qed.

(** ** The generator of a Load *)

Lemma Load_get_files_inv self w files w' :
  Load_get_files self w = Ok (files, w') ->
  w' = w /\
  exists o p, heap w !! self = Some o /\ path o = Some p /\
              get_files (dataset w) p = inr files.
Proof.
  unfold Load_get_files. intros H.
  apply bind_inv in H as (o & w1 & Hg & H).
  apply get_feature_inv in Hg as [Ho ->].
  destruct (path o) as [p|] eqn:Hp; [|discriminate].
  destruct (get_files (dataset w) p) as [e|l] eqn:Hf; [discriminate|].
  inversion H; subst. split; [reflexivity|]. now exists o, p.
Qed.

Lemma Load_next_file_inv self g w u w' :
  Load_next_file self g w = Ok (u, w') ->
  heap w' = heap w /\ np_random w' = np_random w /\ dataset w' = dataset w /\
  np_random_calls w' = S (S (np_random_calls w)) /\
  generators w' = generators w.
Proof.
  unfold Load_next_file. intros H.
  apply bind_inv in H as (files & w1 & Hf & H).
  apply Load_get_files_inv in Hf as [-> _].
  destruct (files !! _) as [file|]; [|discriminate].
  destruct (np_load (dataset w) file) as [image|]; [|discriminate].
  inversion H; subst. cbn. tauto.
Qed.

(** Asking a generator for an item leaves the objects alone; the random
    source and the generators only move on. *)
Lemma generator_next_keeps fuel self g :
  forall w z w',
    generator_next fuel self g w = Ok (z, w') ->
    heap w' = heap w /\ np_random w' = np_random w /\ dataset w' = dataset w /\
    np_random_calls w <= np_random_calls w' /\
    (forall g' k, generators w !! g' = Some k ->
                  exists k', generators w' !! g' = Some k' /\ k <= k').
Proof.
  induction fuel as [|fuel IH]; intros w z w' H; [discriminate|].
  cbn [generator_next] in H.
  destruct (buffers w !! g) as [[|z0 rest]|] eqn:Hb; [| |discriminate];
    (destruct (generators w !! g) as [k|] eqn:Hg; [|discriminate]).
  - apply bind_inv in H as (u & w1 & Hfile & H).
    apply Load_next_file_inv in Hfile as (Hh & Hr & Hd & Hc & Hgens).
    destruct (IH _ _ _ H) as (Hh' & Hr' & Hd' & Hc' & Hgens').
    split; [congruence|]. split; [congruence|]. split; [congruence|].
    split; [lia|]. intros g' k' Hk'. apply Hgens'. now rewrite Hgens.
  - inversion H; subst. cbn.
    split; [reflexivity|]. split; [reflexivity|]. split; [reflexivity|].
    split; [lia|]. intros g' k' Hk'.
    destruct (decide (g' = g)) as [->|Hne].
    + rewrite Hg in Hk'. inversion Hk'; subst k'. exists (S k).
      split; [|lia]. apply list_lookup_insert_eq. now apply lookup_lt_Some in Hg.
    + exists k'. split; [|lia]. now rewrite list_lookup_insert_ne.
Qed.

(** ** What copying and updating leave alone *)

Lemma hoare_ret {A} (P : World -> Prop) (x : A) (Q : A -> World -> Prop) :
  (forall w, P w -> Q x w) -> hoare P (ret x) Q.
Proof. intros H w y w' HP Hr. apply ret_inv in Hr as [-> ->]. now apply H. Qed.

Lemma hoare_raise {A} (P : World -> Prop) e (Q : A -> World -> Prop) :
  hoare P (raise e) Q.
Proof. intros w y w' _ H. discriminate. Qed.

Lemma hoare_bind {A B} (P : World -> Prop) (m : M A) (Q : A -> World -> Prop)
    (k : A -> M B) (R : B -> World -> Prop) :
  hoare P m Q -> (forall x, hoare (Q x) (k x) R) -> hoare P (bind m k) R.
Proof.
  intros Hm Hk w y w' HP H. apply bind_inv in H as (x & w1 & H1 & H2).
  eapply Hk; [|exact H2]. eapply Hm; [exact HP | exact H1].
Qed.

Lemma hoare_weaken {A} (P P' : World -> Prop) (m : M A)
    (Q Q' : A -> World -> Prop) :
  hoare P m Q -> (forall w, P' w -> P w) -> (forall x w, Q x w -> Q' x w) ->
  hoare P' m Q'.
Proof. intros H HP HQ w x w' HP' Hm. apply HQ. eapply H; eauto. Qed.

Lemma hoare_get_feature (P : World -> Prop) a :
  hoare P (get_feature a) (fun o w => P w /\ heap w !! a = Some o).
Proof. intros w o w' HP H. apply get_feature_inv in H as [H ->]. now split. Qed.

Lemma hoare_forM_ {A} (I : World -> Prop) (f : A -> M unit) l :
  (forall x, hoare I (f x) (fun _ => I)) -> hoare I (forM_ l f) (fun _ => I).
Proof.
  intros Hf. induction l as [|x l IH]; cbn [forM_].
  - now apply hoare_ret.
  - eapply hoare_bind; [apply Hf|]. intros u. exact IH.
Qed.

Lemma hoare_repeatM {A} (I : World -> Prop) (R : A -> Prop) (m : M A) n :
  hoare I m (fun x w => I w /\ R x) ->
  hoare I (repeatM n m) (fun l w => I w /\ Forall R l /\ length l = n).
Proof.
  intros Hm. induction n as [|n IH]; cbn [repeatM].
  - apply hoare_ret. intros w HI. split; [assumption|]. split; [constructor | reflexivity].
  - eapply hoare_bind; [exact Hm|]. intros x.
    intros w l w' [HI HR] H. apply bind_inv in H as (l' & w1 & H1 & H2).
    apply ret_inv in H2 as [-> ->].
    destruct (IH _ _ _ HI H1) as (HI' & HF & Hlen).
    split; [assumption|]. split; [now constructor | cbn; now rewrite Hlen].
Qed.

Lemma memo_get_new L a m a' :
  new_memo L m -> memo_get a m = Some a' -> L <= a'.
Proof.
  induction m as [|[x y] m IH]; intros Hm Hget; [discriminate|].
  cbn [memo_get] in Hget. apply Forall_cons in Hm as [Hy Hm].
  destruct (Nat.eqb a x); [now inversion Hget; subst | now apply IH].
Qed.

Section Frame.
Variables (L : nat) (h0 : list Feature).

Let I := only_new_above L h0.

Lemma only_new_above_same_heap w w' :
  heap w' = heap w -> I w -> I w'.
Proof. unfold I, only_new_above. intros ->. tauto. Qed.

Lemma only_new_above_new_object w o :
  new_properties L (properties o) ->
  I w -> I (with_heap w (heap w ++ [o])).
Proof.
  intros Ho (Hlen & Hold & Hnew). unfold I, only_new_above.
  rewrite with_heap_heap, length_app. cbn [length].
  split; [lia|]. split.
  - intros a Ha. rewrite lookup_app_l by lia. now apply Hold.
  - intros a o' Ha Hlook.
    destruct (decide (a < length (heap w))) as [Hlt|Hge].
    + rewrite lookup_app_l in Hlook by assumption. now apply (Hnew a).
    + rewrite lookup_app_r in Hlook by lia.
      destruct (a - length (heap w)) as [|k]; cbn in Hlook.
      * now inversion Hlook; subst.
      * discriminate.
Qed.

Lemma only_new_above_set w a o :
  L <= a -> new_properties L (properties o) ->
  I w -> I (with_heap w (<[a := o]> (heap w))).
Proof.
  intros Ha Ho (Hlen & Hold & Hnew). unfold I, only_new_above.
  rewrite with_heap_heap, length_insert.
  split; [assumption|]. split.
  - intros b Hb. rewrite list_lookup_insert_ne by lia. now apply Hold.
  - intros b o' Hb Hlook.
    destruct (decide (a = b)) as [->|Hne].
    + destruct (decide (b < length (heap w))) as [Hlt|Hge].
      * rewrite list_lookup_insert_eq in Hlook by assumption.
        now inversion Hlook; subst.
      * rewrite list_insert_ge in Hlook by lia. now apply (Hnew b).
    + rewrite list_lookup_insert_ne in Hlook by assumption.
      now apply (Hnew b).
Qed.

Lemma only_new_above_properties w a o :
  I w -> L <= a -> heap w !! a = Some o -> new_properties L (properties o).
Proof. intros (_ & _ & Hnew). apply Hnew. Qed.

Lemma hoare_set_feature a o :
  L <= a -> new_properties L (properties o) ->
  hoare I (set_feature a o) (fun _ => I).
Proof.
  intros Ha Ho w u w' HI H. unfold set_feature in H. inversion H; subst.
  now apply only_new_above_set.
Qed.

Lemma hoare_set_flag a b :
  L <= a -> hoare I (set_flag a b) (fun _ => I).
Proof.
  intros Ha w u w' HI H. apply set_flag_inv in H as (o & Ho & ->).
  apply only_new_above_set; [assumption | | assumption].
  cbn [with_flag properties]. now apply (only_new_above_properties w a).
Qed.

(** *** [copy.deepcopy] makes new objects only *)

Section Copy.
Variable rec : addr -> memo -> M (addr * memo).
Hypothesis Hrec :
  forall a m, new_memo L m ->
    hoare I (rec a m)
          (fun r w => I w /\ L <= fst r /\ new_memo L (snd r)).

Lemma hoare_deepcopy_list l :
  forall m, new_memo L m ->
    hoare I (deepcopy_list rec l m)
          (fun r w => I w /\ Forall (fun a => L <= a) (fst r) /\
                      new_memo L (snd r)).
Proof.
  induction l as [|a l IH]; intros m Hm; cbn [deepcopy_list].
  - apply hoare_ret. intros w HI. cbn [fst snd].
    split; [assumption|]. split; [constructor | assumption].
  - eapply hoare_bind; [now apply Hrec|]. intros r.
    intros w x w' (HI & Hr & Hm') H.
    apply bind_inv in H as (rs & w1 & H1 & H2).
    apply ret_inv in H2 as [-> ->]. cbn [fst snd].
    destruct (IH _ Hm' _ _ _ HI H1) as (HI' & HF & Hm'').
    split; [assumption|]. split; [now constructor | assumption].
Qed.

Lemma hoare_deepcopy_value v m :
  new_memo L m ->
  hoare I (deepcopy_value rec v m)
        (fun r w => I w /\ new_value L (fst r) /\ new_memo L (snd r)).
Proof.
  intros Hm. destruct v; cbn [deepcopy_value];
    try (apply hoare_ret; intros w HI; cbn; tauto).
  - eapply hoare_bind; [now apply Hrec|]. intros r.
    apply hoare_ret. intros w (HI & Hr & Hm'). cbn. tauto.
  - eapply hoare_bind; [now apply hoare_deepcopy_list|]. intros r.
    apply hoare_ret. intros w (HI & Hr & Hm'). cbn. tauto.
Qed.

Lemma hoare_deepcopy_rule r m :
  new_memo L m ->
  hoare I (deepcopy_rule rec r m) (fun x w => I w /\ new_memo L (snd x)).
Proof.
  intros Hm. destruct r as [v|s]; cbn [deepcopy_rule].
  - eapply hoare_bind; [now apply hoare_deepcopy_value|]. intros c.
    apply hoare_ret. intros w (HI & _ & Hm'). cbn. tauto.
  - destruct s; first [apply hoare_raise | apply hoare_ret; intros w HI; cbn; tauto].
Qed.

Lemma hoare_deepcopy_properties d :
  forall m, new_memo L m ->
    hoare I (deepcopy_properties rec d m)
          (fun r w => I w /\ new_properties L (fst r) /\ new_memo L (snd r)).
Proof.
  induction d as [|[name p] d IH]; intros m Hm; cbn [deepcopy_properties].
  - apply hoare_ret. intros w HI. cbn [fst snd].
    split; [assumption|]. split; [constructor | assumption].
  - eapply hoare_bind; [now apply hoare_deepcopy_rule|]. intros r.
    intros w x w' (HI & Hm1) H.
    apply bind_inv in H as (c & w1 & H1 & H).
    destruct (hoare_deepcopy_value _ _ Hm1 _ _ _ HI H1) as (HI1 & Hc & Hm2).
    apply bind_inv in H as (rest & w2 & H2 & H).
    destruct (IH _ Hm2 _ _ _ HI1 H2) as (HI2 & Hrest & Hm3).
    apply ret_inv in H as [-> ->]. cbn [fst snd].
    split; [assumption|]. split; [|assumption].
    constructor; [exact Hc | exact Hrest].
Qed.

Lemma hoare_deepcopy_feature_body a m :
  new_memo L m ->
  hoare I (deepcopy_feature_body rec a m)
        (fun r w => I w /\ L <= fst r /\ new_memo L (snd r)).
Proof.
  intros Hm. unfold deepcopy_feature_body.
  destruct (memo_get a m) as [a'|] eqn:Hget.
  - apply hoare_ret. intros w HI. cbn [fst snd].
    split; [assumption|]. split; [|assumption].
    now apply (memo_get_new L a m).
  - intros w x w' HI H.
    apply bind_inv in H as (o & w0 & Hg & H).
    apply get_feature_inv in Hg as [Ho ->].
    apply bind_inv in H as (a' & w1 & Hn & H).
    rewrite new_object_Ok in Hn. inversion Hn; subst a' w1. clear Hn.
    set (a' := length (heap w)) in *.
    assert (Ha' : L <= a') by (destruct HI as (Hlen & _); exact Hlen).
    assert (HI1 : I (with_heap w (heap w ++ [blank (class o)]))).
    { apply only_new_above_new_object; [constructor | assumption]. }
    assert (Hm1 : new_memo L ((a, a') :: m)) by (now constructor).
    apply bind_inv in H as (f & w2 & Hf & H).
    assert (Hf2 : I w2 /\ new_memo L (snd f)).
    { destruct (feature o) as [t0|].
      - apply bind_inv in Hf as (r & w3 & Hr & Hf).
        apply ret_inv in Hf as [-> ->]. cbn [snd].
        destruct (Hrec _ _ Hm1 _ _ _ HI1 Hr) as (HI3 & _ & Hm3). now split.
      - apply ret_inv in Hf as [-> ->]. now split. }
    destruct Hf2 as [HI2 Hm2].
    apply bind_inv in H as (ps & w3 & Hps & H).
    destruct (hoare_deepcopy_properties _ _ Hm2 _ _ _ HI2 Hps)
      as (HI3 & Hnew & Hm3).
    apply bind_inv in H as (u & w4 & Hs & H).
    apply ret_inv in H as [-> ->]. cbn [fst snd].
    split; [|split; assumption].
    eapply hoare_set_feature; [| |exact HI3|exact Hs]; assumption.
Qed.
End Copy.

Lemma hoare_deepcopy_feature fuel :
  forall a m, new_memo L m ->
    hoare I (deepcopy_feature fuel a m)
          (fun r w => I w /\ L <= fst r /\ new_memo L (snd r)).
Proof.
  induction fuel as [|fuel IH]; intros a m Hm.
  - intros w x w' _ H. discriminate.
  - cbn [deepcopy_feature]. now apply hoare_deepcopy_feature_body.
Qed.

Lemma hoare_copy_deepcopy fuel a :
  hoare I (copy_deepcopy fuel a) (fun c w => I w /\ L <= c).
Proof.
  unfold copy_deepcopy.
  eapply hoare_bind; [apply hoare_deepcopy_feature; constructor|]. intros r.
  apply hoare_ret. intros w (HI & Hr & _). now split.
Qed.

(** *** [update] of a new object touches new objects only *)

Lemma hoare_generator_next fuel self g :
  hoare I (generator_next fuel self g) (fun _ => I).
Proof.
  intros w z w' HI H. apply generator_next_keeps in H as (Hh & _).
  now apply (only_new_above_same_heap w).
Qed.

Section Update.
Variables (update deepcopy : addr -> M addr) (next : addr -> nat -> M Z).
Hypothesis Hupdate :
  forall c, L <= c -> hoare I (update c) (fun r w => I w /\ L <= r).
Hypothesis Hdeepcopy :
  forall a, hoare I (deepcopy a) (fun c w => I w /\ L <= c).
Hypothesis Hnext : forall self g, hoare I (next self g) (fun _ => I).

Lemma hoare_run_sampler s :
  hoare I (run_sampler update deepcopy next s) (fun v w => I w /\ new_value L v).
Proof.
  destruct s as [|g|g|self feature_|self g]; cbn [run_sampler].
  1-3: intros w v w' HI H; apply bind_inv in H as (q & w1 & Hq & H);
    apply ret_inv in H as [-> ->]; unfold rand in Hq; inversion Hq; subst;
    split; [now apply (only_new_above_same_heap w) | exact Logic.I].
  - unfold FeatureDuplicate_lambda.
    eapply hoare_bind; [apply hoare_get_feature|]. intros o.
    destruct (dict_get "num_duplicates" (properties o)) as [p|];
      [|apply hoare_raise].
    destruct (current_value p); try apply hoare_raise.
    eapply hoare_bind.
    + eapply hoare_weaken;
        [apply (hoare_repeatM I (fun c => L <= c)) | intros w [HI _]; exact HI
         | intros x w H; exact H].
      eapply hoare_bind; [apply Hdeepcopy|]. intros c.
      intros w r w' [HI Hc] H. now apply (Hupdate c Hc w).
    + intros l. apply hoare_ret. intros w (HI & Hl & _). now split.
  - eapply hoare_bind; [apply Hnext|]. intros z.
    apply hoare_ret. intros w HI. split; [exact HI | exact Logic.I].
Qed.

Lemma hoare_Property_update owner i :
  L <= owner ->
  hoare I (Property_update (run_sampler update deepcopy next) owner i)
        (fun _ => I).
Proof.
  intros Howner. unfold Property_update.
  eapply hoare_bind; [apply hoare_get_feature|]. intros o.
  destruct (properties o !! i) as [kp|];
    [|apply hoare_ret; intros w [HI _]; exact HI].
  destruct (sampling_rule (snd kp)) as [v|s];
    [apply hoare_ret; intros w [HI _]; exact HI|].
  eapply hoare_bind.
  { eapply hoare_weaken; [apply hoare_run_sampler | intros w [HI _]; exact HI
                         | intros x w H; exact H]. }
  intros v w u w' [HI Hv] H.
  apply bind_inv in H as (o' & w1 & Hg & H).
  apply get_feature_inv in Hg as [Ho' ->].
  eapply hoare_set_feature; [exact Howner| |exact HI|exact H].
  cbn [with_properties properties]. unfold new_properties.
  apply Forall_insert; [|exact Hv].
  now apply (only_new_above_properties w owner).
Qed.

Lemma hoare_Property_propagate owner i :
  L <= owner ->
  hoare I (Property_propagate update owner i) (fun _ => I).
Proof.
  intros Howner. unfold Property_propagate.
  intros w u w' HI H.
  apply bind_inv in H as (o & w1 & Hg & H).
  apply get_feature_inv in Hg as [Ho ->].
  destruct (properties o !! i) as [kp|] eqn:Hi;
    [|now apply ret_inv in H as [_ ->]].
  pose proof (only_new_above_properties w owner o HI Howner Ho) as Hnew.
  unfold new_properties in Hnew. rewrite Forall_lookup in Hnew.
  specialize (Hnew i kp Hi).
  destruct (current_value (snd kp)) as [| | | |b|];
    try (now apply ret_inv in H as [_ ->]).
  cbn [new_value] in Hnew.
  apply bind_inv in H as (r & w1 & Hu & H).
  apply ret_inv in H as [_ ->].
  now apply (Hupdate b Hnew w r w1 HI Hu).
Qed.

Lemma hoare_Feature_update_body self :
  L <= self ->
  hoare I (Feature_update_body update deepcopy next self)
        (fun r w => I w /\ L <= r).
Proof.
  intros Hself. unfold Feature_update_body.
  eapply hoare_bind; [apply hoare_get_feature|]. intros o.
  eapply hoare_bind with (Q := fun _ => I).
  { destruct (negb (has_updated_since_last_resolve o));
      [|apply hoare_ret; intros w [HI _]; exact HI].
    unfold PropertyDict_update.
    eapply hoare_bind; [apply hoare_get_feature|]. intros o'.
    eapply hoare_bind with (Q := fun _ => I).
    - eapply hoare_weaken;
        [apply hoare_forM_ | intros w [[HI _] _]; exact HI
         | intros x w H; exact H].
      intros i. now apply hoare_Property_update.
    - intros u. apply hoare_forM_. intros i.
      now apply hoare_Property_propagate. }
  intros u. eapply hoare_bind; [now apply hoare_set_flag|]. intros u'.
  apply hoare_ret. intros w HI. now split.
Qed.
End Update.

Lemma hoare_Feature_update fuel :
  forall self, L <= self ->
    hoare I (Feature_update fuel self) (fun r w => I w /\ L <= r).
Proof.
  induction fuel as [|fuel IH]; intros self Hself.
  - intros w x w' _ H. discriminate.
  - cbn [Feature_update]. apply hoare_Feature_update_body;
      [exact IH | intros a; apply hoare_copy_deepcopy
       | intros s g; apply hoare_generator_next | exact Hself].
Qed.
End Frame.

(** The list comprehension of FeatureDuplicate, whatever the template: if
    it returns, it returns as many objects as it was asked for, all new,
    and every object that was there before is as it was. *)
Lemma replicas_frame fuel fuel' t n w l w' :
  repeatM n (let* c := copy_deepcopy fuel t in Feature_update fuel' c) w
  = Ok (l, w') ->
  length l = n /\
  Forall (fun c => length (heap w) <= c) l /\
  forall a, a < length (heap w) -> heap w' !! a = heap w !! a.
Proof.
  intros H.
  assert (HI : only_new_above (length (heap w)) (heap w) w).
  { split; [lia|]. split; [reflexivity|].
    intros a o Ha Hlook. apply lookup_lt_Some in Hlook. lia. }
  pose proof (hoare_repeatM (only_new_above (length (heap w)) (heap w))
                (fun c => length (heap w) <= c)
                (let* c := copy_deepcopy fuel t in Feature_update fuel' c) n)
    as Hloop.
  destruct (Hloop) with (w := w) (x := l) (w' := w') as ((_ & Hold & _) & Hl & Hlen);
    try assumption.
  - eapply hoare_bind; [apply hoare_copy_deepcopy|]. intros c.
    intros w1 r w2 [HI1 Hc] Hu.
    now apply (hoare_Feature_update _ _ fuel' c Hc w1).
  - split; [assumption|]. split; assumption.
Qed.

(** ** The count and the list of a FeatureDuplicate *)

Lemma repeatM_length {A} (m : M A) n :
  forall w l w', repeatM n m w = Ok (l, w') -> length l = n.
Proof.
  induction n as [|n IH]; intros w l w' H; cbn [repeatM] in H.
  - apply ret_inv in H as [-> _]. reflexivity.
  - apply bind_inv in H as (x & w1 & _ & H).
    apply bind_inv in H as (l' & w2 & Hl & H).
    apply ret_inv in H as [-> _]. cbn. now rewrite (IH _ _ _ Hl).
Qed.

(** One update() of a FeatureDuplicate whose flag is not set, step by
    step. *)
Section DuplicateUpdate.
Variables (fuel : nat) (w : World) (self t : addr) (o : Feature).
Variables (pc pf : Property) (extra : dict Property) (n : Z).

Hypothesis Ho : heap w !! self = Some o.
Hypothesis Hprops :
  properties o = ("num_duplicates", pc) :: ("features", pf) :: extra.
Hypothesis Hrule : sampling_rule pf = Sampled (duplicate_lambda self t).
Hypothesis Hflag : has_updated_since_last_resolve o = false.
Hypothesis Hpc : plain_rule (sampling_rule pc) = true.
Hypothesis Hn :
  current_value
    (fst (resample_property (np_random w) (np_random_calls w) pc)) = VInt n.
Hypothesis Hextra : plain_properties extra = true.

Let update := Feature_update fuel.
Let deepcopy := copy_deepcopy fuel.
Let next := generator_next fuel.
Let sample := run_sampler update deepcopy next.
Let r := resample_property (np_random w) (np_random_calls w) pc.
Let o1 := with_properties o
            (("num_duplicates", fst r) :: ("features", pf) :: extra).
Let w1 := with_calls (with_heap w (<[self := o1]> (heap w))) (snd r).
Let replicas := repeatM (Z.to_nat n) (let* c := deepcopy t in update c).

(** num_duplicates is resampled first. *)
Lemma count_is_resampled_first :
  Property_update sample self 0 w = Ok (tt, w1).
Proof.
  unfold sample.
  rewrite (Property_update_plain update deepcopy next self 0 w o
             ("num_duplicates", pc) Ho); [| now rewrite Hprops | exact Hpc].
  cbn [fst snd]. now rewrite Hprops.
Qed.

Lemma node_after_count : heap w1 !! self = Some o1.
Proof.
  unfold w1. cbn. apply list_lookup_insert_eq. now apply lookup_lt_Some in Ho.
Qed.

(** The lambda then reads the count just stored. *)
Lemma lambda_reads_the_new_count :
  sample (duplicate_lambda self t) w1
  = (let* l := replicas in ret (VFeatures l)) w1.
Proof.
  unfold sample. cbn [run_sampler]. unfold FeatureDuplicate_lambda.
  rewrite (bind_Ok _ _ _ _ _ (get_feature_Ok _ _ _ node_after_count)).
  unfold o1 at 1. cbn [with_properties properties dict_get].
  rewrite String.eqb_refl. unfold r. now rewrite Hn.
Qed.

(** What [properties.update()] does up to the list comprehension. *)
Lemma duplicate_update_prefix :
  Feature_update (S fuel) self w
  = match Property_update sample self 1 w1 with
    | Ok (_, w3) =>
        (forM_ (seq 2 (length extra)) (Property_update sample self) ;;
         forM_ (seq 0 (S (S (length extra))))
               (Property_propagate update self) ;;
         set_flag self true ;; ret self) w3
    | Raise e => Raise e
    | OutOfFuel => OutOfFuel
    end.
Proof.
  cbn [Feature_update]. unfold Feature_update_body. fold update deepcopy next sample.
  rewrite (bind_Ok _ _ _ _ _ (get_feature_Ok _ _ _ Ho)). rewrite Hflag.
  cbn [negb]. unfold PropertyDict_update. rewrite bind_assoc.
  rewrite (bind_Ok _ _ _ _ _ (get_feature_Ok _ _ _ Ho)).
  rewrite Hprops. cbn [length].
  set (propagate := forM_ (seq 0 (S (S (length extra))))
                          (Property_propagate update self)).
  cbn [seq forM_]. rewrite !bind_assoc.
  rewrite (bind_Ok _ _ _ _ _ count_is_resampled_first).
  rewrite !bind_assoc. unfold bind at 1.
  destruct (Property_update sample self 1 w1) as [[u w3]| |]; reflexivity.
Qed.

Lemma duplicate_update_runs_replicas r' w' :
  Feature_update (S fuel) self w = Ok (r', w') ->
  exists l w2, replicas w1 = Ok (l, w2).
Proof.
  rewrite duplicate_update_prefix.
  destruct (Property_update sample self 1 w1) as [[u w3]| |] eqn:H1;
    try discriminate.
  intros _. unfold Property_update in H1.
  rewrite (bind_Ok _ _ _ _ _ (get_feature_Ok _ _ _ node_after_count)) in H1.
  unfold o1 in H1.
  cbn [with_properties properties lookup list_lookup snd fst] in H1.
  rewrite Hrule in H1. apply bind_inv in H1 as (v & w2 & Hs & _).
  rewrite lambda_reads_the_new_count in Hs.
  apply bind_inv in Hs as (l & w2' & Hl & _). now exists l, w2'.
Qed.

(** What the update comes to once the replicas are made, the node
    itself having been left alone meanwhile. *)
Lemma duplicate_update_after_replicas l w2 :
  replicas w1 = Ok (l, w2) ->
  heap w2 !! self = Some o1 ->
  exists w' o',
    Feature_update (S fuel) self w = Ok (self, w') /\
    heap w' !! self = Some o' /\
    dict_keys (properties o')
      = "num_duplicates" :: "features" :: dict_keys extra /\
    kwarg "num_duplicates" (current_value_dict (properties o')) = VInt n /\
    kwarg "features" (current_value_dict (properties o')) = VFeatures l.
Proof.
  intros Hl Ho2.
  set (pf' := {| sampling_rule := Sampled (duplicate_lambda self t);
                 current_value := VFeatures l |}).
  set (o2 := with_properties o1
               (("num_duplicates", fst r) :: ("features", pf') :: extra)).
  set (w3 := with_heap w2 (<[self := o2]> (heap w2))).
  assert (H2 : Property_update sample self 1 w1 = Ok (tt, w3)).
  { unfold Property_update.
    rewrite (bind_Ok _ _ _ _ _ (get_feature_Ok _ _ _ node_after_count)).
    unfold o1.
    cbn [with_properties properties lookup list_lookup snd fst].
    rewrite Hrule.
    assert (Hs : sample (duplicate_lambda self t) w1 = Ok (VFeatures l, w2)).
    { rewrite lambda_reads_the_new_count. now rewrite (bind_Ok _ _ _ _ _ Hl). }
    rewrite (bind_Ok _ _ _ _ _ Hs).
    rewrite (bind_Ok _ _ _ _ _ (get_feature_Ok _ _ _ Ho2)).
    reflexivity. }
  assert (Ho3 : heap w3 !! self = Some o2).
  { unfold w3. cbn [heap with_heap]. apply list_lookup_insert_eq.
    now apply lookup_lt_Some in Ho2. }
  set (pre := [("num_duplicates", fst r); ("features", pf')]).
  set (rs3 := resample_properties (np_random w3) (np_random_calls w3) extra).
  set (o3 := with_properties o2 (pre ++ fst rs3)).
  set (w4 := with_calls (with_heap w3 (<[self := o3]> (heap w3))) (snd rs3)).
  assert (H3 : forM_ (seq 2 (length extra)) (Property_update sample self) w3
               = Ok (tt, w4)).
  { exact (resample_loop update deepcopy next self extra pre o2 w3 Ho3 eq_refl
             Hextra). }
  assert (Ho4 : heap w4 !! self = Some o3).
  { unfold w4. cbn [heap with_calls with_heap]. apply list_lookup_insert_eq.
    now apply lookup_lt_Some in Ho3. }
  assert (H4 : forall idx, forM_ idx (Property_propagate update self) w4
                           = Ok (tt, w4)).
  { apply (propagate_nothing update self w4 o3 Ho4).
    intros i kp b Hi. unfold o3, pre in Hi.
    cbn [with_properties properties app] in Hi.
    destruct i as [|[|i]]; cbn in Hi.
    - inversion Hi; subst kp. cbn [snd]. unfold r. rewrite Hn. discriminate.
    - inversion Hi; subst kp. discriminate.
    - apply plain_value_not_feature.
      assert (Hp : plain_property (snd kp) = true).
      { eapply plain_properties_lookup; [|exact Hi].
        now apply resample_properties_plain. }
      unfold plain_property in Hp. now apply andb_true_iff in Hp as [_ Hp]. }
  exists (with_heap w4 (<[self := with_flag o3 true]> (heap w4))),
         (with_flag o3 true).
  split; [|split; [|split; [|split]]].
  - rewrite duplicate_update_prefix, H2.
    rewrite (bind_Ok _ _ _ _ _ H3).
    rewrite (bind_Ok _ _ _ _ _ (H4 _)).
    now rewrite (bind_Ok _ _ _ _ _ (set_flag_Ok _ true _ _ Ho4)).
  - cbn [heap with_heap]. apply list_lookup_insert_eq.
    now apply lookup_lt_Some in Ho4.
  - unfold o3, pre, dict_keys.
    cbn [with_flag with_properties properties app map fst].
    f_equal. f_equal. apply resample_properties_keys.
  - unfold o3, pre. cbn. unfold r. exact Hn.
  - unfold o3, pre. cbn. reflexivity.
Qed.
End DuplicateUpdate.

(** Where the count is followed: a FeatureDuplicate whose lambda is
    closed over the node itself, as the constructor leaves it.  An
    update() of such a node, its flag not set, resamples num_duplicates
    first and builds the list of features from the value just drawn.
    Whatever the template, and whatever count and list the node held
    before: if the update returns, the list stored under features is as
    long as the count stored under num_duplicates in that same pass.  And
    it does return when the bag of the template holds constants and
    random samplers only. *)
Lemma duplicates_follow_the_count fuel w self t o pc pf extra n :
  heap w !! self = Some o ->
  properties o = ("num_duplicates", pc) :: ("features", pf) :: extra ->
  sampling_rule pf = Sampled (duplicate_lambda self t) ->
  has_updated_since_last_resolve o = false ->
  plain_rule (sampling_rule pc) = true ->
  current_value
    (fst (resample_property (np_random w) (np_random_calls w) pc)) = VInt n ->
  (0 <= n)%Z ->
  plain_properties extra = true ->
  (forall r w',
      Feature_update fuel self w = Ok (r, w') ->
      exists o' l,
        heap w' !! self = Some o' /\
        dict_keys (properties o')
          = "num_duplicates" :: "features" :: dict_keys extra /\
        kwarg "num_duplicates" (current_value_dict (properties o')) = VInt n /\
        kwarg "features" (current_value_dict (properties o')) = VFeatures l /\
        Z.of_nat (length l) = n) /\
  (forall ot,
      heap w !! t = Some ot -> plain_feature ot = true -> 2 <= fuel ->
      exists w', Feature_update fuel self w = Ok (self, w')).
Proof.
  intros Ho Hprops Hrule Hflag Hpc Hn Hpos Hextra. split.
  - intros r w' Hup. destruct fuel as [|fuel']; [discriminate|].
    destruct (duplicate_update_runs_replicas fuel' w self t o pc pf extra n
                Ho Hprops Hrule Hflag Hpc Hn r w' Hup) as (l & w2 & Hl).
    pose proof (replicas_frame _ _ _ _ _ _ _ Hl) as (Hlen & _ & Hold).
    assert (Ho2 : heap w2 !! self
                  = Some (with_properties o
                            (("num_duplicates",
                              fst (resample_property (np_random w)
                                     (np_random_calls w) pc))
                             :: ("features", pf) :: extra))).
    { rewrite Hold.
      - apply (node_after_count w self o pc pf extra Ho).
      - cbn [heap with_calls with_heap]. rewrite length_insert.
        now apply lookup_lt_Some in Ho. }
    destruct (duplicate_update_after_replicas fuel' w self t o pc pf extra n
                Ho Hprops Hrule Hflag Hpc Hn Hextra l w2 Hl Ho2)
      as (w'' & o' & Hup' & Ho' & Hkeys & Hcount & Hlist).
    rewrite Hup in Hup'. inversion Hup'; subst r w''.
    exists o', l. repeat split; try assumption.
    rewrite Hlen. now apply Z2Nat.id.
  - intros ot Hot Hplain Hfuel.
    destruct fuel as [|[|fuel']]; try lia.
    assert (Hne : t <> self).
    { intros ->. rewrite Ho in Hot. inversion Hot; subst ot.
      unfold plain_feature in Hplain. destruct (feature o); [discriminate|].
      rewrite Hprops in Hplain. cbn in Hplain. unfold plain_property in Hplain.
      rewrite Hrule in Hplain. cbn in Hplain.
      now rewrite andb_false_r in Hplain. }
    set (r := resample_property (np_random w) (np_random_calls w) pc).
    set (o1 := with_properties o
                 (("num_duplicates", fst r) :: ("features", pf) :: extra)).
    set (w1 := with_calls (with_heap w (<[self := o1]> (heap w))) (snd r)).
    assert (Ho1 : heap w1 !! self = Some o1)
      by apply (node_after_count w self o pc pf extra Ho).
    assert (Hot1 : heap w1 !! t = Some ot).
    { unfold w1. cbn. rewrite list_lookup_insert_ne; [assumption | congruence]. }
    pose proof (replicas_loop fuel' fuel' t ot Hplain (Z.to_nat n) w1 Hot1) as Hl.
    cbn zeta in Hl.
    destruct (duplicate_update_after_replicas (S fuel') w self t o pc pf extra n
                Ho Hprops Hrule Hflag Hpc Hn Hextra _ _ Hl)
      as (w' & o' & Hup & _).
    { cbn [heap with_calls with_heap].
      rewrite lookup_app_l; [exact Ho1 | now apply lookup_lt_Some in Ho1]. }
    now exists w'.
Qed.

(** *** What the constructor of FeatureDuplicate builds *)

Lemma dict_get_app {A} k (d d' : dict A) :
  dict_get k (d ++ d')
  = match dict_get k d with Some v => Some v | None => dict_get k d' end.
Proof.
  induction d as [|[k' v] d IH]; [reflexivity|].
  cbn [app dict_get]. now destruct (String.eqb k k').
Qed.

Lemma dict_set_fresh {A} k (v : A) (d : dict A) :
  dict_get k d = None -> dict_set k v d = d ++ [(k, v)].
Proof.
  induction d as [|[k' v'] d IH]; [reflexivity|].
  cbn [dict_get dict_set app]. destruct (String.eqb k k'); [discriminate|].
  intros H. now rewrite IH.
Qed.

Lemma fold_dict_set_fresh {A B} (f : A -> B) (kw : dict A) :
  forall d : dict B,
    NoDup (dict_keys kw) ->
    (forall k, k ∈ dict_keys kw -> dict_get k d = None) ->
    fold_left (fun d kv => dict_set (fst kv) (f (snd kv)) d) kw d
    = d ++ map (fun kv => (fst kv, f (snd kv))) kw.
Proof.
  induction kw as [|[k v] kw IH]; intros d Hnd Hfresh.
  - cbn. now rewrite app_nil_r.
  - unfold dict_keys in *. cbn [map fst] in *.
    apply NoDup_cons in Hnd as [Hk Hnd].
    cbn [fold_left fst snd].
    rewrite dict_set_fresh by (apply Hfresh; left).
    rewrite IH; [now rewrite <- app_assoc | assumption |].
    intros k' Hk'. rewrite dict_get_app.
    rewrite Hfresh by (now right). cbn [dict_get].
    destruct (String.eqb k' k) eqn:E; [|reflexivity].
    apply String.eqb_eq in E. now subst.
Qed.

Lemma existsb_eqb_false k (l : list string) :
  k ∉ l -> existsb (String.eqb k) l = false.
Proof.
  intros H. induction l as [|x l IH]; [reflexivity|].
  cbn [existsb]. apply not_elem_of_cons in H as [Hx Hl].
  rewrite IH by assumption.
  destruct (String.eqb k x) eqn:E; [|reflexivity].
  apply String.eqb_eq in E. contradiction.
Qed.

Lemma keywords_Ok {A} (named kwargs : dict A) w :
  (forall k, k ∈ dict_keys kwargs -> k ∉ dict_keys named) ->
  keywords named kwargs w = Ok (named ++ kwargs, w).
Proof.
  intros H. unfold keywords.
  replace (forallb _ (dict_keys kwargs)) with true; [reflexivity|].
  symmetry. apply forallb_forall. intros k Hk.
  apply list_elem_of_In in Hk. rewrite existsb_eqb_false; [reflexivity|].
  now apply H.
Qed.

(** The bag of a new FeatureDuplicate lists num_duplicates, then
    features, then the other keyword arguments. *)
Lemma FeatureDuplicate_init_Ok t c kwargs w :
  NoDup (dict_keys kwargs) ->
  "num_duplicates" ∉ dict_keys kwargs ->
  "features" ∉ dict_keys kwargs ->
  FeatureDuplicate_init t c kwargs w
  = Ok (length (heap w),
        with_heap w (heap w ++ [duplicate_node (length (heap w)) t c kwargs])).
Proof.
  intros Hnd Hn Hf. unfold FeatureDuplicate_init.
  rewrite (bind_Ok _ _ _ _ _ (new_object_Ok _ _)).
  rewrite (bind_Ok _ _ _ _ _
             (get_feature_Ok _ (with_heap w (heap w ++ [blank FeatureDuplicate])) _
                (lookup_fresh _ _))).
  unfold set_feature at 1. unfold bind at 1.
  cbn [heap with_heap]. rewrite insert_fresh.
  set (o := {| class := class (blank FeatureDuplicate); feature := Some t;
               path := path (blank FeatureDuplicate);
               properties := properties (blank FeatureDuplicate);
               has_updated_since_last_resolve :=
                 has_updated_since_last_resolve (blank FeatureDuplicate) |}).
  assert (Hkw : forall k, k ∈ dict_keys kwargs ->
                          k ∉ dict_keys [("num_duplicates", c);
                                         ("features",
                                          Sampled (duplicate_lambda (length (heap w)) t))]).
  { intros k Hk. unfold dict_keys. cbn [map fst].
    intros [->|[->|[]%elem_of_nil]%elem_of_cons]%elem_of_cons; contradiction. }
  change (with_heap (with_heap w (heap w ++ [blank FeatureDuplicate])) (heap w ++ [o]))
    with (with_heap w (heap w ++ [o])).
  rewrite (bind_Ok _ _ _ _ _ (keywords_Ok _ _ _ Hkw)).
  rewrite (bind_Ok _ _ _ _ _ (Feature_init_fresh _ _ _)).
  unfold ret. f_equal. f_equal. f_equal. f_equal. f_equal.
  unfold duplicate_node, with_flag, with_properties. subst o. cbn [class feature path properties blank].
  f_equal. cbn [app fold_left fst snd dict_set].
  change (String.eqb "features" "num_duplicates") with false. cbn iota.
  rewrite fold_dict_set_fresh; [reflexivity | assumption |].
  intros k Hk. cbn [dict_get].
  destruct (String.eqb k "num_duplicates") eqn:E1.
  { apply String.eqb_eq in E1. now subst. }
  destruct (String.eqb k "features") eqn:E2; [|reflexivity].
  apply String.eqb_eq in E2. now subst.
Qed.

Lemma plain_kwargs_properties (kwargs : dict rule) :
  forallb (fun kv => plain_rule (snd kv)) kwargs = true ->
  plain_properties (map (fun kv => (fst kv, Property_init (snd kv))) kwargs)
  = true.
Proof.
  unfold plain_properties.
  induction kwargs as [|[k r] kwargs IH]; [reflexivity|].
  cbn [forallb map fst snd]. intros H.
  apply andb_true_iff in H as [Hr H]. rewrite (IH H), andb_true_r.
  unfold plain_property, Property_init. cbn [sampling_rule current_value].
  rewrite Hr. destruct r as [v|s]; [exact Hr | reflexivity].
Qed.

(** A FeatureDuplicate as its constructor builds it follows its count:
    num_duplicates is declared before features, the lambda is closed over
    the new node, and the first update stores a list as long as the count
    it has just drawn. *)
Lemma constructed_duplicate_follows_the_count fuel t c kwargs n w r w' :
  NoDup (dict_keys kwargs) ->
  "num_duplicates" ∉ dict_keys kwargs ->
  "features" ∉ dict_keys kwargs ->
  plain_rule c = true ->
  forallb (fun kv => plain_rule (snd kv)) kwargs = true ->
  current_value
    (fst (resample_property (np_random w) (np_random_calls w)
                            (Property_init c))) = VInt n ->
  (0 <= n)%Z ->
  (let* d := FeatureDuplicate_init t c kwargs in Feature_update fuel d) w
  = Ok (r, w') ->
  exists o' l,
    heap w' !! length (heap w) = Some o' /\
    dict_keys (properties o')
    = "num_duplicates" :: "features" :: dict_keys kwargs /\
    kwarg "num_duplicates" (current_value_dict (properties o')) = VInt n /\
    kwarg "features" (current_value_dict (properties o')) = VFeatures l /\
    Z.of_nat (length l) = n.
Proof.
  intros Hnd Hnum Hfeat Hc Hkw Hn Hpos H.
  rewrite (bind_Ok _ _ _ _ _ (FeatureDuplicate_init_Ok t c kwargs w Hnd Hnum Hfeat))
    in H.
  set (self := length (heap w)) in *.
  set (w1 := with_heap w (heap w ++ [duplicate_node self t c kwargs])) in *.
  destruct (duplicates_follow_the_count fuel w1 self t
              (duplicate_node self t c kwargs) (Property_init c)
              (Property_init (Sampled (duplicate_lambda self t)))
              (map (fun kv => (fst kv, Property_init (snd kv))) kwargs) n)
    as [Hup _];
    [apply lookup_fresh | reflexivity | reflexivity | reflexivity | exact Hc
     | exact Hn | exact Hpos | now apply plain_kwargs_properties |].
  destruct (Hup r w' H) as (o' & l & Ho' & Hkeys & Hrest).
  exists o', l. split; [exact Ho'|]. split; [|exact Hrest].
  rewrite Hkeys. unfold dict_keys. now rewrite map_map.
Qed.

(** C1, on the code. The count is not followed by a FeatureDuplicate that
    is a deep copy: copy.deepcopy keeps the lambda, which stays closed
    over the node it was made for.  After a round of [D = A ** count]
    (count 2, replicas 2 and 3), the update of [E = D ** 1] copies D to
    the object 5 and updates the copy: its own num_duplicates is drawn
    anew, 3, but its list is made by the lambda of D, which reads the
    count of D: two features. *)
Theorem copied_duplicate_reads_the_original_count :
  exists w',
    nested_duplicate_scenario = Ok (4, w') /\
    snapshot_at w' 1
    = Some [("num_duplicates", VInt 2); ("features", VFeatures [2; 3])] /\
    snapshot_at w' 4
    = Some [("num_duplicates", VInt 1); ("features", VFeatures [5])] /\
    rules_at w' 5
    = Some [("num_duplicates", sampled_value);
            ("features", Sampled (duplicate_lambda 1 0))] /\
    snapshot_at w' 5
    = Some [("num_duplicates", VInt 3); ("features", VFeatures [9; 10])].
Proof.
  eexists. split; [vm_compute; reflexivity|].
  repeat split; vm_compute; reflexivity.
Qed.

(** ** [Load] *)

(** A yield counts. *)
Lemma generator_next_counts fuel self g k :
  forall w z w',
    generators w !! g = Some k ->
    generator_next fuel self g w = Ok (z, w') ->
    generators w' !! g = Some (S k).
Proof.
  induction fuel as [|fuel IH]; intros w z w' Hk H; [discriminate|].
  cbn [generator_next] in H. rewrite Hk in H.
  destruct (buffers w !! g) as [[|z0 rest]|] eqn:Hb; [| |discriminate].
  - apply bind_inv in H as (u & w1 & Hfile & H).
    apply Load_next_file_inv in Hfile as (_ & _ & _ & _ & Hgens).
    apply (IH _ _ _ (eq_trans (f_equal (fun l => l !! g) Hgens) Hk) H).
  - inversion H; subst. cbn. apply list_lookup_insert_eq.
    now apply lookup_lt_Some in Hk.
Qed.


Lemma same_stream_sym self w1 w2 :
  same_stream self w1 w2 -> same_stream self w2 w1.
Proof. unfold same_stream. intros (? & ? & ? & ? & ?). repeat split; congruence. Qed.





(** One round of a Load: the update asks the generator for an item, the
    resolve adds it. *)
Lemma Load_round fuel self g k w image z wg :
  is_Load w self g k ->
  generator_next fuel self g w = Ok (z, wg) ->
  exists w',
    round (S fuel) self image w
    = Ok (Image_append (Image_add image z) [("loaded_image", VArray z)], w') /\
    is_Load w' self g (S k) /\
    same_stream self wg w'.
Proof.
  intros (o & v & Ho & Hc & Hp & Hf & Hg) Hnext.
  set (update := Feature_update fuel).
  set (sample := run_sampler update (copy_deepcopy fuel) (generator_next fuel)).
  pose proof (generator_next_keeps _ _ _ _ _ _ Hnext) as (Hheap & _).
  pose proof (generator_next_counts _ _ _ _ _ _ _ Hg Hnext) as Hg'.
  assert (Hog : heap wg !! self = Some o) by now rewrite Hheap.
  set (o1 := with_properties o
               [("loaded_image",
                 {| sampling_rule := Sampled (loaded_images self g);
                    current_value := VArray z |})]).
  set (w1 := with_heap wg (<[self := o1]> (heap wg))).
  set (w2 := with_heap w1 (<[self := with_flag o1 true]> (heap w1))).
  set (w3 := with_heap w2 (<[self := with_flag o1 false]> (heap w2))).
  assert (Hs : sample (loaded_images self g) w = Ok (VArray z, wg)).
  { subst sample. cbn [run_sampler]. now rewrite (bind_Ok _ _ _ _ _ Hnext). }
  assert (H1 : Property_update sample self 0 w = Ok (tt, w1)).
  { unfold Property_update.
    rewrite (bind_Ok _ _ _ _ _ (get_feature_Ok _ _ _ Ho)).
    rewrite Hp. cbn [lookup list_lookup snd fst sampling_rule].
    rewrite (bind_Ok _ _ _ _ _ Hs).
    rewrite (bind_Ok _ _ _ _ _ (get_feature_Ok _ wg _ Hog)).
    unfold set_feature. now rewrite Hp. }
  assert (Ho1 : heap w1 !! self = Some o1).
  { subst w1. cbn [heap with_heap]. apply list_lookup_insert_eq.
    now apply lookup_lt_Some in Hog. }
  assert (H2 : forM_ [0] (Property_propagate update self) w1 = Ok (tt, w1)).
  { apply (propagate_nothing update self w1 o1 Ho1).
    intros i kp b Hi. subst o1. cbn [with_properties properties] in Hi.
    destruct i as [|i]; [|discriminate]. inversion Hi; subst kp. discriminate. }
  assert (Hup : Feature_update (S fuel) self w = Ok (self, w2)).
  { cbn [Feature_update]. unfold Feature_update_body. fold update sample.
    rewrite (bind_Ok _ _ _ _ _ (get_feature_Ok _ _ _ Ho)). rewrite Hf.
    cbn [negb].
    assert (Hall : PropertyDict_update sample update self w = Ok (tt, w1)).
    { unfold PropertyDict_update.
      rewrite (bind_Ok _ _ _ _ _ (get_feature_Ok _ _ _ Ho)).
      rewrite Hp. cbn [length seq].
      assert (Hres : forM_ [0] (Property_update sample self) w = Ok (tt, w1)).
      { cbn [forM_]. now rewrite (bind_Ok _ _ _ _ _ H1). }
      now rewrite (bind_Ok _ _ _ _ _ Hres). }
    rewrite (bind_Ok _ _ _ _ _ Hall).
    now rewrite (bind_Ok _ _ _ _ _ (set_flag_Ok _ true _ _ Ho1)). }
  assert (Ho2 : heap w2 !! self = Some (with_flag o1 true)).
  { subst w2. cbn [heap with_heap]. apply list_lookup_insert_eq.
    now apply lookup_lt_Some in Ho1. }
  exists w3. split; [|split].
  - unfold round. rewrite (bind_Ok _ _ _ _ _ Hup).
    cbn [Feature_resolve]. unfold Feature_resolve_body.
    rewrite (bind_Ok _ _ _ _ _ (get_feature_Ok _ _ _ Ho2)).
    cbn [with_flag with_properties class properties o1]. rewrite Hc.
    cbn [Feature_get current_value_dict map fst snd current_value].
    assert (Hget : Load_get image [("loaded_image", VArray z)] w2
                   = Ok (Image_add image z, w2)) by reflexivity.
    rewrite (bind_Ok _ _ _ _ _ Hget).
    now rewrite (bind_Ok _ _ _ _ _ (set_flag_Ok _ false _ _ Ho2)).
  - exists (with_flag o1 false), (VArray z).
    split; [|split; [|split; [|split]]].
    + subst w3. cbn [heap with_heap]. apply list_lookup_insert_eq.
      now apply lookup_lt_Some in Ho2.
    + exact Hc.
    + reflexivity.
    + reflexivity.
    + exact Hg'.
  - unfold same_stream. cbn.
    split; [reflexivity|]. split; [reflexivity|]. split; [reflexivity|].
    split; [reflexivity|].
    rewrite list_lookup_insert_eq
      by (rewrite !length_insert; now apply lookup_lt_Some in Hog).
    now rewrite Hog.
Qed.

(** An exception of the generator (no file found, a file that does not
    load) is the exception of the update, and so of the round. *)
Lemma Load_update_raises fuel self g k w e :
  is_Load w self g k ->
  generator_next fuel self g w = Raise e ->
  Feature_update (S fuel) self w = Raise e.
Proof.
  intros (o & v & Ho & Hc & Hp & Hf & Hg) Hnext.
  cbn [Feature_update]. unfold Feature_update_body.
  rewrite (bind_Ok _ _ _ _ _ (get_feature_Ok _ _ _ Ho)). rewrite Hf.
  cbn [negb]. unfold bind at 1. unfold PropertyDict_update.
  rewrite (bind_Ok _ _ _ _ _ (get_feature_Ok _ _ _ Ho)).
  rewrite Hp. cbn [length seq forM_]. unfold bind at 1, bind at 1.
  unfold Property_update.
  rewrite (bind_Ok _ _ _ _ _ (get_feature_Ok _ _ _ Ho)).
  rewrite Hp. cbn [lookup list_lookup snd fst sampling_rule run_sampler].
  unfold bind at 1, bind at 1. now rewrite Hnext.
Qed.

Lemma Load_round_raises fuel self g k w image e :
  is_Load w self g k ->
  generator_next fuel self g w = Raise e ->
  round (S fuel) self image w = Raise e.
Proof.
  intros Hload Hnext. unfold round, bind.
  now rewrite (Load_update_raises _ _ _ _ _ _ Hload Hnext).
Qed.



(** What [Load(path)] builds: no file is looked at and nothing is drawn at
    construction. *)
Lemma Load_init_Ok path_ w :
  Load_init path_ w
  = Ok (length (heap w),
        {| heap := heap w ++
                   [load_node (length (heap w)) path_ (length (generators w))];
           np_random := np_random w; np_random_calls := np_random_calls w;
           dataset := dataset w; generators := generators w ++ [O];
           buffers := buffers w ++ [[]] |}).
Proof.
  unfold Load_init, Load_next, new_generator, Feature_init, new_object,
    get_feature, set_feature, bind, ret.
  repeat (cbn [heap with_heap np_random np_random_calls dataset generators
               buffers];
          first [rewrite lookup_fresh | rewrite insert_fresh]).
  reflexivity.
Qed.

Lemma Load_init_is_Load path_ w self w' :
  Load_init path_ w = Ok (self, w') ->
  is_Load w' self (length (generators w)) 0.
Proof.
  rewrite Load_init_Ok. intros H. inversion H; subst. clear H.
  eexists _, _. cbn [heap generators].
  split; [apply lookup_fresh|].
  split; [reflexivity|]. split; [reflexivity|]. split; [reflexivity|].
  now rewrite list_lookup_middle.
Qed.

(** ** Sequences *)

Lemma FeatureBranch_init_Ok F1 F2 w :
  FeatureBranch_init F1 F2 [] w
  = Ok (length (heap w), with_heap w (heap w ++ [branch_node F1 F2])).
Proof.
  unfold FeatureBranch_init.
  rewrite (bind_Ok _ _ _ _ _ (new_object_Ok _ _)).
  unfold keywords. cbn [dict_keys map forallb]. unfold bind at 1, ret at 1.
  rewrite (bind_Ok _ _ _ _ _ (Feature_init_fresh _ _ _)).
  reflexivity.
Qed.

(** C4, as the code has it. Resolving [A + B] on the image 0, A adding 1
    and B adding 2, returns 3; A is applied before B, and the trail of the
    result holds the snapshot of A, then the snapshot of B, then the
    snapshot of the sequence itself, which its own resolve appends. *)
Theorem sequence_scenario_trail :
  exists w',
    sequence_scenario
    = Ok ({| data := 3;
             image_properties :=
               [[("value", VInt 1)]; [("value", VInt 2)];
                [("feature_1", VFeature 0); ("feature_2", VFeature 1)]] |}, w') /\
    snapshot_at w' 0 = Some [("value", VInt 1)] /\
    snapshot_at w' 1 = Some [("value", VInt 2)] /\
    snapshot_at w' 2
    = Some [("feature_1", VFeature 0); ("feature_2", VFeature 1)].
Proof.
  eexists. split; [vm_compute; reflexivity|].
  repeat split; vm_compute; reflexivity.
Qed.

(** The trail of scenario 1 is not the two snapshots of A and B alone. *)
Lemma sequence_trail_is_not_two_records :
  exists image w',
    sequence_scenario = Ok (image, w') /\
    data image = 3%Z /\
    image_properties image <> [[("value", VInt 1)]; [("value", VInt 2)]].
Proof.
  eexists _, _. split; [vm_compute; reflexivity|].
  split; [reflexivity|]. discriminate.
Qed.

(** A sequence applies its first feature and then its second, whatever
    they compute. *)
Lemma FeatureBranch_get_order fuel a b oa ob ga gb image ia ib props w :
  kwarg "feature_1" props = VFeature a ->
  kwarg "feature_2" props = VFeature b ->
  heap w !! a = Some oa -> class oa = UserFeature ga ->
  heap w !! b = Some ob -> class ob = UserFeature gb ->
  ga image (current_value_dict (properties oa)) = Some ia ->
  gb (Image_append ia (current_value_dict (properties oa)))
     (current_value_dict (properties ob)) = Some ib ->
  exists w',
    Feature_get (Feature_resolve (S fuel)) FeatureBranch image props w
    = Ok (Image_append ib (current_value_dict (properties ob)), w').
Proof.
  intros H1 H2 Ha Hca Hb Hcb Hga Hgb.
  assert (Hra : Feature_resolve (S fuel) a image w
                = Ok (Image_append ia (current_value_dict (properties oa)),
                      with_heap w (<[a := with_flag oa false]> (heap w)))).
  { destruct (Feature_resolve_Ok fuel a image w oa ia w Ha)
      as (o' & Ho' & Hr).
    - rewrite Hca. cbn [Feature_get]. now rewrite Hga.
    - rewrite Ha in Ho'. inversion Ho'; subst o'. exact Hr. }
  set (w1 := with_heap w (<[a := with_flag oa false]> (heap w))) in *.
  assert (Hb1 : exists ob', heap w1 !! b = Some ob' /\ class ob' = class ob /\
                            properties ob' = properties ob).
  { subst w1. cbn [heap with_heap]. destruct (decide (a = b)) as [->|Hne].
    - exists (with_flag oa false). rewrite Ha in Hb. inversion Hb; subst ob.
      split; [|now split]. apply list_lookup_insert_eq.
      now apply lookup_lt_Some in Ha.
    - exists ob. split; [|now split]. now rewrite list_lookup_insert_ne. }
  destruct Hb1 as (ob' & Hb1 & Hc' & Hp').
  destruct (Feature_resolve_Ok fuel b
              (Image_append ia (current_value_dict (properties oa))) w1 ob' ib w1 Hb1)
    as (o' & Ho' & Hr).
  { rewrite Hc', Hcb, Hp'. cbn [Feature_get]. now rewrite Hgb. }
  eexists. cbn [Feature_get]. unfold FeatureBranch_get.
  rewrite H1, H2. cbn [resolve_value].
  rewrite (bind_Ok _ _ _ _ _ Hra). rewrite (bind_Ok _ _ _ _ _ Hr).
  rewrite Hp'. reflexivity.
Qed.

(** ** Replicas *)

Lemma replicas_of_updated_template rnd k o n :
  has_updated_since_last_resolve o = true ->
  replicas_plain rnd k o n = (replicate n o, k).
Proof.
  intros Hf. induction n as [|n IH]; [reflexivity|].
  cbn [replicas_plain replicate]. unfold update_plain. rewrite Hf.
  cbn [fst snd]. now rewrite IH.
Qed.

(** The replicas are new objects, each its own, and nothing that was
    there before is touched by making them. *)
Lemma replicas_are_new_objects fuel t o n w :
  heap w !! t = Some o ->
  plain_feature o = true ->
  exists l w',
    repeatM n (let* c := copy_deepcopy (S fuel) t in Feature_update (S fuel) c) w
    = Ok (l, w') /\
    length l = n /\
    NoDup l /\
    (forall c, c ∈ l -> length (heap w) <= c /\ is_Some (heap w' !! c)) /\
    (forall a, a < length (heap w) -> heap w' !! a = heap w !! a).
Proof.
  intros Ho Hplain.
  pose proof (replicas_loop fuel fuel t o Hplain n w Ho) as H. cbn zeta in H.
  eexists _, _. split; [exact H|].
  assert (Hlen : forall m k, length (fst (replicas_plain (np_random w) k o m)) = m).
  { induction m as [|m IH]; intros k; [reflexivity|].
    cbn [replicas_plain fst length]. now rewrite IH. }
  split; [apply length_seq|]. split; [apply NoDup_seq|]. split.
  - intros c Hc. apply elem_of_seq in Hc as [Hge Hlt]. split; [exact Hge|].
    cbn [heap with_calls with_heap]. apply lookup_lt_is_Some.
    rewrite length_app, Hlen. lia.
  - intros a Ha. cbn [heap with_calls with_heap]. now apply lookup_app_l.
Qed.

(** A template whose flag is set is copied with its flag: the update() of
    each copy finds the flag set and resamples nothing, so every replica
    is the template as it stands and the random source is not called. *)
Lemma replicas_of_an_updated_template next fuel self t o ot pc n w :
  heap w !! self = Some o ->
  dict_get "num_duplicates" (properties o) = Some pc ->
  current_value pc = VInt n ->
  heap w !! t = Some ot ->
  plain_feature ot = true ->
  has_updated_since_last_resolve ot = true ->
  run_sampler (Feature_update (S fuel)) (copy_deepcopy (S fuel)) next
              (duplicate_lambda self t) w
  = Ok (VFeatures (seq (length (heap w)) (Z.to_nat n)),
        with_heap w (heap w ++ replicate (Z.to_nat n) ot)).
Proof.
  intros Ho Hpc Hn Hot Hplain Hflag. cbn [run_sampler].
  unfold FeatureDuplicate_lambda.
  rewrite (bind_Ok _ _ _ _ _ (get_feature_Ok _ _ _ Ho)). rewrite Hpc, Hn.
  pose proof (replicas_loop fuel fuel t ot Hplain (Z.to_nat n) w Hot) as H.
  cbn zeta in H. rewrite (bind_Ok _ _ _ _ _ H).
  rewrite replicas_of_updated_template by assumption.
  cbn [fst snd]. reflexivity.
Qed.

(** C7, at a template that was updated before. After [A.update()] the
    update of [A ** 3] makes three new objects (2, 3 and 4), but each
    holds the value A drew, and the random source was called once in all:
    the update() of a copy found the copied flag set and did not resample. *)
Theorem updated_template_replicas_are_clones :
  observe duplicate_updated_template_scenario
  = Some (1,
          [(true, [("value", VInt 2)]);
           (true, [("num_duplicates", VInt 3); ("features", VFeatures [2; 3; 4])]);
           (true, [("value", VInt 2)]);
           (true, [("value", VInt 2)]);
           (true, [("value", VInt 2)])],
          1, []).
Proof. vm_compute. reflexivity. Qed.

(** The same within one pipeline, [A + A ** 3]: the update of the
    sequence updates A before it updates the FeatureDuplicate. *)
Example shared_template_replicas_are_clones :
  observe shared_template_scenario
  = Some (2,
          [(true, [("value", VInt 2)]);
           (true, [("num_duplicates", VInt 3); ("features", VFeatures [3; 4; 5])]);
           (true, [("feature_1", VFeature 0); ("feature_2", VFeature 1)]);
           (true, [("value", VInt 2)]);
           (true, [("value", VInt 2)]);
           (true, [("value", VInt 2)])],
          1, []).
Proof. vm_compute. reflexivity. Qed.

(** The same template, not updated before it is duplicated: each replica
    makes its own draw. *)
Example fresh_template_replicas_differ :
  observe duplicate_scenario
  = Some (1,
          [(false, [("value", VNone)]);
           (true, [("num_duplicates", VInt 3); ("features", VFeatures [2; 3; 4])]);
           (true, [("value", VInt 2)]);
           (true, [("value", VInt 3)]);
           (true, [("value", VInt 4)])],
          3, []).
Proof. vm_compute. reflexivity. Qed.

(** ** A Load behind another feature *)

Lemma Load_setParent_raises self F w :
  Load_setParent self F w
  = Raise (Exception
      "The Load class cannot have a parent. For literal addition, use the Add class").
Proof. reflexivity. Qed.

(** C8, on the code. [a + Load(path)] is built without an exception: the
    result is a FeatureBranch whose second feature is the Load.  Nothing
    in the construction calls setParent. *)
Theorem Load_accepted_as_second_feature a path_ w :
  (let* l := Load_init path_ in Feature_add a (Constant (VFeature l))) w
  = Ok (S (length (heap w)),
        {| heap := heap w ++
                   [load_node (length (heap w)) path_ (length (generators w));
                    branch_node (Constant (VFeature a))
                                (Constant (VFeature (length (heap w))))];
           np_random := np_random w; np_random_calls := np_random_calls w;
           dataset := dataset w; generators := generators w ++ [O];
           buffers := buffers w ++ [[]] |}).
Proof.
  rewrite (bind_Ok _ _ _ _ _ (Load_init_Ok _ _)).
  unfold Feature_add. rewrite FeatureBranch_init_Ok.
  cbn [heap with_heap]. rewrite length_app. cbn [length].
  rewrite Nat.add_1_r, <- app_assoc. reflexivity.
Qed.

(** In a round the Load then adds its image to what the first feature
    returned. *)
Example load_after_scenario_runs :
  observe load_after_scenario
  = Some ({| data := 3;
             image_properties :=
               [[("value", VInt 1)]; [("loaded_image", VArray 2)];
                [("feature_1", VFeature 0); ("feature_2", VFeature 1)]] |},
          [(false, [("value", VInt 1)]);
           (false, [("loaded_image", VArray 2)]);
           (false, [("feature_1", VFeature 0); ("feature_2", VFeature 1)])],
          2, [1]).
Proof. vm_compute. reflexivity. Qed.

(** ** The statements at work on [example_world] *)

Lemma duplicates_follow_the_count_witness :
  (forall r w',
      Feature_update 2 1 example_world = Ok (r, w') ->
      exists o' l,
        heap w' !! 1 = Some o' /\
        dict_keys (properties o') = ["num_duplicates"; "features"] /\
        kwarg "num_duplicates" (current_value_dict (properties o')) = VInt 2 /\
        kwarg "features" (current_value_dict (properties o')) = VFeatures l /\
        Z.of_nat (length l) = 2%Z) /\
  (forall ot,
      heap example_world !! 0 = Some ot -> plain_feature ot = true -> 2 <= 2 ->
      exists w', Feature_update 2 1 example_world = Ok (1, w')).
Proof.
  apply (duplicates_follow_the_count 2 example_world 1 0 duplicate_example
           {| sampling_rule := sampled_value; current_value := VInt 7 |}
           {| sampling_rule := Sampled (duplicate_lambda 1 0);
              current_value := VFeatures [] |}
           [] 2);
    first [reflexivity | lia].
Defined.

Lemma update_twice_is_update_once_witness :
  exists w',
    Feature_update 2 0 example_world = Ok (0, w') /\
    Feature_update 1 0 w' = Ok (0, w') /\
    (Feature_update 2 0 ;; Feature_update 1 0) example_world
    = Feature_update 2 0 example_world.
Proof.
  eexists. split; [vm_compute; reflexivity|].
  apply (update_twice_is_update_once 2 0 0 example_world 0).
  vm_compute. reflexivity.
Defined.

Lemma resolve_applies_appends_and_clears_witness :
  exists o',
    heap example_world !! 4 = Some o' /\
    Feature_resolve 1 4 (mkImage 5 []) example_world
    = Ok (Image_append (mkImage 8 []) [("loaded_image", VArray 3)],
          with_heap example_world
            (<[4 := with_flag o' false]> (heap example_world))) /\
    snapshot_at example_world 4 = Some [("loaded_image", VArray 3)] /\
    last (image_properties
            (Image_append (mkImage 8 []) [("loaded_image", VArray 3)]))
    = Some [("loaded_image", VArray 3)] /\
    snapshot_at
      (with_heap example_world
         (<[4 := with_flag o' false]> (heap example_world))) 4
    = snapshot_at example_world 4 /\
    (forall o'',
        heap (with_heap example_world
                (<[4 := with_flag o' false]> (heap example_world))) !! 4
        = Some o'' ->
        has_updated_since_last_resolve o'' = false).
Proof.
  apply (resolve_applies_appends_and_clears 0 4 (mkImage 5 []) example_world
           (with_properties (load_node 4 "data" 0)
              [("loaded_image",
                {| sampling_rule := Sampled (loaded_images 4 0);
                   current_value := VArray 3 |})])
           (mkImage 8 []) example_world); reflexivity.
Defined.

Lemma probability_get_threshold_witness :
  ((1 # 4 < 1 # 2)%Q ->
     forall w, Feature_get (Feature_resolve 1) FeatureProbability (mkImage 5 [])
                 example_snapshot w
               = Feature_resolve 1 2 (mkImage 5 []) w) /\
  (~ (1 # 4 < 1 # 2)%Q ->
     forall w, Feature_get (Feature_resolve 1) FeatureProbability (mkImage 5 [])
                 example_snapshot w
               = Ok (mkImage 5 [], w)) /\
  (Qeq (1 # 2) 0 ->
     forall w, Feature_get (Feature_resolve 1) FeatureProbability (mkImage 5 [])
                 example_snapshot w
               = Ok (mkImage 5 [], w)) /\
  (Qeq (1 # 2) 1 ->
     forall w, Feature_get (Feature_resolve 1) FeatureProbability (mkImage 5 [])
                 example_snapshot w
               = Feature_resolve 1 2 (mkImage 5 []) w).
Proof.
  apply (probability_get_threshold (Feature_resolve 1) (mkImage 5 [])
           example_snapshot 2 (1 # 2) (1 # 4));
    first [reflexivity | unfold Qle; cbn; lia].
Defined.


Lemma mul_commutes_witness :
  mul_expr (Constant (VFeature 2)) (Constant (VFloat (1 # 2))) example_world
  = mul_expr (Constant (VFloat (1 # 2))) (Constant (VFeature 2)) example_world /\
  mul_expr (Constant (VFloat (1 # 2))) (Constant (VFeature 2)) example_world
  = Ok (length (heap example_world),
        with_heap example_world
          (heap example_world ++
           [probability_node (Constant (VFeature 2)) (Constant (VFloat (1 # 2)))])).
Proof.
  apply (mul_commutes 2 (Constant (VFloat (1 # 2)))). reflexivity.
Defined.

(** * Further properties of the code *)

(** ** [resolve] only clears flags *)

Lemma cleared_refl o : cleared o o.
Proof. unfold cleared. tauto. Qed.

Lemma cleared_trans o1 o2 o3 : cleared o1 o2 -> cleared o2 o3 -> cleared o1 o3.
Proof.
  unfold cleared. intros (c1 & f1 & p1 & d1 & b1) (c2 & f2 & p2 & d2 & b2).
  repeat split; try congruence. tauto.
Qed.

Lemma only_flags_cleared_refl w : only_flags_cleared w w.
Proof.
  unfold only_flags_cleared. repeat split.
  intros a o Ho. exists o. split; [assumption | apply cleared_refl].
Qed.

Lemma only_flags_cleared_trans w1 w2 w3 :
  only_flags_cleared w1 w2 -> only_flags_cleared w2 w3 ->
  only_flags_cleared w1 w3.
Proof.
  intros (r1 & c1 & d1 & g1 & b1 & l1 & h1) (r2 & c2 & d2 & g2 & b2 & l2 & h2).
  unfold only_flags_cleared.
  split; [congruence|]. split; [congruence|]. split; [congruence|].
  split; [congruence|]. split; [congruence|]. split; [congruence|].
  intros a o Ho. destruct (h1 a o Ho) as (o2 & Ho2 & Hc2).
  destruct (h2 a o2 Ho2) as (o3 & Ho3 & Hc3).
  exists o3. split; [assumption | now apply (cleared_trans o o2)].
Qed.

Lemma respects_ret {A} (x : A) : respects only_flags_cleared (ret x).
Proof.
  intros w y w' H. apply ret_inv in H as [_ ->]. apply only_flags_cleared_refl.
Qed.

Lemma respects_raise {A} e : respects only_flags_cleared (@raise A e).
Proof. intros w y w' H. discriminate. Qed.

Lemma respects_bind {A B} (m : M A) (k : A -> M B) :
  respects only_flags_cleared m ->
  (forall x, respects only_flags_cleared (k x)) ->
  respects only_flags_cleared (bind m k).
Proof.
  intros Hm Hk w y w' H. apply bind_inv in H as (x & w1 & H1 & H2).
  eapply only_flags_cleared_trans; [eapply Hm | eapply Hk]; eassumption.
Qed.

Lemma respects_foldM {A B} (f : B -> A -> M B) l :
  (forall b x, respects only_flags_cleared (f b x)) ->
  forall b, respects only_flags_cleared (foldM f b l).
Proof.
  intros Hf. induction l as [|x l IH]; intros b; cbn [foldM].
  - apply respects_ret.
  - apply respects_bind; [apply Hf | intros b'; apply IH].
Qed.

Lemma respects_get_feature a : respects only_flags_cleared (get_feature a).
Proof.
  intros w o w' H. apply get_feature_inv in H as [_ ->].
  apply only_flags_cleared_refl.
Qed.

Lemma respects_clear_flag a : respects only_flags_cleared (set_flag a false).
Proof.
  intros w u w' H. apply set_flag_inv in H as (o & Ho & ->).
  unfold only_flags_cleared. rewrite with_heap_heap, length_insert.
  repeat split.
  intros b ob Hb. destruct (decide (a = b)) as [->|Hne].
  - rewrite Ho in Hb. inversion Hb; subst ob.
    exists (with_flag o false). split; [now apply lookup_set_flag|].
    unfold cleared. cbn. repeat split. discriminate.
  - exists ob. rewrite list_lookup_insert_ne by assumption.
    split; [assumption | apply cleared_refl].
Qed.

Lemma respects_resolve_value resolve v image :
  (forall a i, respects only_flags_cleared (resolve a i)) ->
  respects only_flags_cleared (resolve_value resolve v image).
Proof.
  intros H. destruct v; cbn [resolve_value];
    first [apply H | apply respects_raise].
Qed.

Lemma respects_Feature_get resolve cls image props :
  (forall a i, respects only_flags_cleared (resolve a i)) ->
  respects only_flags_cleared (Feature_get resolve cls image props).
Proof.
  intros H. destruct cls as [g| | | |]; cbn [Feature_get].
  - destruct (g image props); [apply respects_ret | apply respects_raise].
  - unfold FeatureBranch_get.
    apply respects_bind; [now apply respects_resolve_value|]. intros i1.
    apply respects_bind; [now apply respects_resolve_value|]. intros i2.
    apply respects_ret.
  - unfold FeatureProbability_get. apply respects_bind.
    + unfold less_than.
      destruct (number _); [|apply respects_raise].
      destruct (number _); [apply respects_ret | apply respects_raise].
    + intros [|]; [now apply respects_resolve_value | apply respects_ret].
  - unfold FeatureDuplicate_get.
    destruct (kwarg "features" props); try apply respects_raise.
    apply respects_foldM. intros b x. apply H.
  - unfold Load_get.
    destruct (kwarg "loaded_image" props);
      first [apply respects_ret | apply respects_raise].
Qed.

(** X1. A resolve never resamples: when it returns, every object has the
    class, the attributes and the properties it had, values included, the
    random source and the generators are where they were, and no object
    was made or lost.  All it does to the store is clear flags. *)
Theorem resolve_only_clears_flags fuel :
  forall self image w image' w',
    Feature_resolve fuel self image w = Ok (image', w') ->
    only_flags_cleared w w'.
Proof.
  induction fuel as [|fuel IH]; intros self image w image' w' H.
  - discriminate.
  - revert H. cbn [Feature_resolve]. unfold Feature_resolve_body.
    apply (respects_bind (get_feature self)); [apply respects_get_feature|].
    intros o. apply respects_bind.
    { apply respects_Feature_get. intros a i w1 x w2. apply IH. }
    intros i'. apply respects_bind; [apply respects_clear_flag|].
    intros u. apply respects_ret.
Qed.

(** ** [update] keeps every object and the shape of its bag *)

Lemma same_shape_refl o : same_shape o o.
Proof. unfold same_shape. tauto. Qed.

Lemma same_shape_trans o1 o2 o3 :
  same_shape o1 o2 -> same_shape o2 o3 -> same_shape o1 o3.
Proof.
  unfold same_shape. intros (c1 & f1 & p1 & r1) (c2 & f2 & p2 & r2).
  repeat split; congruence.
Qed.

Lemma same_shape_with_flag o b : same_shape o (with_flag o b).
Proof. unfold same_shape. cbn. tauto. Qed.

Lemma rules_insert d i k r v :
  rules d !! i = Some (k, r) ->
  rules (<[i := (k, {| sampling_rule := r; current_value := v |})]> d) = rules d.
Proof.
  intros H. unfold rules in *. rewrite list_fmap_insert. cbn [fst snd sampling_rule].
  now apply list_insert_id.
Qed.

Lemma rules_lookup d i kp :
  d !! i = Some kp -> rules d !! i = Some (fst kp, sampling_rule (snd kp)).
Proof. intros H. unfold rules. now rewrite list_lookup_fmap, H. Qed.

Lemma rules_keys d : map fst (rules d) = dict_keys d.
Proof.
  unfold rules, dict_keys. rewrite map_map. now apply map_ext.
Qed.

Lemma same_shape_keys o o' :
  same_shape o o' -> dict_keys (properties o') = dict_keys (properties o).
Proof.
  intros (_ & _ & _ & H). now rewrite <- !rules_keys, H.
Qed.

Lemma grows_from_refl w : grows_from w w.
Proof.
  unfold grows_from. split; [lia|]. split.
  { intros a o Ho. exists o. split; [assumption | apply same_shape_refl]. }
  split; [lia|]. split; [reflexivity|]. split; [reflexivity|].
  intros g k Hg. exists k. split; [assumption | lia].
Qed.

Section Shapes.
Variables (w0 : World) (N : nat).

Let J (w : World) : Prop := grows_from w0 w /\ N <= length (heap w).

Lemma shapes_same_heap w w' :
  heap w' = heap w -> np_random w' = np_random w -> dataset w' = dataset w ->
  np_random_calls w <= np_random_calls w' ->
  (forall g k, generators w !! g = Some k ->
               exists k', generators w' !! g = Some k' /\ k <= k') ->
  J w -> J w'.
Proof.
  intros Hh Hr Hd Hc Hg ((Hlen & Hobj & Hcalls & Hrnd & Hds & Hgen) & HN).
  unfold J, grows_from. rewrite Hh, Hr, Hd.
  split; [|assumption]. split; [assumption|]. split; [assumption|].
  split; [lia|]. split; [assumption|]. split; [assumption|].
  intros g k Hk. destruct (Hgen g k Hk) as (k1 & Hk1 & Hle).
  destruct (Hg g k1 Hk1) as (k2 & Hk2 & Hle2). exists k2. split; [assumption|lia].
Qed.

Lemma shapes_new_object w o : J w -> J (with_heap w (heap w ++ [o])).
Proof.
  intros ((Hlen & Hobj & Hrest) & HN). unfold J, grows_from.
  rewrite with_heap_heap, length_app. cbn [length].
  split; [|lia]. split; [lia|]. split; [|exact Hrest].
  intros a oa Ha. destruct (Hobj a oa Ha) as (o' & Ho' & Hs).
  exists o'. split; [|assumption].
  rewrite lookup_app_l; [assumption | now apply lookup_lt_Some in Ho'].
Qed.

Lemma shapes_set_new w a o :
  length (heap w0) <= a -> J w -> J (with_heap w (<[a := o]> (heap w))).
Proof.
  intros Ha ((Hlen & Hobj & Hrest) & HN). unfold J, grows_from.
  rewrite with_heap_heap, length_insert.
  split; [|assumption]. split; [assumption|]. split; [|exact Hrest].
  intros b ob Hb. destruct (Hobj b ob Hb) as (o' & Ho' & Hs).
  exists o'. split; [|assumption].
  rewrite list_lookup_insert_ne; [assumption|].
  apply lookup_lt_Some in Hb. lia.
Qed.

Lemma shapes_set_same w a oc o :
  heap w !! a = Some oc -> same_shape oc o ->
  J w -> J (with_heap w (<[a := o]> (heap w))).
Proof.
  intros Hoc Hsame ((Hlen & Hobj & Hrest) & HN). unfold J, grows_from.
  rewrite with_heap_heap, length_insert.
  split; [|assumption]. split; [assumption|]. split; [|exact Hrest].
  intros b ob Hb. destruct (Hobj b ob Hb) as (o' & Ho' & Hs).
  destruct (decide (a = b)) as [->|Hne].
  - rewrite Hoc in Ho'. inversion Ho'; subst o'.
    exists o. split; [|now apply (same_shape_trans ob oc)].
    apply list_lookup_insert_eq. now apply lookup_lt_Some in Hoc.
  - exists o'. split; [|assumption]. now rewrite list_lookup_insert_ne.
Qed.

Lemma shapes_hoare_set_flag a b : hoare J (set_flag a b) (fun _ => J).
Proof.
  intros w u w' HJ H. apply set_flag_inv in H as (o & Ho & ->).
  apply (shapes_set_same w a o); [assumption | apply same_shape_with_flag | assumption].
Qed.

Lemma shapes_hoare_rand : hoare J rand (fun _ => J).
Proof.
  intros w q w' HJ H. unfold rand in H. inversion H; subst. clear H.
  apply (shapes_same_heap w);
    [reflexivity | reflexivity | reflexivity | cbn; lia | | assumption].
  intros g k Hg. exists k. split; [assumption|lia].
Qed.

Lemma shapes_hoare_generator_next fuel self g :
  hoare J (generator_next fuel self g) (fun _ => J).
Proof.
  intros w v w' HJ H.
  apply generator_next_keeps in H as (Hh & Hr & Hd & Hc & Hg).
  now apply (shapes_same_heap w).
Qed.

Section ShapesCopy.
Variable rec : addr -> memo -> M (addr * memo).
Hypothesis Hrec : forall a m, hoare J (rec a m) (fun _ => J).

Lemma shapes_deepcopy_list l :
  forall m, hoare J (deepcopy_list rec l m) (fun _ => J).
Proof.
  induction l as [|a l IH]; intros m; cbn [deepcopy_list].
  - now apply hoare_ret.
  - eapply hoare_bind; [apply Hrec|]. intros r.
    eapply hoare_bind; [apply IH|]. intros rs. now apply hoare_ret.
Qed.

Lemma shapes_deepcopy_value v m :
  hoare J (deepcopy_value rec v m) (fun _ => J).
Proof.
  destruct v; cbn [deepcopy_value]; try (now apply hoare_ret).
  - eapply hoare_bind; [apply Hrec|]. intros r. now apply hoare_ret.
  - eapply hoare_bind; [apply shapes_deepcopy_list|]. intros r.
    now apply hoare_ret.
Qed.

Lemma shapes_deepcopy_rule r m :
  hoare J (deepcopy_rule rec r m) (fun _ => J).
Proof.
  destruct r as [v|s]; cbn [deepcopy_rule].
  - eapply hoare_bind; [apply shapes_deepcopy_value|]. intros c.
    now apply hoare_ret.
  - destruct s; first [apply hoare_raise | now apply hoare_ret].
Qed.

Lemma shapes_deepcopy_properties d :
  forall m, hoare J (deepcopy_properties rec d m) (fun _ => J).
Proof.
  induction d as [|[name p] d IH]; intros m; cbn [deepcopy_properties].
  - now apply hoare_ret.
  - eapply hoare_bind; [apply shapes_deepcopy_rule|]. intros r.
    eapply hoare_bind; [apply shapes_deepcopy_value|]. intros c.
    eapply hoare_bind; [apply IH|]. intros rest. now apply hoare_ret.
Qed.

(** The part of a deep copy that comes after the new object is made. *)
Lemma shapes_deepcopy_fill o a' m :
  length (heap w0) <= a' ->
  hoare J
    (let* f := match feature o with
               | Some t => let* r := rec t m in ret (Some (fst r), snd r)
               | None => ret (None, m)
               end in
     let* ps := deepcopy_properties rec (properties o) (snd f) in
     set_feature a'
       {| class := class o; feature := fst f; path := path o;
          properties := fst ps;
          has_updated_since_last_resolve := has_updated_since_last_resolve o |} ;;
     ret (a', snd ps))
    (fun _ => J).
Proof.
  intros Ha'. eapply hoare_bind with (Q := fun _ => J).
  { destruct (feature o) as [t0|]; [|now apply hoare_ret].
    eapply hoare_bind; [apply Hrec|]. intros r. now apply hoare_ret. }
  intros f. eapply hoare_bind; [apply shapes_deepcopy_properties|]. intros ps.
  eapply hoare_bind with (Q := fun _ => J); [|intros u; now apply hoare_ret].
  intros w u w' HJ H. unfold set_feature in H. inversion H; subst.
  now apply shapes_set_new.
Qed.

Lemma shapes_deepcopy_feature_body a m :
  hoare J (deepcopy_feature_body rec a m) (fun _ => J).
Proof.
  unfold deepcopy_feature_body.
  destruct (memo_get a m) as [a'|]; [now apply hoare_ret|].
  intros w x w' HJ H.
  apply bind_inv in H as (o & w1 & Hg & H).
  apply get_feature_inv in Hg as [Ho ->].
  apply bind_inv in H as (a' & w1 & Hn & H).
  rewrite new_object_Ok in Hn. inversion Hn; subst a' w1. clear Hn.
  eapply (shapes_deepcopy_fill o (length (heap w)) ((a, length (heap w)) :: m));
    [| |exact H].
  - destruct HJ as ((Hlen & _) & _). exact Hlen.
  - now apply shapes_new_object.
Qed.
End ShapesCopy.

Lemma shapes_deepcopy_feature fuel :
  forall a m, hoare J (deepcopy_feature fuel a m) (fun _ => J).
Proof.
  induction fuel as [|fuel IH]; intros a m.
  - intros w x w' _ H. discriminate.
  - cbn [deepcopy_feature]. now apply shapes_deepcopy_feature_body.
Qed.

Lemma shapes_copy_deepcopy fuel a :
  hoare J (copy_deepcopy fuel a) (fun _ => J).
Proof.
  unfold copy_deepcopy.
  eapply hoare_bind; [apply shapes_deepcopy_feature|]. intros r.
  now apply hoare_ret.
Qed.

Section ShapesUpdate.
Variables (update deepcopy : addr -> M addr) (next : addr -> nat -> M Z).
Hypothesis Hupdate : forall c, hoare J (update c) (fun _ => J).
Hypothesis Hdeepcopy : forall a, hoare J (deepcopy a) (fun _ => J).
Hypothesis Hnext : forall self g, hoare J (next self g) (fun _ => J).

Lemma shapes_run_sampler s :
  hoare J (run_sampler update deepcopy next s) (fun _ => J).
Proof.
  destruct s as [|g|g|self feature_|self g]; cbn [run_sampler].
  1-3: eapply hoare_bind; [apply shapes_hoare_rand|]; intros q;
    now apply hoare_ret.
  - unfold FeatureDuplicate_lambda.
    eapply hoare_bind with (Q := fun _ => J).
    { intros w o w' HJ H. now apply get_feature_inv in H as [_ ->]. }
    intros o.
    destruct (dict_get "num_duplicates" (properties o)) as [p|];
      [|apply hoare_raise].
    destruct (current_value p); try apply hoare_raise.
    eapply hoare_bind with (Q := fun _ => J); [|intros l; now apply hoare_ret].
    eapply hoare_weaken;
      [apply (hoare_repeatM J (fun _ => True)) | intros w H; exact H
       | intros x w [H _]; exact H].
    eapply hoare_bind; [apply Hdeepcopy|]. intros c.
    intros w r w' HJ H. split; [|exact Logic.I]. now apply (Hupdate c w r).
  - eapply hoare_bind; [apply Hnext|]. intros z. now apply hoare_ret.
Qed.

Lemma shapes_Property_update owner i :
  hoare J (Property_update (run_sampler update deepcopy next) owner i) (fun _ => J).
Proof.
  unfold Property_update. intros w u w' HJ H.
  apply bind_inv in H as (o & w1 & Hg & H).
  apply get_feature_inv in Hg as [Ho ->].
  destruct (properties o !! i) as [kp|] eqn:Hi;
    [|now apply ret_inv in H as [_ ->]].
  destruct (sampling_rule (snd kp)) as [v|s] eqn:Hr;
    [now apply ret_inv in H as [_ ->]|].
  apply bind_inv in H as (v & w1 & Hs & H).
  pose proof (shapes_run_sampler s w v w1 HJ Hs) as HJ1.
  apply bind_inv in H as (o' & w2 & Hg & H).
  apply get_feature_inv in Hg as [Ho' ->].
  unfold set_feature in H. inversion H; subst u w'. clear H.
  destruct (decide (owner < length (heap w0))) as [Hold|Hnew].
  - destruct (lookup_lt_is_Some_2 (heap w0) owner Hold) as [oo Hoo].
    destruct HJ as ((_ & Hobj & _) & _). destruct HJ1 as ((L1 & Hobj1 & R1) & N1).
    destruct (Hobj owner oo Hoo) as (x & Hx & (_ & _ & _ & Hrx)).
    destruct (Hobj1 owner oo Hoo) as (x1 & Hx1 & (_ & _ & _ & Hrx1)).
    rewrite Ho in Hx. inversion Hx; subst x.
    rewrite Ho' in Hx1. inversion Hx1; subst x1.
    apply (shapes_set_same w1 owner o'); [assumption| |split; [|assumption]].
    + unfold same_shape. cbn [with_properties class feature path properties].
      repeat split. apply rules_insert.
      rewrite Hrx1, <- Hrx, (rules_lookup _ _ _ Hi), Hr. reflexivity.
    + split; [assumption|]. split; assumption.
  - apply shapes_set_new; [lia | assumption].
Qed.

Lemma shapes_Property_propagate owner i :
  hoare J (Property_propagate update owner i) (fun _ => J).
Proof.
  unfold Property_propagate. intros w u w' HJ H.
  apply bind_inv in H as (o & w1 & Hg & H).
  apply get_feature_inv in Hg as [Ho ->].
  destruct (properties o !! i) as [kp|];
    [|now apply ret_inv in H as [_ ->]].
  destruct (current_value (snd kp)) as [| | | |b|];
    try (now apply ret_inv in H as [_ ->]).
  apply bind_inv in H as (r & w1 & Hu & H).
  apply ret_inv in H as [_ ->]. now apply (Hupdate b w r).
Qed.

Lemma shapes_Feature_update_body self :
  hoare J (Feature_update_body update deepcopy next self) (fun _ => J).
Proof.
  unfold Feature_update_body.
  eapply hoare_bind with (Q := fun _ => J).
  { intros w o w' HJ H. now apply get_feature_inv in H as [_ ->]. }
  intros o. eapply hoare_bind with (Q := fun _ => J).
  { destruct (negb (has_updated_since_last_resolve o)); [|now apply hoare_ret].
    unfold PropertyDict_update.
    eapply hoare_bind with (Q := fun _ => J).
    { intros w o' w' HJ H. now apply get_feature_inv in H as [_ ->]. }
    intros o'. eapply hoare_bind with (Q := fun _ => J).
    - apply hoare_forM_. intros i. apply shapes_Property_update.
    - intros u. apply hoare_forM_. intros i. apply shapes_Property_propagate. }
  intros u. eapply hoare_bind; [apply shapes_hoare_set_flag|]. intros u'.
  now apply hoare_ret.
Qed.
End ShapesUpdate.

Lemma shapes_Feature_update fuel :
  forall self, hoare J (Feature_update fuel self) (fun _ => J).
Proof.
  induction fuel as [|fuel IH]; intros self.
  - intros w x w' _ H. discriminate.
  - cbn [Feature_update]. apply shapes_Feature_update_body;
      [exact IH | intros a; apply shapes_copy_deepcopy
       | intros s g; apply shapes_hoare_generator_next].
Qed.
End Shapes.

(** X2. An update never loses an object and never changes the class of
    one, its attributes, the names in its bag, their order or their
    sampling rules: only current values and flags change, new objects
    come after the old ones, and the random source and the generators
    only move on. *)
Theorem update_keeps_objects_and_shapes fuel self w r w' :
  Feature_update fuel self w = Ok (r, w') -> grows_from w w'.
Proof.
  intros H.
  destruct (shapes_Feature_update w 0 fuel self w r w') as [HJ _];
    [|exact H|exact HJ].
  split; [apply grows_from_refl | lia].
Qed.

(** ** A FeatureDuplicate whose count is 0 *)

(** Where the edge case holds: a FeatureDuplicate whose lambda is closed
    over the node itself, as the constructor leaves it.  When the update
    draws the count 0 it stores the empty list, whatever the node held
    before, and the resolve that follows returns the image it is given,
    with the snapshot of the node appended. *)
Lemma self_closed_duplicate_of_count_zero
    fuel fuel' w self t o pc pf extra image :
  heap w !! self = Some o ->
  class o = FeatureDuplicate ->
  properties o = ("num_duplicates", pc) :: ("features", pf) :: extra ->
  sampling_rule pf = Sampled (duplicate_lambda self t) ->
  has_updated_since_last_resolve o = false ->
  plain_rule (sampling_rule pc) = true ->
  current_value
    (fst (resample_property (np_random w) (np_random_calls w) pc)) = VInt 0 ->
  plain_properties extra = true ->
  exists w' o' w'',
    Feature_update (S fuel) self w = Ok (self, w') /\
    heap w' !! self = Some o' /\
    kwarg "num_duplicates" (current_value_dict (properties o')) = VInt 0 /\
    kwarg "features" (current_value_dict (properties o')) = VFeatures [] /\
    Feature_resolve (S fuel') self image w'
    = Ok (Image_append image (current_value_dict (properties o')), w'').
Proof.
  intros Ho Hcls Hprops Hrule Hflag Hpc Hn Hextra.
  destruct (duplicate_update_after_replicas fuel w self t o pc pf extra 0
              Ho Hprops Hrule Hflag Hpc Hn Hextra [] _ eq_refl
              (node_after_count w self o pc pf extra Ho))
    as (w' & o' & Hup & Ho' & _ & Hcount & Hlist).
  destruct (shapes_Feature_update w 0 (S fuel) self w self w'
              (conj (grows_from_refl w) (Nat.le_0_l _)) Hup)
    as [(_ & Hobj & _) _].
  destruct (Hobj self o Ho) as (o2 & Ho2 & (Hcls2 & _)).
  rewrite Ho' in Ho2. inversion Ho2; subst o2. clear Ho2.
  destruct (Feature_resolve_Ok fuel' self image w' o' image w' Ho')
    as (o3 & _ & Hres).
  { rewrite Hcls2, Hcls. cbn [Feature_get]. unfold FeatureDuplicate_get.
    now rewrite Hlist. }
  exists w', o'. eexists. split; [exact Hup|]. split; [exact Ho'|].
  split; [exact Hcount|]. split; [exact Hlist | exact Hres].
Qed.

(** So [t ** 0] is the identity whatever the template, the image and the
    store: scenario 2 of section 8 in general. *)
Lemma duplicate_of_count_zero_is_the_identity fuel t image w :
  exists w',
    (let* d := Feature_pow t (Constant (VInt 0)) in
     round (S fuel) d image) w
    = Ok (Image_append image
            [("num_duplicates", VInt 0); ("features", VFeatures [])], w').
Proof.
  unfold Feature_pow.
  rewrite (bind_Ok _ _ _ _ _
             (FeatureDuplicate_init_Ok t (Constant (VInt 0)) [] w
                NoDup_nil_2 (not_elem_of_nil _) (not_elem_of_nil _))).
  set (self := length (heap w)).
  set (w1 := with_heap w (heap w ++ [duplicate_node self t (Constant (VInt 0)) []])).
  destruct (self_closed_duplicate_of_count_zero fuel fuel w1 self t
              (duplicate_node self t (Constant (VInt 0)) [])
              (Property_init (Constant (VInt 0)))
              (Property_init (Sampled (duplicate_lambda self t))) [] image)
    as (w' & o' & w'' & Hup & Ho' & Hcount & Hlist & Hres);
    [apply lookup_fresh | reflexivity..|].
  exists w''. unfold round. rewrite (bind_Ok _ _ _ _ _ Hup). rewrite Hres.
  do 2 f_equal.
  destruct (shapes_Feature_update w1 0 (S fuel) self w1 self w'
              (conj (grows_from_refl w1) (Nat.le_0_l _)) Hup)
    as [(_ & Hobj & _) _].
  destruct (Hobj self _ (lookup_fresh (heap w) _)) as (o2 & Ho2 & Hshape).
  rewrite Ho' in Ho2. inversion Ho2; subst o2. clear Ho2.
  pose proof (same_shape_keys _ _ Hshape) as Hkeys.
  cbn [duplicate_node properties dict_keys map fst] in Hkeys.
  destruct (properties o') as [|[k1 p1] [|[k2 p2] [|]]]; try discriminate.
  cbn [dict_keys map fst] in Hkeys. inversion Hkeys; subst k1 k2.
  cbn in Hcount, Hlist |- *. now rewrite Hcount, Hlist.
Qed.

(** C6, on the code. The edge case fails on a FeatureDuplicate that is a
    deep copy, which keeps the lambda of the node it was copied from.
    After a round of [D = A ** count] that drew the count 1, a round of
    [E = D ** 1] copies D to the object 4 and updates the copy.  The copy
    draws the count 0 for itself, but its list is made by the lambda of D
    from the count of D: it holds one feature, and the image 5 comes out
    as 6. *)
Theorem copied_duplicate_of_count_zero_adds :
  exists out w',
    copied_zero_scenario = Ok (out, w') /\
    rules_at w' 4
    = Some [("num_duplicates", shrinking_count);
            ("features", Sampled (duplicate_lambda 1 0))] /\
    snapshot_at w' 4
    = Some [("num_duplicates", VInt 0); ("features", VFeatures [7])] /\
    data out = 6%Z /\
    image_properties out
    = [[("value", VInt 1)];
       [("num_duplicates", VInt 0); ("features", VFeatures [7])];
       [("num_duplicates", VInt 1); ("features", VFeatures [4])]].
Proof.
  eexists _, _. split; [vm_compute; reflexivity|].
  repeat split; vm_compute; reflexivity.
Qed.

(** ** Leaf nodes: what [update] and [sample] draw *)

Lemma resample_properties_calls rnd d :
  forall k, snd (resample_properties rnd k d) = k + sampled_count d.
Proof.
  induction d as [|[name p] d IH]; intros k;
    cbn [resample_properties sampled_count fst snd]; [lia|].
  rewrite IH. unfold resample_property.
  destruct (sampling_rule p); cbn [snd]; lia.
Qed.

Lemma resample_properties_constants rnd d :
  forall k i kp v,
    d !! i = Some kp -> sampling_rule (snd kp) = Constant v ->
    fst (resample_properties rnd k d) !! i = Some kp.
Proof.
  induction d as [|[name p] d IH]; intros k i kp v Hi Hr; [discriminate|].
  cbn [resample_properties fst snd]. destruct i as [|i]; cbn in Hi |- *.
  - inversion Hi; subst kp. cbn [snd] in Hr. unfold resample_property.
    now rewrite Hr.
  - now apply (IH _ _ _ v).
Qed.

(** [properties.update()] on a plain bag. *)
Lemma PropertyDict_update_plain update deepcopy next c w o :
  heap w !! c = Some o ->
  plain_properties (properties o) = true ->
  let rs := resample_properties (np_random w) (np_random_calls w)
                                (properties o) in
  PropertyDict_update (run_sampler update deepcopy next) update c w
  = Ok (tt, with_calls
              (with_heap w (<[c := with_properties o (fst rs)]> (heap w)))
              (snd rs)).
Proof.
  intros Ho Hplain rs. unfold PropertyDict_update.
  rewrite (bind_Ok _ _ _ _ _ (get_feature_Ok _ _ _ Ho)).
  pose proof (resample_loop update deepcopy next c (properties o) [] o w Ho eq_refl
                Hplain) as Hl.
  cbn [length app] in Hl. cbn zeta in Hl. fold rs in Hl.
  rewrite (bind_Ok _ _ _ _ _ Hl).
  set (o1 := with_properties o (fst rs)).
  set (w1 := with_calls (with_heap w (<[c := o1]> (heap w))) (snd rs)).
  assert (Ho1 : heap w1 !! c = Some o1).
  { subst w1. cbn. apply list_lookup_insert_eq. now apply lookup_lt_Some in Ho. }
  apply (propagate_nothing update c w1 o1 Ho1).
  intros i kp b Hi. apply plain_value_not_feature.
  assert (Hp : plain_property (snd kp) = true).
  { eapply plain_properties_lookup; [|exact Hi].
    subst o1. cbn [with_properties properties].
    now apply resample_properties_plain. }
  unfold plain_property in Hp. now apply andb_true_iff in Hp as [_ Hp].
Qed.

(** X3. An update() of a node whose bag holds constants and random
    samplers returns with the flag set.  When the flag was not set it
    calls the random source once per sampled property, and not at all
    when it was; a constant keeps its value, and no other object is
    touched. *)
Theorem update_of_a_leaf fuel c w o :
  heap w !! c = Some o ->
  plain_properties (properties o) = true ->
  exists w' o',
    Feature_update (S fuel) c w = Ok (c, w') /\
    heap w' !! c = Some o' /\
    has_updated_since_last_resolve o' = true /\
    np_random_calls w'
    = np_random_calls w
      + (if has_updated_since_last_resolve o then 0
         else sampled_count (properties o)) /\
    (forall i kp v,
        properties o !! i = Some kp -> sampling_rule (snd kp) = Constant v ->
        properties o' !! i = Some kp) /\
    (forall a, a <> c -> heap w' !! a = heap w !! a).
Proof.
  intros Ho Hplain.
  pose proof (Feature_update_plain fuel c w o Ho Hplain) as Hup.
  cbn zeta in Hup.
  set (r := update_plain (np_random w) (np_random_calls w) o) in *.
  exists (with_calls (with_heap w (<[c := fst r]> (heap w))) (snd r)), (fst r).
  split; [exact Hup|]. split.
  { cbn. apply list_lookup_insert_eq. now apply lookup_lt_Some in Ho. }
  subst r. unfold update_plain.
  destruct (has_updated_since_last_resolve o) eqn:Hflag; cbn [fst snd].
  - split; [assumption|]. split; [cbn; lia|]. split; [now intros|].
    intros a Ha. cbn. now rewrite list_lookup_insert_ne.
  - split; [reflexivity|]. split.
    { cbn. apply resample_properties_calls. }
    split.
    + intros i kp v Hi Hr. cbn [with_flag with_properties properties].
      now apply (resample_properties_constants _ _ _ _ _ v).
    + intros a Ha. cbn. now rewrite list_lookup_insert_ne.
Qed.

(** X4. sample() does not look at the flag and does not set it: on a
    node whose bag holds constants and random samplers it resamples every
    sampled property, one call of the random source each, whether the
    flag is set or not, and leaves the flag as it is. *)
Theorem sample_ignores_the_flag fuel c w o :
  heap w !! c = Some o ->
  plain_properties (properties o) = true ->
  exists w' o',
    Feature_sample fuel c w = Ok (c, w') /\
    heap w' !! c = Some o' /\
    has_updated_since_last_resolve o' = has_updated_since_last_resolve o /\
    properties o'
    = fst (resample_properties (np_random w) (np_random_calls w)
                               (properties o)) /\
    np_random_calls w' = np_random_calls w + sampled_count (properties o) /\
    (forall a, a <> c -> heap w' !! a = heap w !! a).
Proof.
  intros Ho Hplain.
  pose proof (PropertyDict_update_plain (Feature_update fuel)
                (copy_deepcopy fuel) (generator_next fuel) c w o Ho Hplain)
    as Hup.
  cbn zeta in Hup.
  set (rs := resample_properties (np_random w) (np_random_calls w)
                                 (properties o)) in *.
  exists (with_calls
            (with_heap w (<[c := with_properties o (fst rs)]> (heap w)))
            (snd rs)),
         (with_properties o (fst rs)).
  split; [|split; [|split; [|split; [|split]]]].
  - unfold Feature_sample. now rewrite (bind_Ok _ _ _ _ _ Hup).
  - cbn. apply list_lookup_insert_eq. now apply lookup_lt_Some in Ho.
  - reflexivity.
  - reflexivity.
  - cbn. apply resample_properties_calls.
  - intros a Ha. cbn. now rewrite list_lookup_insert_ne.
Qed.

(** ** Construction, continued *)

(** X5. [Feature.__init__] wraps the keyword arguments as properties in
    the order they were given, and the new node starts with its flag not
    set. *)
Theorem Feature_init_keeps_the_order get kwargs w :
  NoDup (dict_keys kwargs) ->
  UserFeature_init get kwargs w
  = Ok (length (heap w), with_heap w (heap w ++ [user_node get kwargs])).
Proof.
  intros Hnd. unfold UserFeature_init.
  rewrite (bind_Ok _ _ _ _ _ (new_object_Ok _ _)).
  rewrite (bind_Ok _ _ _ _ _ (Feature_init_fresh _ _ _)).
  unfold ret. cbn [blank properties].
  rewrite fold_dict_set_fresh; [reflexivity | assumption | reflexivity].
Qed.

Lemma keywords_clash {A} (named kwargs : dict A) k w :
  k ∈ dict_keys kwargs -> k ∈ dict_keys named ->
  keywords named kwargs w = Raise TypeError.
Proof.
  intros Hk Hn. unfold keywords.
  replace (forallb _ (dict_keys kwargs)) with false; [reflexivity|].
  symmetry. apply not_true_is_false. intros Hall.
  rewrite forallb_forall in Hall.
  apply list_elem_of_In in Hk. specialize (Hall k Hk).
  apply negb_true_iff in Hall.
  assert (He : existsb (String.eqb k) (dict_keys named) = true).
  { apply existsb_exists. exists k. split; [now apply list_elem_of_In|].
    apply String.eqb_refl. }
  congruence.
Qed.

(** X6. A keyword argument under a name that the constructor passes
    itself makes the constructor raise TypeError: feature_1 or feature_2
    for a FeatureBranch, random_number for a FeatureProbability, features
    for a FeatureDuplicate. *)
Theorem reserved_keyword_is_rejected kwargs :
  ("feature_1" ∈ dict_keys kwargs \/ "feature_2" ∈ dict_keys kwargs ->
   forall F1 F2 w, FeatureBranch_init F1 F2 kwargs w = Raise TypeError) /\
  ("random_number" ∈ dict_keys kwargs ->
   forall f p w, FeatureProbability_init f p kwargs w = Raise TypeError) /\
  ("features" ∈ dict_keys kwargs ->
   forall t c w, FeatureDuplicate_init t c kwargs w = Raise TypeError).
Proof.
  split; [|split].
  - intros Hk F1 F2 w. unfold FeatureBranch_init.
    rewrite (bind_Ok _ _ _ _ _ (new_object_Ok _ _)).
    unfold bind at 1. destruct Hk as [Hk|Hk].
    + rewrite (keywords_clash _ _ "feature_1"); [reflexivity|assumption|].
      unfold dict_keys. cbn [map fst]. repeat constructor.
    + rewrite (keywords_clash _ _ "feature_2"); [reflexivity|assumption|].
      unfold dict_keys. cbn [map fst]. repeat constructor.
  - intros Hk f p w. unfold FeatureProbability_init.
    rewrite (bind_Ok _ _ _ _ _ (new_object_Ok _ _)).
    unfold bind at 1. rewrite (keywords_clash _ _ "random_number");
      [reflexivity|assumption|].
    unfold dict_keys. cbn [map fst]. repeat constructor.
  - intros Hk t c w. unfold FeatureDuplicate_init.
    rewrite (bind_Ok _ _ _ _ _ (new_object_Ok _ _)).
    rewrite (bind_Ok _ _ _ _ _
               (get_feature_Ok _ (with_heap w (heap w ++ [blank FeatureDuplicate]))
                  _ (lookup_fresh _ _))).
    unfold set_feature at 1. unfold bind at 1. unfold bind at 1.
    rewrite (keywords_clash _ _ "features"); [reflexivity|assumption|].
    unfold dict_keys. cbn [map fst]. repeat constructor.
Qed.

(** ** [FeatureDuplicate.get] over a list *)

Lemma foldM_app {A B} (f : B -> A -> M B) l1 l2 :
  forall b w,
    foldM f b (l1 ++ l2) w = (let* b' := foldM f b l1 in foldM f b' l2) w.
Proof.
  induction l1 as [|x l1 IH]; intros b w; cbn [app foldM].
  - reflexivity.
  - unfold bind. destruct (f b x w) as [[b' w']| |]; [|reflexivity..].
    rewrite IH. reflexivity.
Qed.

(** X7. FeatureDuplicate.get resolves the features of its list from left
    to right, each on the image the one before returned: on a list of one
    it is the resolve of that feature, and on [l1 ++ l2] it is get on
    [l1] followed by get on [l2]. *)
Theorem FeatureDuplicate_get_composes resolve image props props1 props2 l1 l2 :
  kwarg "features" props1 = VFeatures l1 ->
  kwarg "features" props2 = VFeatures l2 ->
  kwarg "features" props = VFeatures (l1 ++ l2) ->
  (forall w,
      Feature_get resolve FeatureDuplicate image props w
      = (let* image1 := Feature_get resolve FeatureDuplicate image props1 in
         Feature_get resolve FeatureDuplicate image1 props2) w) /\
  (forall f w,
      l1 = [f] ->
      Feature_get resolve FeatureDuplicate image props1 w = resolve f image w).
Proof.
  intros H1 H2 H. cbn [Feature_get]. unfold FeatureDuplicate_get.
  rewrite H1, H2, H. split.
  - intros w. apply foldM_app.
  - intros f w ->. cbn [foldM]. unfold bind, ret.
    now destruct (resolve f image w) as [[i w']| |].
Qed.

(** ** Sequences built by [+] *)

(** X8. [F + G], for two features with a get of their own, resolved on
    an image: F is applied first, G is applied to what F returned with
    the snapshot of F appended, and the sequence appends its own
    snapshot, the two operands by reference, last of all. *)
Theorem sum_resolves_left_then_right fuel a b oa ob ga gb image ia ib w :
  heap w !! a = Some oa -> class oa = UserFeature ga ->
  heap w !! b = Some ob -> class ob = UserFeature gb ->
  ga image (current_value_dict (properties oa)) = Some ia ->
  gb (Image_append ia (current_value_dict (properties oa)))
     (current_value_dict (properties ob)) = Some ib ->
  exists w',
    (let* s := Feature_add a (Constant (VFeature b)) in
     Feature_resolve (S (S fuel)) s image) w
    = Ok (Image_append
            (Image_append ib (current_value_dict (properties ob)))
            [("feature_1", VFeature a); ("feature_2", VFeature b)],
          w') /\
    length (heap w') = S (length (heap w)).
Proof.
  intros Ha Hca Hb Hcb Hga Hgb. unfold Feature_add.
  rewrite (bind_Ok _ _ _ _ _ (FeatureBranch_init_Ok _ _ _)).
  set (node := branch_node (Constant (VFeature a)) (Constant (VFeature b))).
  set (w1 := with_heap w (heap w ++ [node])).
  assert (Hs : heap w1 !! length (heap w) = Some node) by apply lookup_fresh.
  assert (Ha1 : heap w1 !! a = Some oa).
  { subst w1. rewrite with_heap_heap, lookup_app_l; [assumption|].
    now apply lookup_lt_Some in Ha. }
  assert (Hb1 : heap w1 !! b = Some ob).
  { subst w1. rewrite with_heap_heap, lookup_app_l; [assumption|].
    now apply lookup_lt_Some in Hb. }
  destruct (FeatureBranch_get_order fuel a b oa ob ga gb image ia ib
              (current_value_dict (properties node)) w1)
    as (w2 & Hget); try assumption; try reflexivity.
  destruct (Feature_resolve_Ok (S fuel) (length (heap w)) image w1 node _ w2 Hs Hget)
    as (o' & Ho' & Hr).
  eexists. split; [exact Hr|].
  rewrite with_heap_heap, length_insert.
  rewrite (keeps_size_Feature_get _ _ _ _
             (keeps_size_Feature_resolve (S fuel)) _ _ _ Hget).
  subst w1. rewrite with_heap_heap, length_app. cbn [length]. lia.
Qed.

(** ** The product of two features *)

(** X9. When both operands of [*] are features the left one answers:
    [F * G] wraps F and keeps G as the probability, so the two orders
    build different nodes. *)
Theorem product_of_two_features_is_ordered F G w :
  F <> G ->
  mul_expr (Constant (VFeature F)) (Constant (VFeature G)) w
  = Ok (length (heap w),
        with_heap w
          (heap w ++ [probability_node (Constant (VFeature F))
                                       (Constant (VFeature G))])) /\
  mul_expr (Constant (VFeature F)) (Constant (VFeature G)) w
  <> mul_expr (Constant (VFeature G)) (Constant (VFeature F)) w.
Proof.
  intros Hne. cbn [mul_expr]. unfold Feature_mul.
  rewrite !FeatureProbability_init_Ok. split; [reflexivity|].
  intros H. inversion H as [Hh]. apply app_inv_head in Hh.
  inversion Hh. contradiction.
Qed.

(** ** A feature that a FeatureProbability leaves out *)

(** X11. When the drawn number is not below the probability, the resolve
    of the FeatureProbability returns the image as it came, with its own
    snapshot appended, and does not reach the wrapped feature: a flag set
    there stays set, so the next update() of that feature resamples
    nothing. *)
Theorem skipped_feature_keeps_its_flag
    fuel fuel' self f image w o of_ p rn :
  heap w !! self = Some o -> class o = FeatureProbability ->
  kwarg "feature" (current_value_dict (properties o)) = VFeature f ->
  number (kwarg "probability" (current_value_dict (properties o))) = Some p ->
  kwarg "random_number" (current_value_dict (properties o)) = VFloat rn ->
  ~ (rn < p)%Q ->
  f <> self ->
  heap w !! f = Some of_ -> has_updated_since_last_resolve of_ = true ->
  exists w',
    Feature_resolve (S fuel) self image w
    = Ok (Image_append image (current_value_dict (properties o)), w') /\
    heap w' !! f = Some of_ /\
    Feature_update (S fuel') f w' = Ok (f, w').
Proof.
  intros Ho Hc Hf Hp Hr Hge Hne Hof Hflag.
  destruct (Feature_resolve_Ok fuel self image w o image w Ho) as (o' & Ho' & Hres).
  { rewrite Hc. cbn [Feature_get].
    rewrite (FeatureProbability_get_test _ _ _ f p rn) by assumption.
    apply Qltb_ge in Hge. now rewrite Hge. }
  eexists. split; [exact Hres|].
  assert (Hf' : heap (with_heap w (<[self := with_flag o' false]> (heap w))) !! f
                = Some of_).
  { rewrite with_heap_heap, list_lookup_insert_ne by congruence. exact Hof. }
  split; [exact Hf'|]. now apply (Feature_update_clean _ _ _ of_).
Qed.

(** ** The replicas of any template *)

Lemma deepcopy_properties_keys rec d :
  forall m w ps m' w',
    deepcopy_properties rec d m w = Ok ((ps, m'), w') ->
    dict_keys ps = dict_keys d.
Proof.
  induction d as [|[name p] d IH]; intros m w ps m' w' H;
    cbn [deepcopy_properties] in H.
  - apply ret_inv in H as [H _]. now inversion H.
  - apply bind_inv in H as (r & w1 & _ & H).
    apply bind_inv in H as (c & w2 & _ & H).
    apply bind_inv in H as ([ps' m''] & w3 & Hrest & H).
    apply ret_inv in H as [H _]. inversion H; subst. clear H.
    cbn [dict_keys map fst]. f_equal. exact (IH _ _ _ _ _ Hrest).
Qed.

(** [copy.deepcopy(x)] returns a new object of the class of [x], with the
    path, the flag and the property names of [x]. *)
Lemma copy_deepcopy_twin fuel a w c w' :
  copy_deepcopy fuel a w = Ok (c, w') ->
  c = length (heap w) /\
  grows_from w w' /\
  exists o oc,
    heap w !! a = Some o /\ heap w' !! c = Some oc /\
    class oc = class o /\ path oc = path o /\
    has_updated_since_last_resolve oc = has_updated_since_last_resolve o /\
    dict_keys (properties oc) = dict_keys (properties o).
Proof.
  intros H. unfold copy_deepcopy in H.
  apply bind_inv in H as ([c0 m0] & wr & H & Hr).
  apply ret_inv in Hr as [Hc Hw]. cbn [fst] in Hc. subst c w'.
  destruct fuel as [|fuel]; [discriminate|].
  cbn [deepcopy_feature] in H. unfold deepcopy_feature_body in H.
  cbn [memo_get] in H.
  apply bind_inv in H as (o & wg & Hg & H).
  apply get_feature_inv in Hg as [Ho ->].
  apply bind_inv in H as (a' & w1 & Hn & H).
  rewrite new_object_Ok in Hn. inversion Hn; subst a' w1. clear Hn.
  set (N := S (length (heap w))).
  set (J := fun w1 : World => grows_from w w1 /\ N <= length (heap w1)).
  assert (HJ1 : J (with_heap w (heap w ++ [blank (class o)]))).
  { split.
    - apply (shapes_new_object w 0 w (blank (class o))).
      split; [apply grows_from_refl | lia].
    - subst N. rewrite with_heap_heap, length_app. cbn [length]. lia. }
  apply bind_inv in H as (f & w2 & Hf & H).
  assert (HJ2 : J w2).
  { destruct (feature o) as [t0|].
    - apply bind_inv in Hf as (r & w2' & Hrec & Hret).
      apply ret_inv in Hret as [_ ->].
      exact (shapes_deepcopy_feature w N fuel _ _ _ _ _ HJ1 Hrec).
    - apply ret_inv in Hf as [_ ->]. exact HJ1. }
  apply bind_inv in H as ([ps m'] & w3 & Hps & H).
  assert (HJ3 : J w3).
  { exact (shapes_deepcopy_properties w N _ (shapes_deepcopy_feature w N fuel)
             _ _ _ _ _ HJ2 Hps). }
  apply bind_inv in H as (u & w4 & Hset & H).
  apply ret_inv in H as [H ->]. inversion H; subst c0 m0. clear H.
  unfold set_feature in Hset. inversion Hset; subst w4. clear Hset.
  split; [reflexivity|]. split.
  { apply (shapes_set_new w N w3); [lia | exact HJ3]. }
  eexists o, _. split; [exact Ho|]. split.
  { rewrite with_heap_heap. apply list_lookup_insert_eq.
    destruct HJ3 as [_ HN]. subst N. lia. }
  cbn [class path has_updated_since_last_resolve properties fst].
  split; [reflexivity|]. split; [reflexivity|]. split; [reflexivity|].
  exact (deepcopy_properties_keys _ _ _ _ _ _ _ Hps).
Qed.

Lemma Feature_update_self fuel self w r w' :
  Feature_update fuel self w = Ok (r, w') -> r = self.
Proof.
  destruct fuel as [|fuel]; [discriminate|].
  cbn [Feature_update]. unfold Feature_update_body. intros H.
  apply bind_inv in H as (o & w1 & _ & H).
  apply bind_inv in H as (u & w2 & _ & H).
  apply bind_inv in H as (u' & w3 & _ & H).
  now apply ret_inv in H as [-> _].
Qed.

(** One turn of the list comprehension. *)
Lemma replica_step fuel fuel' t o w x w1 :
  heap w !! t = Some o ->
  (let* c := copy_deepcopy fuel t in Feature_update fuel' c) w = Ok (x, w1) ->
  x = length (heap w) /\
  grows_from w w1 /\
  (forall a, a < length (heap w) -> heap w1 !! a = heap w !! a) /\
  exists oc,
    heap w1 !! x = Some oc /\ class oc = class o /\ path oc = path o /\
    dict_keys (properties oc) = dict_keys (properties o).
Proof.
  intros Ho H.
  assert (Hframe : forall a, a < length (heap w) -> heap w1 !! a = heap w !! a).
  { apply (replicas_frame fuel fuel' t 1 w [x] w1).
    cbn [repeatM]. rewrite (bind_Ok _ _ _ _ _ H). reflexivity. }
  apply bind_inv in H as (c & wc & Hcopy & Hup).
  pose proof (Feature_update_self _ _ _ _ _ Hup) as ->.
  destruct (copy_deepcopy_twin _ _ _ _ _ Hcopy)
    as (-> & Hgrow & o0 & oc & Ho0 & Hoc & Hcls & Hpath & _ & Hkeys).
  rewrite Ho in Ho0. inversion Ho0; subst o0. clear Ho0.
  split; [reflexivity|]. split.
  { destruct (shapes_Feature_update w 0 fuel' _ _ _ _ (conj Hgrow (Nat.le_0_l _)) Hup)
      as [Hg _]. exact Hg. }
  split; [exact Hframe|].
  destruct (shapes_Feature_update wc 0 fuel' _ _ _ _
              (conj (grows_from_refl wc) (Nat.le_0_l _)) Hup)
    as [(_ & Hobj & _) _].
  destruct (Hobj _ _ Hoc) as (oc' & Hoc' & Hshape).
  exists oc'. split; [exact Hoc'|].
  pose proof (same_shape_keys _ _ Hshape) as Hk.
  destruct Hshape as (Hc' & _ & Hp' & _).
  split; [congruence|]. split; congruence.
Qed.

Lemma shapes_replicas w0 N fuel fuel' t n w l w' :
  grows_from w0 w /\ N <= length (heap w) ->
  repeatM n (let* c := copy_deepcopy fuel t in Feature_update fuel' c) w
  = Ok (l, w') ->
  grows_from w0 w' /\ N <= length (heap w').
Proof.
  intros HJ H.
  pose proof (hoare_repeatM (fun w => grows_from w0 w /\ N <= length (heap w))
                (fun _ => True)
                (let* c := copy_deepcopy fuel t in Feature_update fuel' c) n)
    as Hloop.
  destruct (Hloop) with (w := w) (x := l) (w' := w') as (HJ' & _);
    try assumption.
  eapply hoare_bind; [apply (shapes_copy_deepcopy w0 N)|]. intros c.
  intros w1 r w2 HJ1 Hu. split; [|exact Logic.I].
  exact (shapes_Feature_update w0 N fuel' _ _ _ _ HJ1 Hu).
Qed.

Lemma replicas_twins fuel fuel' t o n :
  forall w l w',
    heap w !! t = Some o ->
    repeatM n (let* c := copy_deepcopy fuel t in Feature_update fuel' c) w
    = Ok (l, w') ->
    length (heap w) <= length (heap w') /\
    NoDup l /\
    Forall (fun c => length (heap w) <= c /\
                     exists oc, heap w' !! c = Some oc /\
                                class oc = class o /\ path oc = path o /\
                                dict_keys (properties oc)
                                = dict_keys (properties o)) l.
Proof.
  induction n as [|n IH]; intros w l w' Ho H; cbn [repeatM] in H.
  - apply ret_inv in H as [-> ->]. split; [lia|]. split; constructor.
  - apply bind_inv in H as (x & w1 & Hstep & H).
    apply bind_inv in H as (l' & w2 & Hloop & H).
    apply ret_inv in H as [-> ->].
    destruct (replica_step _ _ _ _ _ _ _ Ho Hstep)
      as (-> & Hgrow & Hframe & oc & Hoc & Hcls & Hpath & Hkeys).
    assert (Hlt : length (heap w) < length (heap w1))
      by now apply lookup_lt_Some in Hoc.
    assert (Ho1 : heap w1 !! t = Some o).
    { rewrite Hframe; [assumption|]. now apply lookup_lt_Some in Ho. }
    destruct (IH _ _ _ Ho1 Hloop) as (Hlen & Hnd & Hall).
    destruct (shapes_replicas w1 0 _ _ _ _ _ _ _
                (conj (grows_from_refl w1) (Nat.le_0_l _)) Hloop)
      as [(_ & Hobj & _) _].
    split; [lia|]. split.
    + constructor; [|exact Hnd]. intros Hin.
      rewrite Forall_forall in Hall. destruct (Hall _ Hin) as [Hge _]. lia.
    + constructor.
      * split; [lia|]. destruct (Hobj _ _ Hoc) as (oc' & Hoc' & Hshape).
        exists oc'. split; [exact Hoc'|].
        pose proof (same_shape_keys _ _ Hshape) as Hk.
        destruct Hshape as (Hc' & _ & Hp' & _).
        split; [congruence|]. split; congruence.
      * eapply Forall_impl; [exact Hall|]. cbn beta.
        intros c (Hge & Hrest). split; [lia | exact Hrest].
Qed.

(** X12. The list comprehension of FeatureDuplicate, for any template
    and any count: when it returns, it returns a list of the length
    max(count, 0) of objects that were not there before, no two
    the same, each of the class of the template and with its property
    names in the same order; every object that was there before, the
    template and the FeatureDuplicate included, is as it was. *)
Theorem lambda_makes_new_twins next fuel fuel' self t ot w v w' :
  heap w !! t = Some ot ->
  run_sampler (Feature_update fuel') (copy_deepcopy fuel) next
              (duplicate_lambda self t) w = Ok (v, w') ->
  exists o pc n l,
    heap w !! self = Some o /\
    dict_get "num_duplicates" (properties o) = Some pc /\
    current_value pc = VInt n /\
    v = VFeatures l /\ length l = Z.to_nat n /\ NoDup l /\
    (forall c, c ∈ l ->
       length (heap w) <= c /\
       exists oc, heap w' !! c = Some oc /\
                  class oc = class ot /\ path oc = path ot /\
                  dict_keys (properties oc) = dict_keys (properties ot)) /\
    (forall a, a < length (heap w) -> heap w' !! a = heap w !! a).
Proof.
  intros Hot H. cbn [run_sampler] in H. unfold FeatureDuplicate_lambda in H.
  apply bind_inv in H as (o & w1 & Hg & H).
  apply get_feature_inv in Hg as [Ho ->].
  destruct (dict_get "num_duplicates" (properties o)) as [pc|] eqn:Hpc;
    [|discriminate].
  destruct (current_value pc) as [|n| | | |] eqn:Hn; try discriminate.
  apply bind_inv in H as (l & w2 & Hloop & H).
  apply ret_inv in H as [-> ->].
  destruct (replicas_frame _ _ _ _ _ _ _ Hloop) as (Hlen & _ & Hold).
  destruct (replicas_twins _ _ _ _ _ _ _ _ Hot Hloop) as (_ & Hnd & Hall).
  exists o, pc, n, l.
  split; [exact Ho|]. split; [exact Hpc|]. split; [exact Hn|].
  split; [reflexivity|]. split; [exact Hlen|]. split; [exact Hnd|].
  split; [|exact Hold].
  intros c Hc. rewrite Forall_forall in Hall. exact (Hall c Hc).
Qed.

(** ** A new Load *)

Lemma generator_starts fuel self g k w :
  buffers w !! g = Some [] -> generators w !! g = Some k ->
  generator_next (S fuel) self g w
  = (Load_next_file self g ;; generator_next fuel self g) w.
Proof. intros Hb Hg. cbn [generator_next]. now rewrite Hb, Hg. Qed.

(** X10. Load(path) always builds its node, and looks at no file and
    draws nothing when it does.  The first update starts the generator:
    it calls get_files, lets the random source choose a file and shuffle
    the array loaded from it (two calls), and the first round adds the
    first item of the shuffled array; the other items wait in the
    generator. *)
Theorem new_Load_starts_its_stream fuel path_ image w files file items z rest :
  length (buffers w) = length (generators w) ->
  get_files (dataset w) path_ = inr files ->
  files !! (np_random_choice (dataset w) (np_random_calls w) mod length files)
  = Some file ->
  np_load (dataset w) file = Some items ->
  np_random_shuffle (dataset w) (S (np_random_calls w)) items = z :: rest ->
  exists w0 w',
    Load_init path_ w = Ok (length (heap w), w0) /\
    np_random_calls w0 = np_random_calls w /\
    buffers w0 !! length (generators w) = Some [] /\
    round (S (S (S fuel))) (length (heap w)) image w0
    = Ok (Image_append (Image_add image z) [("loaded_image", VArray z)], w') /\
    is_Load w' (length (heap w)) (length (generators w)) 1 /\
    buffers w' !! length (generators w) = Some rest /\
    np_random_calls w' = S (S (np_random_calls w)).
Proof.
  intros Hlen Hfiles Hfile Hload Hshuffle.
  pose proof (Load_init_Ok path_ w) as Hinit.
  set (self := length (heap w)) in *. set (g := length (generators w)) in *.
  set (w0 := {| heap := heap w ++ [load_node self path_ g];
                np_random := np_random w; np_random_calls := np_random_calls w;
                dataset := dataset w; generators := generators w ++ [O];
                buffers := buffers w ++ [[]] |}) in *.
  assert (Hb0 : buffers w0 !! g = Some []).
  { subst w0 g. cbn. rewrite <- Hlen. now rewrite list_lookup_middle. }
  assert (Hg0 : generators w0 !! g = Some 0).
  { subst w0 g. cbn. now rewrite list_lookup_middle. }
  assert (Hgf : Load_get_files self w0 = Ok (files, w0)).
  { unfold Load_get_files.
    rewrite (bind_Ok _ _ _ _ _
               (get_feature_Ok self w0 _ (lookup_fresh (heap w) _))).
    cbn [load_node path dataset w0]. now rewrite Hfiles. }
  set (w1 := {| heap := heap w0; np_random := np_random w0;
                np_random_calls := S (S (np_random_calls w));
                dataset := dataset w; generators := generators w0;
                buffers := <[g := z :: rest]> (buffers w0) |}).
  assert (Hnf : Load_next_file self g w0 = Ok (tt, w1)).
  { unfold Load_next_file. rewrite (bind_Ok _ _ _ _ _ Hgf).
    cbn [np_random_calls dataset w0]. rewrite Hfile, Hload, Hshuffle.
    reflexivity. }
  assert (Hnext : generator_next (S (S fuel)) self g w0
                  = Ok (z, {| heap := heap w1; np_random := np_random w1;
                              np_random_calls := np_random_calls w1;
                              dataset := dataset w1;
                              generators := <[g := 1]> (generators w1);
                              buffers := <[g := rest]> (buffers w1) |})).
  { rewrite (generator_starts _ _ _ 0 _ Hb0 Hg0).
    rewrite (bind_Ok _ _ _ _ _ Hnf). cbn [generator_next].
    assert (Hb1 : buffers w1 !! g = Some (z :: rest)).
    { subst w1. cbn [buffers]. apply list_lookup_insert_eq.
      now apply lookup_lt_Some in Hb0. }
    assert (Hg1 : generators w1 !! g = Some 0) by exact Hg0.
    now rewrite Hb1, Hg1. }
  assert (Hload0 : is_Load w0 self g 0)
    by exact (Load_init_is_Load path_ w self w0 Hinit).
  destruct (Load_round _ _ _ _ _ image _ _ Hload0 Hnext)
    as (w' & Hr & Hl & (_ & Hc & _ & Hb & _)).
  exists w0, w'. split; [exact Hinit|]. split; [reflexivity|].
  split; [exact Hb0|]. split; [exact Hr|]. split; [exact Hl|]. split.
  - rewrite <- Hb. cbn [buffers]. apply list_lookup_insert_eq.
    subst w1. cbn [buffers]. rewrite length_insert.
    now apply lookup_lt_Some in Hb0.
  - rewrite <- Hc. reflexivity.
Qed.

Lemma matching_files_none fs p pattern files :
  (forall file, file ∈ files -> isfile fs (os_path_join p file) = false) ->
  matching_files fs p pattern files = inr [].
Proof.
  induction files as [|file files IH]; intros Hno; [reflexivity|].
  cbn [matching_files]. rewrite Hno by apply list_elem_of_here.
  apply IH. intros f Hf. apply Hno. now apply list_elem_of_further.
Qed.

(** X15. A path that is not a directory never yields.  In that branch
    get_files joins the names of the directory to self.path itself; as
    self.path is no directory, none of the joined names is a file, and
    the list is empty (or os.listdir has raised).  Load(path) is built
    all the same, and its first update raises: ValueError from
    np.random.choice, or the OSError of os.listdir. *)
Theorem Load_of_a_file_path_cannot_draw fuel path_ image w :
  length (buffers w) = length (generators w) ->
  isdir (dataset w) path_ = false ->
  (forall names file,
      listdir (dataset w) (os_path_dirname path_) = Some names ->
      file ∈ names ->
      isfile (dataset w) (os_path_join path_ file) = false) ->
  exists w0 e,
    Load_init path_ w = Ok (length (heap w), w0) /\
    (e = ValueError \/ e = OSError) /\
    Feature_update (S (S fuel)) (length (heap w)) w0 = Raise e /\
    round (S (S fuel)) (length (heap w)) image w0 = Raise e.
Proof.
  intros Hlen Hdir Hno.
  pose proof (Load_init_Ok path_ w) as Hinit.
  set (self := length (heap w)) in *. set (g := length (generators w)) in *.
  set (w0 := {| heap := heap w ++ [load_node self path_ g];
                np_random := np_random w; np_random_calls := np_random_calls w;
                dataset := dataset w; generators := generators w ++ [O];
                buffers := buffers w ++ [[]] |}) in *.
  assert (Hb0 : buffers w0 !! g = Some []).
  { subst w0 g. cbn. rewrite <- Hlen. now rewrite list_lookup_middle. }
  assert (Hg0 : generators w0 !! g = Some 0).
  { subst w0 g. cbn. now rewrite list_lookup_middle. }
  assert (Hload0 : is_Load w0 self g 0)
    by exact (Load_init_is_Load path_ w self w0 Hinit).
  assert (Hnext : exists e, (e = ValueError \/ e = OSError) /\
                            generator_next (S fuel) self g w0 = Raise e).
  { rewrite (generator_starts _ _ _ 0 _ Hb0 Hg0).
    unfold bind at 1. unfold Load_next_file, bind at 1. unfold Load_get_files.
    rewrite (bind_Ok _ _ _ _ _
               (get_feature_Ok self w0 _ (lookup_fresh (heap w) _))).
    cbn [load_node path dataset w0]. unfold get_files. rewrite Hdir.
    destruct (listdir (dataset w) (os_path_dirname path_)) as [names|] eqn:Hl.
    - rewrite (matching_files_none _ _ _ _ (fun file => Hno names file eq_refl)).
      cbn. exists ValueError. split; [now left | reflexivity].
    - exists OSError. split; [now right | reflexivity]. }
  destruct Hnext as (e & He & Hnext).
  exists w0, e. split; [exact Hinit|]. split; [exact He|].
  split; [exact (Load_update_raises _ _ _ _ _ _ Hload0 Hnext)|].
  exact (Load_round_raises _ _ _ _ _ image _ Hload0 Hnext).
Qed.

(** ** The update of a sequence *)

(** X13. update() of a sequence whose two operands are leaves: the first
    operand is updated, then the second, then the flag of the sequence is
    set.  Each of the two draws once per sampled property; when both
    operands are one and the same object, the second visit finds its flag
    set and draws nothing. *)
Theorem sequence_update_visits_an_operand_once fuel s a b o oa ob w :
  heap w !! s = Some o ->
  properties o = [("feature_1", Property_init (Constant (VFeature a)));
                  ("feature_2", Property_init (Constant (VFeature b)))] ->
  has_updated_since_last_resolve o = false ->
  a <> s -> b <> s ->
  heap w !! a = Some oa -> plain_properties (properties oa) = true ->
  has_updated_since_last_resolve oa = false ->
  heap w !! b = Some ob -> plain_properties (properties ob) = true ->
  has_updated_since_last_resolve ob = false ->
  exists w',
    Feature_update (S (S fuel)) s w = Ok (s, w') /\
    np_random_calls w'
    = np_random_calls w + sampled_count (properties oa)
      + (if decide (a = b) then 0 else sampled_count (properties ob)) /\
    (forall x ox, x ∈ [s; a; b] -> heap w' !! x = Some ox ->
                  has_updated_since_last_resolve ox = true) /\
    (forall ob', heap w' !! b = Some ob' ->
       properties ob'
       = fst (resample_properties (np_random w)
                (if decide (a = b) then np_random_calls w
                 else np_random_calls w + sampled_count (properties oa))
                (properties ob))).
Proof.
  intros Ho Hprops Hflag Has Hbs Hoa Hpa Hfa Hob Hpb Hfb.
  set (update := Feature_update (S fuel)).
  set (sample := run_sampler update (copy_deepcopy (S fuel))
                            (generator_next (S fuel))).
  assert (HPU : forall i, Property_update sample s i w = Ok (tt, w)).
  { intros i. unfold Property_update.
    rewrite (bind_Ok _ _ _ _ _ (get_feature_Ok _ _ _ Ho)). rewrite Hprops.
    destruct i as [|[|i]]; reflexivity. }
  pose proof (Feature_update_plain fuel a w oa Hoa Hpa) as Hua.
  cbn zeta in Hua. unfold update_plain in Hua. rewrite Hfa in Hua.
  cbn [fst snd] in Hua.
  set (rsa := resample_properties (np_random w) (np_random_calls w)
                                  (properties oa)) in Hua.
  set (oa' := with_flag (with_properties oa (fst rsa)) true) in Hua.
  set (wa := with_calls (with_heap w (<[a := oa']> (heap w))) (snd rsa)) in Hua.
  assert (Hca : np_random_calls wa
                = np_random_calls w + sampled_count (properties oa)).
  { subst wa rsa. cbn. apply resample_properties_calls. }
  assert (Hsa : heap wa !! s = Some o).
  { subst wa. cbn. rewrite list_lookup_insert_ne by congruence. exact Ho. }
  assert (Haa : heap wa !! a = Some oa').
  { subst wa. cbn. apply list_lookup_insert_eq. now apply lookup_lt_Some in Hoa. }
  assert (Hub : exists wb,
             Feature_update (S fuel) b wa = Ok (b, wb) /\
             heap wb !! s = Some o /\
             np_random_calls wb
             = np_random_calls wa
               + (if decide (a = b) then 0 else sampled_count (properties ob)) /\
             (forall x ox, x = a \/ x = b -> heap wb !! x = Some ox ->
                           has_updated_since_last_resolve ox = true) /\
             (forall ob', heap wb !! b = Some ob' ->
                properties ob'
                = fst (resample_properties (np_random w)
                         (if decide (a = b) then np_random_calls w
                          else np_random_calls wa)
                         (properties ob)))).
  { destruct (decide (a = b)) as [Hab|Hne].
    - subst b. exists wa.
      rewrite (Feature_update_clean _ _ _ oa' Haa eq_refl).
      split; [reflexivity|]. split; [exact Hsa|]. split; [lia|]. split.
      + intros x ox Hx Hlook.
        assert (x = a) as -> by tauto.
        rewrite Haa in Hlook. now inversion Hlook.
      + intros ob' Hlook. rewrite Haa in Hlook. inversion Hlook; subst ob'.
        rewrite Hoa in Hob. inversion Hob; subst ob. reflexivity.
    - assert (Hob' : heap wa !! b = Some ob).
      { subst wa. cbn. rewrite list_lookup_insert_ne by congruence. exact Hob. }
      pose proof (Feature_update_plain fuel b wa ob Hob' Hpb) as H.
      cbn zeta in H. unfold update_plain in H. rewrite Hfb in H.
      cbn [fst snd] in H.
      assert (Hlt : b < length (heap wa)) by now apply lookup_lt_Some in Hob'.
      eexists. split; [exact H|]. split.
      { cbn [heap with_calls with_heap].
        rewrite list_lookup_insert_ne by congruence. exact Hsa. }
      split.
      { cbn [np_random_calls with_calls]. apply resample_properties_calls. }
      split.
      + intros x ox [->| ->] Hlook; cbn [heap with_calls with_heap] in Hlook.
        * rewrite list_lookup_insert_ne in Hlook by congruence.
          rewrite Haa in Hlook. now inversion Hlook.
        * rewrite list_lookup_insert_eq in Hlook by exact Hlt.
          now inversion Hlook.
      + intros ob' Hlook. cbn [heap with_calls with_heap] in Hlook.
        rewrite list_lookup_insert_eq in Hlook by exact Hlt.
        inversion Hlook; subst ob'. reflexivity. }
  destruct Hub as (wb & Hub & Hsb & Hcb & Hflags & Hvals).
  assert (Hp0 : Property_propagate update s 0 w = Ok (tt, wa)).
  { unfold Property_propagate.
    rewrite (bind_Ok _ _ _ _ _ (get_feature_Ok _ _ _ Ho)). rewrite Hprops.
    cbn [lookup list_lookup snd current_value Property_init].
    subst update. now rewrite (bind_Ok _ _ _ _ _ Hua). }
  assert (Hp1 : Property_propagate update s 1 wa = Ok (tt, wb)).
  { unfold Property_propagate.
    rewrite (bind_Ok _ _ _ _ _ (get_feature_Ok _ _ _ Hsa)). rewrite Hprops.
    cbn [lookup list_lookup snd current_value Property_init].
    subst update. now rewrite (bind_Ok _ _ _ _ _ Hub). }
  assert (H1 : forM_ [0; 1] (Property_update sample s) w = Ok (tt, w)).
  { cbn [forM_]. rewrite (bind_Ok _ _ _ _ _ (HPU 0)).
    now rewrite (bind_Ok _ _ _ _ _ (HPU 1)). }
  assert (H2 : forM_ [0; 1] (Property_propagate update s) w = Ok (tt, wb)).
  { cbn [forM_]. rewrite (bind_Ok _ _ _ _ _ Hp0).
    now rewrite (bind_Ok _ _ _ _ _ Hp1). }
  assert (HPD : PropertyDict_update sample update s w = Ok (tt, wb)).
  { unfold PropertyDict_update.
    rewrite (bind_Ok _ _ _ _ _ (get_feature_Ok _ _ _ Ho)). rewrite Hprops.
    cbn [length seq]. now rewrite (bind_Ok _ _ _ _ _ H1). }
  exists (with_heap wb (<[s := with_flag o true]> (heap wb))).
  split; [|split; [|split]].
  - cbn [Feature_update]. unfold Feature_update_body. fold update sample.
    rewrite (bind_Ok _ _ _ _ _ (get_feature_Ok _ _ _ Ho)). rewrite Hflag.
    cbn [negb]. rewrite (bind_Ok _ _ _ _ _ HPD).
    now rewrite (bind_Ok _ _ _ _ _ (set_flag_Ok _ true _ _ Hsb)).
  - cbn [np_random_calls with_heap]. rewrite Hcb, Hca. reflexivity.
  - intros x ox Hx Hlook. rewrite with_heap_heap in Hlook.
    destruct (decide (x = s)) as [->|Hxs].
    + rewrite list_lookup_insert_eq in Hlook by now apply lookup_lt_Some in Hsb.
      now inversion Hlook.
    + rewrite list_lookup_insert_ne in Hlook by congruence.
      apply (Hflags x ox); [|exact Hlook].
      apply elem_of_cons in Hx as [Hx|Hx]; [contradiction|].
      apply elem_of_cons in Hx as [Hx|Hx]; [now left|].
      apply elem_of_cons in Hx as [Hx|Hx]; [now right|].
      now apply elem_of_nil in Hx.
  - intros ob' Hlook. rewrite with_heap_heap in Hlook.
    rewrite list_lookup_insert_ne in Hlook by congruence.
    rewrite (Hvals ob' Hlook). destruct (decide (a = b)); [reflexivity|].
    now rewrite Hca.
Qed.

(** ** A round of a FeatureProbability *)

(** One round (update, then resolve) of a FeatureProbability over a leaf
    feature, whatever the flag of that feature: the update of the node
    reaches the wrapped feature through [update], which resamples it or
    not as its flag says. *)
Lemma probability_round_any_flag fuel s f o of_ g v p old image i' w :
  heap w !! s = Some o -> class o = FeatureProbability ->
  properties o
  = [("feature", Property_init (Constant (VFeature f)));
     ("probability", Property_init (Constant v));
     ("random_number",
      {| sampling_rule := Sampled np_random_rand; current_value := old |})] ->
  number v = Some p ->
  has_updated_since_last_resolve o = false ->
  f <> s ->
  heap w !! f = Some of_ -> class of_ = UserFeature g ->
  plain_properties (properties of_) = true ->
  let q := np_random w (np_random_calls w) in
  let of' := fst (update_plain (np_random w) (S (np_random_calls w)) of_) in
  let snap := [("feature", VFeature f); ("probability", v);
               ("random_number", VFloat q)] in
  g image (current_value_dict (properties of')) = Some i' ->
  exists w',
    round (S (S fuel)) s image w
    = Ok (if Qltb q p
          then Image_append
                 (Image_append i' (current_value_dict (properties of'))) snap
          else Image_append image snap,
          w') /\
    np_random_calls w'
    = snd (update_plain (np_random w) (S (np_random_calls w)) of_) /\
    heap w' !! f
    = Some (if Qltb q p then with_flag of' false else of').
Proof.
  intros Ho Hcls Hprops Hv Hflag Hfs Hof Hcf Hplain q of' snap Hg.
  set (update := Feature_update (S fuel)).
  set (sample := run_sampler update (copy_deepcopy (S fuel))
                            (generator_next (S fuel))).
  assert (Hlts : s < length (heap w)) by now apply lookup_lt_Some in Ho.
  assert (Hltf : f < length (heap w)) by now apply lookup_lt_Some in Hof.
  (* the resample pass *)
  assert (HU0 : Property_update sample s 0 w = Ok (tt, w)).
  { unfold Property_update.
    rewrite (bind_Ok _ _ _ _ _ (get_feature_Ok _ _ _ Ho)). now rewrite Hprops. }
  assert (HU1 : Property_update sample s 1 w = Ok (tt, w)).
  { unfold Property_update.
    rewrite (bind_Ok _ _ _ _ _ (get_feature_Ok _ _ _ Ho)). now rewrite Hprops. }
  set (o1 := with_properties o
               [("feature", Property_init (Constant (VFeature f)));
                ("probability", Property_init (Constant v));
                ("random_number",
                 {| sampling_rule := Sampled np_random_rand;
                    current_value := VFloat q |})]).
  set (w1 := with_calls (with_heap w (<[s := o1]> (heap w)))
                        (S (np_random_calls w))).
  assert (HU2 : Property_update sample s 2 w = Ok (tt, w1)).
  { unfold sample.
    rewrite (Property_update_plain update (copy_deepcopy (S fuel))
               (generator_next (S fuel)) s 2 w o
               ("random_number",
                {| sampling_rule := Sampled np_random_rand;
                   current_value := old |}) Ho);
      [| now rewrite Hprops | reflexivity].
    cbn [fst snd]. rewrite Hprops. reflexivity. }
  assert (Hs1 : heap w1 !! s = Some o1).
  { subst w1. cbn. now apply list_lookup_insert_eq. }
  assert (Hf1 : heap w1 !! f = Some of_).
  { subst w1. cbn. rewrite list_lookup_insert_ne by congruence. exact Hof. }
  (* the propagation *)
  pose proof (Feature_update_plain fuel f w1 of_ Hf1 Hplain) as Huf.
  cbn zeta in Huf.
  change (np_random w1) with (np_random w) in Huf.
  change (np_random_calls w1) with (S (np_random_calls w)) in Huf.
  fold of' in Huf.
  set (kf := snd (update_plain (np_random w) (S (np_random_calls w)) of_)) in *.
  set (wf := with_calls (with_heap w1 (<[f := of']> (heap w1))) kf) in Huf.
  assert (Hsf : heap wf !! s = Some o1).
  { subst wf. cbn [heap with_calls with_heap].
    rewrite list_lookup_insert_ne by congruence. exact Hs1. }
  assert (Hff : heap wf !! f = Some of').
  { subst wf. cbn [heap with_calls with_heap]. apply list_lookup_insert_eq.
    now apply lookup_lt_Some in Hf1. }
  assert (HP0 : Property_propagate update s 0 w1 = Ok (tt, wf)).
  { unfold Property_propagate.
    rewrite (bind_Ok _ _ _ _ _ (get_feature_Ok _ _ _ Hs1)).
    subst o1. cbn [with_properties properties lookup list_lookup snd
                   current_value Property_init].
    subst update. now rewrite (bind_Ok _ _ _ _ _ Huf). }
  assert (HP1 : Property_propagate update s 1 wf = Ok (tt, wf)).
  { unfold Property_propagate.
    rewrite (bind_Ok _ _ _ _ _ (get_feature_Ok _ _ _ Hsf)).
    subst o1. cbn [with_properties properties lookup list_lookup snd
                   current_value Property_init].
    destruct v; try discriminate; reflexivity. }
  assert (HP2 : Property_propagate update s 2 wf = Ok (tt, wf)).
  { unfold Property_propagate.
    rewrite (bind_Ok _ _ _ _ _ (get_feature_Ok _ _ _ Hsf)). reflexivity. }
  assert (H1 : forM_ [0; 1; 2] (Property_update sample s) w = Ok (tt, w1)).
  { cbn [forM_]. rewrite (bind_Ok _ _ _ _ _ HU0).
    rewrite (bind_Ok _ _ _ _ _ HU1). now rewrite (bind_Ok _ _ _ _ _ HU2). }
  assert (H2 : forM_ [0; 1; 2] (Property_propagate update s) w1 = Ok (tt, wf)).
  { cbn [forM_]. rewrite (bind_Ok _ _ _ _ _ HP0).
    rewrite (bind_Ok _ _ _ _ _ HP1). now rewrite (bind_Ok _ _ _ _ _ HP2). }
  assert (HPD : PropertyDict_update sample update s w = Ok (tt, wf)).
  { unfold PropertyDict_update.
    rewrite (bind_Ok _ _ _ _ _ (get_feature_Ok _ _ _ Ho)). rewrite Hprops.
    cbn [length seq]. now rewrite (bind_Ok _ _ _ _ _ H1). }
  set (o2 := with_flag o1 true).
  set (w2 := with_heap wf (<[s := o2]> (heap wf))).
  assert (Hupd : Feature_update (S (S fuel)) s w = Ok (s, w2)).
  { cbn [Feature_update]. unfold Feature_update_body. fold update sample.
    rewrite (bind_Ok _ _ _ _ _ (get_feature_Ok _ _ _ Ho)). rewrite Hflag.
    cbn [negb]. rewrite (bind_Ok _ _ _ _ _ HPD).
    now rewrite (bind_Ok _ _ _ _ _ (set_flag_Ok _ true _ _ Hsf)). }
  assert (Hs2 : heap w2 !! s = Some o2).
  { subst w2. rewrite with_heap_heap. apply list_lookup_insert_eq.
    now apply lookup_lt_Some in Hsf. }
  assert (Hf2 : heap w2 !! f = Some of').
  { subst w2. rewrite with_heap_heap.
    rewrite list_lookup_insert_ne by congruence. exact Hff. }
  assert (Hc2 : np_random_calls w2 = kf) by reflexivity.
  (* the resolve *)
  assert (Hcf' : class of' = UserFeature g).
  { subst of'. unfold update_plain.
    destruct (has_updated_since_last_resolve of_); exact Hcf. }
  assert (Hget : exists w3,
             Feature_get (Feature_resolve (S fuel)) (class o2) image
               (current_value_dict (properties o2)) w2
             = Ok (if Qltb q p
                   then Image_append i' (current_value_dict (properties of'))
                   else image, w3) /\
             np_random_calls w3 = kf /\
             heap w3 !! s = Some o2 /\
             heap w3 !! f
             = Some (if Qltb q p then with_flag of' false else of')).
  { change (class o2) with (class o). rewrite Hcls. cbn [Feature_get].
    rewrite (FeatureProbability_get_test _ _ _ f p q);
      [| reflexivity | exact Hv | reflexivity].
    destruct (Qltb q p).
    - destruct (Feature_resolve_Ok fuel f image w2 of' i' w2 Hf2)
        as (o' & Ho' & Hr).
      { rewrite Hcf'. cbn [Feature_get]. now rewrite Hg. }
      rewrite Hf2 in Ho'. inversion Ho'; subst o'. clear Ho'.
      eexists. split; [exact Hr|]. split; [reflexivity|].
      rewrite with_heap_heap. split.
      + rewrite list_lookup_insert_ne by congruence. exact Hs2.
      + apply list_lookup_insert_eq. now apply lookup_lt_Some in Hf2.
    - exists w2. split; [reflexivity|]. split; [reflexivity|].
      split; assumption. }
  destruct Hget as (w3 & Hget & Hc3 & Hs3 & Hf3).
  destruct (Feature_resolve_Ok (S fuel) s image w2 o2 _ w3 Hs2 Hget)
    as (o' & Ho' & Hr).
  eexists. split; [|split].
  - unfold round. rewrite (bind_Ok _ _ _ _ _ Hupd). rewrite Hr.
    change (current_value_dict (properties o2)) with snap.
    now destruct (Qltb q p).
  - exact Hc3.
  - rewrite with_heap_heap, list_lookup_insert_ne by congruence. exact Hf3.
Qed.

(** X14. One round (update, then resolve) of a FeatureProbability over a
    leaf feature whose flag is not set.  The update draws the random
    number of the node first, the next output of the random source, and
    resamples the wrapped feature after it, from the outputs that follow.
    The resolve applies the wrapped feature, with the values just drawn,
    when the number is below the probability and passes the image on when
    it is not; the snapshot of the node, with the number drawn, is the
    last record of the trail.  Either way the wrapped feature has been
    resampled; its flag is cleared when it was applied and stays set
    when it was not. *)
Theorem probability_round fuel s f o of_ g v p old image i' w :
  heap w !! s = Some o -> class o = FeatureProbability ->
  properties o
  = [("feature", Property_init (Constant (VFeature f)));
     ("probability", Property_init (Constant v));
     ("random_number",
      {| sampling_rule := Sampled np_random_rand; current_value := old |})] ->
  number v = Some p ->
  has_updated_since_last_resolve o = false ->
  f <> s ->
  heap w !! f = Some of_ -> class of_ = UserFeature g ->
  plain_properties (properties of_) = true ->
  has_updated_since_last_resolve of_ = false ->
  let q := np_random w (np_random_calls w) in
  let props := fst (resample_properties (np_random w) (S (np_random_calls w))
                                        (properties of_)) in
  let snap := [("feature", VFeature f); ("probability", v);
               ("random_number", VFloat q)] in
  g image (current_value_dict props) = Some i' ->
  exists w' of',
    round (S (S fuel)) s image w
    = Ok (if Qltb q p
          then Image_append (Image_append i' (current_value_dict props)) snap
          else Image_append image snap,
          w') /\
    np_random_calls w'
    = S (np_random_calls w) + sampled_count (properties of_) /\
    heap w' !! f = Some of' /\
    properties of' = props /\
    has_updated_since_last_resolve of' = negb (Qltb q p).
Proof.
  intros Ho Hcls Hprops Hv Hflag Hfs Hof Hcf Hplain Hflagf q props snap Hg.
  assert (Hup : update_plain (np_random w) (S (np_random_calls w)) of_
                = (with_flag (with_properties of_ props) true,
                   S (np_random_calls w) + sampled_count (properties of_))).
  { unfold update_plain. rewrite Hflagf. subst props. cbn zeta.
    f_equal. apply resample_properties_calls. }
  destruct (probability_round_any_flag fuel s f o of_ g v p old image i' w
              Ho Hcls Hprops Hv Hflag Hfs Hof Hcf Hplain)
    as (w' & Hr & Hc & Hf).
  { rewrite Hup. exact Hg. }
  rewrite Hup in Hr, Hc, Hf. cbn [fst snd] in Hr, Hc, Hf.
  cbn [with_flag with_properties properties] in Hr.
  exists w'. eexists. split; [exact Hr|]. split; [exact Hc|].
  split; [exact Hf|]. fold q. destruct (Qltb q p); split; reflexivity.
Qed.

(** ** The further properties at work on [example_world] and
    [operators_world] *)

Lemma resolve_only_clears_flags_witness :
  Feature_resolve 1 2 (mkImage 5 []) example_world
  = Ok (Image_append (mkImage 6 []) [("value", VInt 1)],
        with_heap example_world
          (<[2 := with_flag add_one_example false]> (heap example_world))) /\
  only_flags_cleared example_world
    (with_heap example_world
       (<[2 := with_flag add_one_example false]> (heap example_world))).
Proof.
  assert (H : Feature_resolve 1 2 (mkImage 5 []) example_world
              = Ok (Image_append (mkImage 6 []) [("value", VInt 1)],
                    with_heap example_world
                      (<[2 := with_flag add_one_example false]>
                         (heap example_world)))) by reflexivity.
  split; [exact H|].
  exact (resolve_only_clears_flags 1 2 (mkImage 5 []) example_world _ _ H).
Defined.

Lemma update_keeps_objects_and_shapes_witness :
  exists w',
    Feature_update 2 1 example_world = Ok (1, w') /\
    grows_from example_world w'.
Proof.
  eexists. split; [vm_compute; reflexivity|].
  apply (update_keeps_objects_and_shapes 2 1 example_world 1).
  vm_compute. reflexivity.
Defined.

Lemma update_of_a_leaf_witness :
  exists w' o',
    Feature_update 1 0 example_world = Ok (0, w') /\
    heap w' !! 0 = Some o' /\
    has_updated_since_last_resolve o' = true /\
    np_random_calls w'
    = np_random_calls example_world
      + (if has_updated_since_last_resolve template_example then 0
         else sampled_count (properties template_example)) /\
    (forall i kp v,
        properties template_example !! i = Some kp ->
        sampling_rule (snd kp) = Constant v ->
        properties o' !! i = Some kp) /\
    (forall a, a <> 0 -> heap w' !! a = heap example_world !! a).
Proof.
  apply (update_of_a_leaf 0 0 example_world template_example); reflexivity.
Defined.

Lemma sample_ignores_the_flag_witness :
  exists w' o',
    Feature_sample 1 4 operators_world = Ok (4, w') /\
    heap w' !! 4 = Some o' /\
    has_updated_since_last_resolve o'
    = has_updated_since_last_resolve (with_flag template_example true) /\
    properties o'
    = fst (resample_properties (np_random operators_world)
             (np_random_calls operators_world)
             (properties (with_flag template_example true))) /\
    np_random_calls w'
    = np_random_calls operators_world
      + sampled_count (properties (with_flag template_example true)) /\
    (forall a, a <> 4 -> heap w' !! a = heap operators_world !! a).
Proof.
  apply (sample_ignores_the_flag 1 4 operators_world
           (with_flag template_example true)); reflexivity.
Defined.

Lemma Feature_init_keeps_the_order_witness :
  UserFeature_init Add_get
    [("value", Constant (VInt 1)); ("scale", sampled_value)] example_world
  = Ok (length (heap example_world),
        with_heap example_world
          (heap example_world ++
           [user_node Add_get
              [("value", Constant (VInt 1)); ("scale", sampled_value)]])).
Proof.
  apply (Feature_init_keeps_the_order Add_get
           [("value", Constant (VInt 1)); ("scale", sampled_value)]
           example_world).
  refine (bool_decide_unpack _ _). vm_compute. exact Logic.I.
Defined.

Lemma reserved_keyword_is_rejected_witness :
  (forall F1 F2 w, FeatureBranch_init F1 F2 reserved_kwargs w = Raise TypeError) /\
  (forall f p w, FeatureProbability_init f p reserved_kwargs w = Raise TypeError) /\
  (forall t c w, FeatureDuplicate_init t c reserved_kwargs w = Raise TypeError).
Proof.
  destruct (reserved_keyword_is_rejected reserved_kwargs) as (H1 & H2 & H3).
  split; [|split].
  - apply H1. right. cbn. repeat constructor.
  - apply H2. cbn. repeat constructor.
  - apply H3. cbn. repeat constructor.
Defined.

Lemma FeatureDuplicate_get_composes_witness :
  (forall w,
      Feature_get (Feature_resolve 1) FeatureDuplicate (mkImage 5 [])
        [("features", VFeatures [2; 2])] w
      = (let* image1 :=
           Feature_get (Feature_resolve 1) FeatureDuplicate (mkImage 5 [])
             [("features", VFeatures [2])] in
         Feature_get (Feature_resolve 1) FeatureDuplicate image1
           [("features", VFeatures [2])]) w) /\
  (forall f w,
      [2] = [f] ->
      Feature_get (Feature_resolve 1) FeatureDuplicate (mkImage 5 [])
        [("features", VFeatures [2])] w
      = Feature_resolve 1 f (mkImage 5 []) w).
Proof.
  apply (FeatureDuplicate_get_composes (Feature_resolve 1) (mkImage 5 [])
           [("features", VFeatures [2; 2])] [("features", VFeatures [2])]
           [("features", VFeatures [2])] [2] [2]); reflexivity.
Defined.

Lemma sum_resolves_left_then_right_witness :
  exists w',
    (let* s := Feature_add 2 (Constant (VFeature 2)) in
     Feature_resolve 2 s (mkImage 5 [])) example_world
    = Ok (Image_append
            (Image_append (mkImage 7 [[("value", VInt 1)]])
                          (current_value_dict (properties add_one_example)))
            [("feature_1", VFeature 2); ("feature_2", VFeature 2)],
          w') /\
    length (heap w') = S (length (heap example_world)).
Proof.
  apply (sum_resolves_left_then_right 0 2 2 add_one_example add_one_example
           Add_get Add_get (mkImage 5 []) (mkImage 6 [])
           (mkImage 7 [[("value", VInt 1)]]) example_world); reflexivity.
Defined.

Lemma product_of_two_features_is_ordered_witness :
  mul_expr (Constant (VFeature 0)) (Constant (VFeature 2)) example_world
  = Ok (length (heap example_world),
        with_heap example_world
          (heap example_world ++
           [probability_node (Constant (VFeature 0)) (Constant (VFeature 2))])) /\
  mul_expr (Constant (VFeature 0)) (Constant (VFeature 2)) example_world
  <> mul_expr (Constant (VFeature 2)) (Constant (VFeature 0)) example_world.
Proof.
  apply (product_of_two_features_is_ordered 0 2 example_world). discriminate.
Defined.

Lemma lambda_makes_new_twins_witness :
  exists v w',
    run_sampler (Feature_update 1) (copy_deepcopy 1) (generator_next 1)
                (duplicate_lambda 1 0) example_world = Ok (v, w') /\
    exists o pc n l,
      heap example_world !! 1 = Some o /\
      dict_get "num_duplicates" (properties o) = Some pc /\
      current_value pc = VInt n /\
      v = VFeatures l /\ length l = Z.to_nat n /\ NoDup l /\
      (forall c, c ∈ l ->
         length (heap example_world) <= c /\
         exists oc, heap w' !! c = Some oc /\
                    class oc = class template_example /\
                    path oc = path template_example /\
                    dict_keys (properties oc)
                    = dict_keys (properties template_example)) /\
      (forall a, a < length (heap example_world) ->
                 heap w' !! a = heap example_world !! a).
Proof.
  eexists _, _. split; [vm_compute; reflexivity|].
  apply (lambda_makes_new_twins (generator_next 1) 1 1 1 0 template_example
           example_world);
    [reflexivity | vm_compute; reflexivity].
Defined.

Lemma skipped_feature_keeps_its_flag_witness :
  exists w',
    Feature_resolve 1 1 (mkImage 5 []) operators_world
    = Ok (Image_append (mkImage 5 [])
            (current_value_dict (properties probability_example)), w') /\
    heap w' !! 0 = Some add_one_example /\
    Feature_update 1 0 w' = Ok (0, w').
Proof.
  apply (skipped_feature_keeps_its_flag 0 0 1 0 (mkImage 5 []) operators_world
           probability_example add_one_example (1 # 2) (3 # 4));
    first [reflexivity | discriminate | unfold Qlt; cbn; lia].
Defined.

Lemma sequence_update_visits_an_operand_once_witness :
  exists w',
    Feature_update 2 3 operators_world = Ok (3, w') /\
    np_random_calls w'
    = np_random_calls operators_world
      + sampled_count (properties template_example)
      + (if decide (2 = 2) then 0
         else sampled_count (properties template_example)) /\
    (forall x ox, x ∈ [3; 2; 2] -> heap w' !! x = Some ox ->
                  has_updated_since_last_resolve ox = true) /\
    (forall ob', heap w' !! 2 = Some ob' ->
       properties ob'
       = fst (resample_properties (np_random operators_world)
                (if decide (2 = 2) then np_random_calls operators_world
                 else np_random_calls operators_world
                      + sampled_count (properties template_example))
                (properties template_example))).
Proof.
  apply (sequence_update_visits_an_operand_once 0 3 2 2
           (branch_node (Constant (VFeature 2)) (Constant (VFeature 2)))
           template_example template_example operators_world);
    first [reflexivity | discriminate].
Defined.

Lemma probability_round_witness :
  exists w' of',
    round 2 5 (mkImage 5 []) operators_world
    = Ok (mkImage 9
            [[("value", VInt 4)];
             [("feature", VFeature 2); ("probability", VFloat (1 # 2));
              ("random_number", VFloat (1 # 3))]],
          w') /\
    np_random_calls w' = 3 /\
    heap w' !! 2 = Some of' /\
    properties of'
    = [("value",
        {| sampling_rule := sampled_value; current_value := VInt 4 |})] /\
    has_updated_since_last_resolve of' = false.
Proof.
  apply (probability_round 0 5 2
           (probability_node (Constant (VFeature 2)) (Constant (VFloat (1 # 2))))
           template_example Add_get (VFloat (1 # 2)) (1 # 2) VNone
           (mkImage 5 []) (mkImage 9 []) operators_world);
    first [reflexivity | discriminate].
Defined.

Lemma new_Load_starts_its_stream_witness :
  exists w0 w',
    Load_init "data" example_world = Ok (length (heap example_world), w0) /\
    np_random_calls w0 = np_random_calls example_world /\
    buffers w0 !! length (generators example_world) = Some [] /\
    round 3 (length (heap example_world)) (mkImage 5 []) w0
    = Ok (Image_append (Image_add (mkImage 5 []) 2)
            [("loaded_image", VArray 2)], w') /\
    is_Load w' (length (heap example_world))
            (length (generators example_world)) 1 /\
    buffers w' !! length (generators example_world) = Some [1; 0]%Z /\
    np_random_calls w' = S (S (np_random_calls example_world)).
Proof.
  apply (new_Load_starts_its_stream 0 "data" (mkImage 5 []) example_world
           ["data/a.npy"; "data/b.npy"] "data/a.npy" [0; 1; 2]%Z 2 [1; 0]%Z);
    reflexivity.
Defined.

Lemma Load_of_a_file_path_cannot_draw_witness :
  exists w0 e,
    Load_init "data/a.npy" example_world
    = Ok (length (heap example_world), w0) /\
    (e = ValueError \/ e = OSError) /\
    Feature_update 2 (length (heap example_world)) w0 = Raise e /\
    round 2 (length (heap example_world)) (mkImage 5 []) w0 = Raise e.
Proof.
  apply (Load_of_a_file_path_cannot_draw 0 "data/a.npy" (mkImage 5 [])
           example_world); [reflexivity | reflexivity |].
  intros names file Hl Hin. vm_compute in Hl. inversion Hl; subst names.
  repeat (apply elem_of_cons in Hin as [->|Hin]; [reflexivity|]).
  now apply elem_of_nil in Hin.
Defined.
